(** * Docking-score z-score analysis: a shallow embedding of
    [docking-zscore-analysis.py] and the properties of its specification.

    The program reads a CSV table, parses a locale-tolerant numeric column,
    computes population z-scores with NumPy, filters rows at or below a fixed
    threshold, writes a filtered CSV, a PDF table and two plots.

    Modelling choices:
    - a Python [str] is a [string]; each [ascii] stands for one character
      (code points 0..255);
    - a Python [float] (and a NumPy [float64]) is an IEEE-754 binary64 value,
      a [spec_float] at precision 53 and [emax] 1024, with the arithmetic of
      [SpecFloat]; conversions from and to decimal text round to nearest,
      ties to even, as CPython's [dtoa.c] does;
    - exceptions are explicit: a computation returns an [outcome];
    - the file system, standard output and the current matplotlib figure are
      an explicit [world], threaded through [main]. *)

From Stdlib Require Import ZArith Ascii String SpecFloat.
From stdpp Require Import base option list strings gmap.

Local Open Scope Z_scope.

(** ** Exceptions *)

Inductive exn :=
  | ValueError
  | IndexError
  | TypeError
  | KeyError
  | FileNotFoundError
  | CsvError
  | AttributeError.

Inductive outcome (A : Type) :=
  | Ret (a : A)
  | Raise (e : exn).
Arguments Ret {A} a.
Arguments Raise {A} e.

Definition obind {A B} (m : outcome A) (k : A → outcome B) : outcome B :=
  match m with
  | Ret a => k a
  | Raise e => Raise e
  end.

#[global] Instance outcome_ret : MRet outcome := fun _ a => Ret a.
#[global] Instance outcome_bind : MBind outcome := fun _ _ k m => obind m k.
#[global] Instance outcome_fmap : FMap outcome :=
  fun _ _ f m => obind m (fun a => Ret (f a)).

(** ** Python strings *)

Module PyStr.

(** [c in s] for a one-character needle. *)
Fixpoint contains (c : ascii) (s : string) : bool :=
  match s with
  | EmptyString => false
  | String a s' => if Ascii.eqb a c then true else contains c s'
  end.

(** [s.split(c)] for a one-character separator: never empty. *)
Fixpoint split (c : ascii) (s : string) : list string :=
  match s with
  | EmptyString => [EmptyString]
  | String a s' =>
      if Ascii.eqb a c then EmptyString :: split c s'
      else match split c s' with
           | [] => [String a EmptyString]
           | w :: ws => String a w :: ws
           end
  end.

(** [s.replace(old, new)] for one-character [old] and [new]. *)
Fixpoint replace (old new : ascii) (s : string) : string :=
  match s with
  | EmptyString => EmptyString
  | String a s' =>
      String (if Ascii.eqb a old then new else a) (replace old new s')
  end.

(** [l[i]] for a non-negative index. *)
Definition index {A} (l : list A) (i : nat) : outcome A :=
  match l !! i with
  | Some x => Ret x
  | None => Raise IndexError
  end.

(** [l[-1]]. *)
Definition index_last {A} (l : list A) : outcome A :=
  match last l with
  | Some x => Ret x
  | None => Raise IndexError
  end.

Definition chars (s : string) : list ascii := list_ascii_of_string s.
Definition of_chars (l : list ascii) : string := string_of_list_ascii l.

Definition is_digit (c : ascii) : bool :=
  let n := N_of_ascii c in ((48 <=? n) && (n <=? 57))%N.

Definition digit_val (c : ascii) : Z := Z.of_N (N_of_ascii c) - 48.

Definition digit_char (d : Z) : ascii := ascii_of_N (Z.to_N (48 + d)).

(** The value of a run of decimal digits, most significant first. *)
Definition digits_val (ds : list ascii) : Z :=
  fold_left (fun acc c => 10 * acc + digit_val c) ds 0.

(** The decimal digits of [n], for [0 <= n], most significant first. *)
Fixpoint to_digits_aux (fuel : nat) (n : Z) (acc : list ascii)
  : list ascii :=
  match fuel with
  | O => acc
  | S f =>
      let acc' := digit_char (n mod 10) :: acc in
      if n <? 10 then acc' else to_digits_aux f (n / 10) acc'
  end.

Definition to_digits (n : Z) : list ascii :=
  to_digits_aux (S (Z.to_nat (Z.log2 n))) n [].

(** [str(n)] for a non-negative [int]. *)
Definition of_nat (n : nat) : string := of_chars (to_digits (Z.of_nat n)).

Definition zeros (n : nat) : list ascii := replicate n "0"%char.

Definition lower (c : ascii) : ascii :=
  let n := N_of_ascii c in
  if ((65 <=? n) && (n <=? 90))%N then ascii_of_N (n + 32) else c.

End PyStr.

(** ** Binary64 floats *)

Module PyFloat.

Definition float := spec_float.

Definition prec : Z := 53.
Definition emax : Z := 1024.

Definition add : float → float → float := SFadd prec emax.
Definition sub : float → float → float := SFsub prec emax.
Definition mul : float → float → float := SFmul prec emax.
Definition div : float → float → float := SFdiv prec emax.
Definition sqrt : float → float := SFsqrt prec emax.
Definition leb : float → float → bool := SFleb.
Definition ltb : float → float → bool := SFltb.

(** The float of an integer (exact below 2^53, rounded above). *)
Definition of_Z (n : Z) : float := binary_normalize prec emax n 0 false.

Definition is_finite (x : float) : bool :=
  match x with
  | S754_zero _ | S754_finite _ _ _ => true
  | _ => false
  end.

(** *** Correctly rounded conversion of a positive rational

    [round_ratio s n d] is the binary64 value nearest to [n / d]
    (for [0 < n], [0 < d]), ties to even, with sign [s]; overflow gives an
    infinity and underflow a zero, as [strtod] does. *)

(** The least [ex] with [n / d < 2 ^ ex]. *)
Definition mag2 (n d : Z) : Z :=
  let k := Z.log2 n - Z.log2 d in
  let ge := if 0 <=? k then d * 2 ^ k <=? n else d <=? n * 2 ^ (- k) in
  if ge then k + 1 else k.

Definition round_half_even (num den : Z) : Z :=
  let q := num / den in
  match Z.compare (2 * (num mod den)) den with
  | Lt => q
  | Gt => q + 1
  | Eq => if Z.even q then q else q + 1
  end.

Definition round_ratio (s : bool) (n d : Z) : float :=
  let e := Z.max (mag2 n d - prec) (3 - emax - prec) in
  let m := if 0 <=? e then round_half_even n (d * 2 ^ e)
           else round_half_even (n * 2 ^ (- e)) d in
  let '(m, e) := if m =? 2 ^ prec then (2 ^ (prec - 1), e + 1) else (m, e) in
  match m with
  | Zpos p => if e <=? emax - prec then S754_finite s p e
              else S754_infinity s
  | _ => S754_zero s
  end.

(** The float nearest to [m * 10 ^ e10], for [0 <= m]. *)
Definition of_decimal (s : bool) (m e10 : Z) : float :=
  if m =? 0 then S754_zero s
  else if 0 <=? e10 then round_ratio s (m * 10 ^ e10) 1
  else round_ratio s m (10 ^ (- e10)).

(** *** [float(str)]

    CPython's [PyFloat_FromString]: non-ASCII spaces become blanks and
    other non-ASCII characters a question mark (where the text stops);
    underscores are accepted between digits only; surrounding whitespace is
    stripped; what is left must be, in full, a decimal literal
    ([_Py_dg_strtod]) or a spelling of infinity or NaN
    ([_Py_parse_inf_or_nan]). *)

Definition is_space (c : ascii) : bool :=
  let n := N_of_ascii c in (((9 <=? n) && (n <=? 13)) || (n =? 32))%N.

Definition is_unicode_space (c : ascii) : bool :=
  let n := N_of_ascii c in ((n =? 133) || (n =? 160))%N.

Fixpoint transform_to_ascii (l : list ascii) : list ascii :=
  match l with
  | [] => []
  | c :: r =>
      if (N_of_ascii c <? 127)%N then c :: transform_to_ascii r
      else if is_unicode_space c then " "%char :: transform_to_ascii r
      else ["?"%char]
  end.

Definition transform_decimal_and_space (l : list ascii) : list ascii :=
  if forallb (fun c => (N_of_ascii c <? 128)%N) l then l
  else transform_to_ascii l.

Definition is_underscore (c : ascii) : bool := Ascii.eqb c "_".

(** [prev] is the character before [l]; NUL at the start. *)
Fixpoint strip_underscores (prev : ascii) (l : list ascii)
  : option (list ascii) :=
  match l with
  | [] => if is_underscore prev then None else Some []
  | c :: r =>
      if is_underscore c then
        if PyStr.is_digit prev then strip_underscores c r else None
      else if is_underscore prev && negb (PyStr.is_digit c) then None
      else cons c <$> strip_underscores c r
  end.

Fixpoint lstrip (l : list ascii) : list ascii :=
  match l with
  | c :: r => if is_space c then lstrip r else l
  | [] => []
  end.

Definition strip (l : list ascii) : list ascii :=
  rev (lstrip (rev (lstrip l))).

Definition parse_sign (l : list ascii) : bool * list ascii :=
  match l with
  | c :: r =>
      if Ascii.eqb c "-" then (true, r)
      else if Ascii.eqb c "+" then (false, r)
      else (false, l)
  | [] => (false, l)
  end.

Fixpoint span_digits (l : list ascii) : list ascii * list ascii :=
  match l with
  | c :: r =>
      if PyStr.is_digit c then
        let '(ds, rest) := span_digits r in (c :: ds, rest)
      else ([], l)
  | [] => ([], [])
  end.

Fixpoint skip_zeros (l : list ascii) : list ascii :=
  match l with
  | c :: r => if Ascii.eqb c "0" then skip_zeros r else l
  | [] => []
  end.

Definition MAX_DIGITS : Z := 1000000000.

(** The exponent part: consumed only when it has a digit. *)
Definition parse_exponent (l : list ascii) : Z * list ascii :=
  match l with
  | c :: r =>
      if Ascii.eqb c "e" || Ascii.eqb c "E" then
        let '(es, r1) := parse_sign r in
        let '(ed, r2) := span_digits r1 in
        match ed with
        | [] => (0, l)
        | _ => let v := PyStr.digits_val ed in
               (if es then - v else v, r2)
        end
      else (0, l)
  | [] => (0, l)
  end.

(** [_Py_dg_strtod]: the value and the unread rest; [None] when nothing
    was converted. *)
Definition dg_strtod (l : list ascii) : option (float * list ascii) :=
  let '(sgn, l1) := parse_sign l in
  let '(ip, l2) := span_digits l1 in
  let '(fp, l3) :=
    match l2 with
    | c :: r => if Ascii.eqb c "." then span_digits r else ([], l2)
    | [] => ([], l2)
    end in
  match ip ++ fp with
  | [] => None
  | ds =>
      if (MAX_DIGITS <? Z.of_nat (length (skip_zeros ds)))
         || (MAX_DIGITS <? Z.of_nat (length fp)) then None
      else
        let '(ex, l4) := parse_exponent l3 in
        Some (of_decimal sgn (PyStr.digits_val ds)
                (ex - Z.of_nat (length fp)), l4)
  end.

(** The rest of [l] after the lower-case word [w], matched without
    regard to case. *)
Fixpoint imatch (w l : list ascii) : option (list ascii) :=
  match w, l with
  | [], _ => Some l
  | a :: w', c :: l' =>
      if Ascii.eqb (PyStr.lower c) a then imatch w' l' else None
  | _ :: _, [] => None
  end.

Definition parse_inf_or_nan (l : list ascii) : option (float * list ascii) :=
  let '(neg, l1) := parse_sign l in
  match imatch (PyStr.chars "inf") l1 with
  | Some r =>
      match imatch (PyStr.chars "inity") r with
      | Some r' => Some (S754_infinity neg, r')
      | None => Some (S754_infinity neg, r)
      end
  | None =>
      match imatch (PyStr.chars "nan") l1 with
      | Some r => Some (S754_nan, r)
      | None => None
      end
  end.

Definition ascii_strtod (l : list ascii) : option (float * list ascii) :=
  match dg_strtod l with
  | Some r => Some r
  | None => parse_inf_or_nan l
  end.

Definition float_from_string_inner (l : list ascii) : outcome float :=
  match ascii_strtod (strip l) with
  | Some (x, []) => Ret x
  | _ => Raise ValueError
  end.

(** [float(s)] for a [str] argument. *)
Definition py_float (s : string) : outcome float :=
  match strip_underscores "000"
          (transform_decimal_and_space (PyStr.chars s)) with
  | Some l => float_from_string_inner l
  | None => Raise ValueError
  end.

(** *** Decimal output *)

#[global] Instance exn_eq_dec : EqDecision exn.
Proof. solve_decision. Defined.
#[global] Instance outcome_eq_dec `{EqDecision A} : EqDecision (outcome A).
Proof. solve_decision. Defined.
#[global] Instance float_eq_dec : EqDecision float.
Proof. solve_decision. Defined.

(** The exact value of a finite float as a ratio [n / d]. *)
Definition exact_ratio (m : positive) (e : Z) : Z * Z :=
  if 0 <=? e then (Zpos m * 2 ^ e, 1) else (Zpos m, 2 ^ (- e)).

Definition sign_chars (s : bool) : list ascii :=
  if s then ["-"%char] else [].

(** [format(x, '.<prec>f')]: the exact value times [10 ^ prec], rounded
    to an integer (ties to even), with the point put back. *)
Definition fixed_layout (prec : nat) (N : Z) : list ascii :=
  let ds := PyStr.to_digits N in
  let ds := PyStr.zeros (S prec - length ds) ++ ds in
  let ip := take (length ds - prec) ds in
  match prec with
  | O => ip
  | _ => ip ++ "."%char :: drop (length ds - prec) ds
  end.

Definition format_f (prec : nat) (x : float) : string :=
  PyStr.of_chars
    match x with
    | S754_nan => PyStr.chars "nan"
    | S754_infinity s => sign_chars s ++ PyStr.chars "inf"
    | S754_zero s => sign_chars s ++ fixed_layout prec 0
    | S754_finite s m e =>
        let '(n, d) := exact_ratio m e in
        sign_chars s
          ++ fixed_layout prec (round_half_even (n * 10 ^ Z.of_nat prec) d)
    end.

(** The layout of [repr]: digits [ds] with the decimal point after
    [decpt] of them; exponent notation when [decpt <= -4] or
    [16 < decpt] ([format_float_short], type ['r']). *)
Definition repr_layout (s : bool) (ds : list ascii) (decpt : Z)
  : list ascii :=
  let n := Z.of_nat (length ds) in
  sign_chars s ++
  if (decpt <=? -4) || (16 <? decpt) then
    let e := decpt - 1 in
    let ed := PyStr.to_digits (Z.abs e) in
    take 1 ds
      ++ match drop 1 ds with [] => [] | r => "."%char :: r end
      ++ "e"%char :: (if e <? 0 then "-"%char else "+"%char)
      :: PyStr.zeros (2 - length ed) ++ ed
  else if decpt <=? 0 then
    "0"%char :: "."%char :: PyStr.zeros (Z.to_nat (- decpt)) ++ ds
  else if decpt <? n then
    take (Z.to_nat decpt) ds ++ "."%char :: drop (Z.to_nat decpt) ds
  else
    ds ++ PyStr.zeros (Z.to_nat (decpt - n)) ++ [".";"0"]%char.

Fixpoint rstrip_zeros_rev (r : list ascii) (k : Z) : list ascii * Z :=
  match r with
  | c :: r' =>
      if Ascii.eqb c "0" then
        match r' with
        | [] => (r, k)
        | _ => rstrip_zeros_rev r' (k + 1)
        end
      else (r, k)
  | [] => ([], k)
  end.

(** The text of [D * 10 ^ k] in [repr]'s layout, trailing zeros of [D]
    moved into the exponent. *)
Definition repr_candidate (s : bool) (D k : Z) : string :=
  let '(r, k') := rstrip_zeros_rev (rev (PyStr.to_digits D)) k in
  PyStr.of_chars (repr_layout s (rev r) (Z.of_nat (length r) + k')).

Definition reads_back (x : float) (t : string) : bool :=
  bool_decide (py_float t = Ret x).

(** [floor (log10 (n / d))]. *)
Definition flog10 (n d : Z) : Z :=
  if d <=? n then Z.of_nat (length (PyStr.to_digits (n / d))) - 1
  else
    let L := Z.of_nat (length (PyStr.to_digits (d / n))) in
    if n * 10 ^ (L - 1) =? d then - (L - 1) else - L.

Definition scaled (n d k : Z) : Z * Z :=
  if 0 <=? k then (n, d * 10 ^ k) else (n * 10 ^ (- k), d).

(** The shortest decimal that reads back as [x] ([dtoa], mode 0): with
    one digit more at each turn, the two decimals [lo * 10 ^ k] and
    [(lo + 1) * 10 ^ k] around the exact value [n / d] are tried; of two
    that read back, the nearer wins (ties to the even one). The search
    ends at [kmin], where the decimal expansion of [x] is exact. *)
Fixpoint shortest (fuel : nat) (s : bool) (x : float) (n d k kmin : Z)
  : string :=
  let '(num, den) := scaled n d k in
  let lo := num / den in
  let c_lo := repr_candidate s lo k in
  let c_hi := repr_candidate s (lo + 1) k in
  match reads_back x c_lo, reads_back x c_hi with
  | true, true =>
      match Z.compare (2 * (num mod den)) den with
      | Lt => c_lo
      | Gt => c_hi
      | Eq => if Z.even lo then c_lo else c_hi
      end
  | true, false => c_lo
  | false, true => c_hi
  | false, false =>
      match fuel with
      | S f => shortest f s x n d (k - 1) kmin
      | O =>
          let '(num, den) := scaled n d kmin in
          repr_candidate s (num / den) kmin
      end
  end.

(** [repr(x)], which is also [str(x)]. *)
Definition repr (x : float) : string :=
  match x with
  | S754_nan => "nan"
  | S754_infinity s => if s then "-inf" else "inf"
  | S754_zero s => if s then "-0.0" else "0.0"
  | S754_finite s m e =>
      let '(n, d) := exact_ratio m e in
      let q := flog10 n d in
      let kmin := Z.min e 0 in
      shortest (Z.to_nat (q - kmin)) s x n d q kmin
  end.

End PyFloat.

(** ** The numeric parser *)

Import PyFloat.

(** [try: ... except ValueError: return None]. *)
Definition except_ValueError {A} (m : outcome A) : outcome (option A) :=
  match m with
  | Ret a => Ret (Some a)
  | Raise ValueError => Ret None
  | Raise e => Raise e
  end.

(** The body of [parse_float]'s [try] block. A field that [DictReader] left
    at [None] is not a container: the [in] test raises [TypeError]. *)
Definition parse_float_try (value : option string) : outcome float :=
  match value with
  | None => Raise TypeError
  | Some value =>
      c1 ← (if PyStr.contains "," value then
              part ← PyStr.index (PyStr.split "," value) 1;
              mret (2 <=? String.length part)%nat
            else mret false);
      if c1 : bool then py_float (PyStr.replace "," "." value)
      else if PyStr.contains "," value then
        py_float (PyStr.replace "," "." value +:+ "00")
      else py_float value
  end.

Definition parse_float (value : option string) : outcome (option float) :=
  except_ValueError (parse_float_try value).


(** ** NumPy reductions on a one-dimensional [float64] array *)

Module Np.

Definition neg_zero : float := S754_zero true.

(** The unrolled loop of [pairwise_sum]: eight accumulators [r], each
    taking one element of every further block of eight. *)
Fixpoint add_blocks (blocks : nat) (r a : list float)
  : list float * list float :=
  match blocks with
  | O => (r, a)
  | S b => add_blocks b (zip_with add r (take 8 a)) (drop 8 a)
  end.

Definition sum8 (r : list float) : float :=
  match r with
  | [r0; r1; r2; r3; r4; r5; r6; r7] =>
      add (add (add r0 r1) (add r2 r3)) (add (add r4 r5) (add r6 r7))
  | _ => fold_left add r neg_zero
  end.

(** [DOUBLE_pairwise_sum]: a plain loop below 8 elements, eight
    accumulators up to 128, two halves above (the first one a multiple
    of 8). [fuel] bounds the depth of the halving. *)
Fixpoint pairwise_sum (fuel : nat) (a : list float) : float :=
  let n := length a in
  if (n <? 8)%nat then fold_left add a neg_zero
  else if (n <=? 128)%nat then
    let '(r, rest) := add_blocks (n / 8 - 1) (take 8 a) (drop 8 a) in
    fold_left add rest (sum8 r)
  else
    match fuel with
    | O => neg_zero
    | S f =>
        let n2 := (n / 2 - (n / 2) mod 8)%nat in
        add (pairwise_sum f (take n2 a)) (pairwise_sum f (drop n2 a))
    end.

(** [np.add.reduce] as [np.mean] and [np.std] call it: the identity
    [0.0] plus the pairwise sum. *)
Definition sum (a : list float) : float :=
  add (S754_zero false) (pairwise_sum (length a) a).

Definition count (a : list float) : float := of_Z (Z.of_nat (length a)).

(** [np.mean(a)]. *)
Definition mean (a : list float) : float := div (sum a) (count a).

(** [np.std(a)], [ddof = 0]: the square root of the mean of the squared
    deviations from the mean. *)
Definition var (a : list float) : float :=
  let arrmean := div (sum a) (count a) in
  let x := (fun v => sub v arrmean) <$> a in
  let x := (fun v => mul v v) <$> x in
  div (sum x) (count a).

Definition std (a : list float) : float := sqrt (var a).

End Np.

(** ** The [csv] module, excel dialect *)

Module Csv.

Definition delimiter : ascii := ",".
Definition quotechar : ascii := "034".
Definition CR : ascii := "013".
Definition LF : ascii := "010".

Definition is_newline (c : ascii) : bool := Ascii.eqb c CR || Ascii.eqb c LF.

(** *** Writer *)

(** A character that forces quoting: delimiter, quote character, or
    one of the line terminator's. *)
Definition special (c : ascii) : bool :=
  Ascii.eqb c delimiter || Ascii.eqb c quotechar || is_newline c.

Fixpoint double_quotes (l : list ascii) : list ascii :=
  match l with
  | [] => []
  | c :: r =>
      if Ascii.eqb c quotechar then c :: c :: double_quotes r
      else c :: double_quotes r
  end.

Definition join_append (field : list ascii) : list ascii :=
  if existsb special field
  then quotechar :: double_quotes field ++ [quotechar]
  else field.

Fixpoint join_fields (fields : list (list ascii)) : list ascii :=
  match fields with
  | [] => []
  | [f] => join_append f
  | f :: fs => join_append f ++ delimiter :: join_fields fs
  end.

(** The text of one record; a lone empty field is written quoted. *)
Definition record_text (fields : list string) : list ascii :=
  let rec := join_fields (PyStr.chars <$> fields) in
  match fields, rec with
  | _ :: _, [] => [quotechar; quotechar; CR; LF]
  | _, _ => rec ++ [CR; LF]
  end.

(** *** Reader

    The reader is fed the lines of a file opened with [newline='']: a
    line ends after LF, after a CR that no LF follows, and at the end of
    the text. After the last character of each line it is fed the
    end-of-line event ([None]).

    The reader's limit on the size of a field is not part of this
    model, which reads cells of any length: the module raises its error
    at the first cell longer than [field_size_limit] characters. *)

Definition field_size_limit : Z := 131072.

Inductive parser_state :=
  | START_RECORD
  | START_FIELD
  | IN_FIELD
  | IN_QUOTED_FIELD
  | QUOTE_IN_QUOTED_FIELD
  | EAT_CRNL.

Record reader := {
  state : parser_state;
  field : list ascii;
  fields : list string;
}.

Definition parse_reset : reader :=
  {| state := START_RECORD; field := []; fields := [] |}.

Definition parse_add_char (r : reader) (c : ascii) (st : parser_state)
  : reader :=
  {| state := st; field := field r ++ [c]; fields := fields r |}.

Definition parse_save_field (r : reader) (st : parser_state) : reader :=
  {| state := st; field := [];
     fields := fields r ++ [PyStr.of_chars (field r)] |}.

Definition set_state (r : reader) (st : parser_state) : reader :=
  {| state := st; field := field r; fields := fields r |}.

Definition end_state (c : option ascii) : parser_state :=
  match c with
  | None => START_RECORD
  | Some _ => EAT_CRNL
  end.

Definition is_eol_or_newline (c : option ascii) : bool :=
  match c with
  | None => true
  | Some c => is_newline c
  end.

Definition is_char (c : option ascii) (a : ascii) : bool :=
  match c with
  | None => false
  | Some c => Ascii.eqb c a
  end.

Definition start_field (r : reader) (c : option ascii) : outcome reader :=
  if is_eol_or_newline c then Ret (parse_save_field r (end_state c))
  else if is_char c quotechar then Ret (set_state r IN_QUOTED_FIELD)
  else if is_char c delimiter then Ret (parse_save_field r START_FIELD)
  else match c with
       | Some a => Ret (parse_add_char r a IN_FIELD)
       | None => Ret r
       end.

(** [parse_process_char]; [None] is the end-of-line event. *)
Definition parse_process_char (r : reader) (c : option ascii)
  : outcome reader :=
  match state r with
  | START_RECORD =>
      match c with
      | None => Ret r
      | Some a =>
          if is_newline a then Ret (set_state r EAT_CRNL)
          else start_field r c
      end
  | START_FIELD => start_field r c
  | IN_FIELD =>
      if is_eol_or_newline c then Ret (parse_save_field r (end_state c))
      else if is_char c delimiter then Ret (parse_save_field r START_FIELD)
      else match c with
           | Some a => Ret (parse_add_char r a IN_FIELD)
           | None => Ret r
           end
  | IN_QUOTED_FIELD =>
      match c with
      | None => Ret r
      | Some a =>
          if Ascii.eqb a quotechar then Ret (set_state r QUOTE_IN_QUOTED_FIELD)
          else Ret (parse_add_char r a IN_QUOTED_FIELD)
      end
  | QUOTE_IN_QUOTED_FIELD =>
      if is_char c quotechar then
        match c with
        | Some a => Ret (parse_add_char r a IN_QUOTED_FIELD)
        | None => Ret r
        end
      else if is_char c delimiter then Ret (parse_save_field r START_FIELD)
      else if is_eol_or_newline c then
        Ret (parse_save_field r (end_state c))
      else match c with
           | Some a => Ret (parse_add_char r a IN_FIELD)
           | None => Ret r
           end
  | EAT_CRNL =>
      match c with
      | None => Ret (set_state r START_RECORD)
      | Some a => if is_newline a then Ret r else Raise CsvError
      end
  end.

(** Whether a line of the file ends after [c], [rest] being what
    follows. *)
Definition line_ends (c : ascii) (rest : list ascii) : bool :=
  match rest with
  | [] => true
  | n :: _ =>
      Ascii.eqb c LF || (Ascii.eqb c CR && negb (Ascii.eqb n LF))
  end.

(** All records of a text, in order. A record is complete when the
    parser is back at [START_RECORD] at the end of a line; at the end of
    the input a pending field or an open quote still yields one. *)
Fixpoint read_from (r : reader) (text : list ascii)
  : outcome (list (list string)) :=
  match text with
  | [] =>
      match field r, state r with
      | _ :: _, _ | _, IN_QUOTED_FIELD =>
          Ret [fields (parse_save_field r START_RECORD)]
      | _, _ => Ret []
      end
  | c :: rest =>
      r ← parse_process_char r (Some c);
      if line_ends c rest then
        r ← parse_process_char r None;
        match state r with
        | START_RECORD => cons (fields r) <$> read_from parse_reset rest
        | _ => read_from r rest
        end
      else read_from r rest
  end.

Definition read (text : string) : outcome (list (list string)) :=
  read_from parse_reset (PyStr.chars text).

(** *** DictReader

    A row is the dictionary of its cells by field name; missing cells are
    [None] ([restval]); cells beyond the field names go under the key
    [None], which no lookup by name reaches. Empty records are skipped. *)

Definition row_dict := gmap string (option string).

Definition make_dict (fieldnames row : list string) : row_dict :=
  let d := foldl (fun d kv => <[kv.1 := Some kv.2]> d) ∅
             (zip fieldnames row) in
  foldl (fun d k => <[k := None]> d) d (drop (length row) fieldnames).

Definition dict_rows (records : list (list string)) : list row_dict :=
  match records with
  | [] => []
  | fieldnames :: rest =>
      make_dict fieldnames <$> filter (fun row => row ≠ []) rest
  end.

(** [row[key]]. *)
Definition getitem (d : row_dict) (key : string) : outcome (option string) :=
  match d !! key with
  | Some v => Ret v
  | None => Raise KeyError
  end.

End Csv.

(** ** Documents, figures and the world *)

(** The calls made on an [FPDF] object, in order. *)
Inductive pdf_cmd :=
  | add_page
  | set_font (family style : string) (size : Z)
  | cell (w h : Z) (txt : option string) (border : Z) (ln : bool)
      (align : string)
  | ln (h : Z).

(** The calls made on the current matplotlib figure, in order. The curve
    of [plt.plot(x, norm.pdf(x, mu, sigma))] with [x = np.linspace(lo, hi,
    num)] is kept by its parameters. *)
Inductive plt_cmd :=
  | figure (width height : Z)
  | title (s fontweight : string)
  | xlabel (s : string)
  | ylabel (s : string)
  | plot_norm_pdf (lo hi : float) (num : nat) (mu sigma : float)
      (color label : string) (linewidth : float)
  | axvline (x : float) (color linestyle : string)
  | legend
  | text (x y : float) (s color : string) (fontsize : Z)
      (fontweight ha : string).

(** The world of a run: the working directory, the files, documents and
    images on disk, what was printed, the figure being drawn, and the
    plotting backend. Of the backend the model keeps what
    [savefig(..., bbox_inches='tight')] does with a figure that carries a
    text label: the exception it raises when the label lies too far
    outside the axes for an image to be made, [None] when it saves the
    figure. *)
Record world := {
  cwd : string;
  files : gmap string string;
  documents : gmap string (list pdf_cmd);
  images : gmap string (list plt_cmd);
  stdout : list string;
  current_figure : list plt_cmd;
  savefig_error : list plt_cmd → option exn;
}.

(** Computations on the world that may raise. *)
Definition M (A : Type) : Type := world → outcome A * world.

#[global] Instance M_ret : MRet M := fun _ a w => (Ret a, w).
#[global] Instance M_bind : MBind M := fun _ _ k m w =>
  match m w with
  | (Ret a, w') => k a w'
  | (Raise e, w') => (Raise e, w')
  end.

Definition lift {A} (o : outcome A) : M A := fun w => (o, w).

Definition getcwd : M string := fun w => (Ret (cwd w), w).

(** [open(path, newline='')] followed by reading the whole text. *)
Definition open_read (path : string) : M string := fun w =>
  match files w !! path with
  | Some t => (Ret t, w)
  | None => (Raise FileNotFoundError, w)
  end.

(** [open(path, 'w', newline='')], the writes, and the close. *)
Definition open_write (path text : string) : M unit := fun w =>
  (Ret tt, {| cwd := cwd w; files := <[path := text]> (files w);
              documents := documents w; images := images w;
              stdout := stdout w; current_figure := current_figure w;
              savefig_error := savefig_error w |}).

Definition pdf_output (path : string) (doc : list pdf_cmd) : M unit := fun w =>
  (Ret tt, {| cwd := cwd w; files := files w;
              documents := <[path := doc]> (documents w); images := images w;
              stdout := stdout w; current_figure := current_figure w;
              savefig_error := savefig_error w |}).

Definition set_figure (w : world) (fig : list plt_cmd) : world :=
  {| cwd := cwd w; files := files w; documents := documents w;
     images := images w; stdout := stdout w; current_figure := fig;
     savefig_error := savefig_error w |}.

Definition plt (c : plt_cmd) : M unit := fun w =>
  (Ret tt,
   match c with
   | figure _ _ => set_figure w [c]
   | _ => set_figure w (current_figure w ++ [c])
   end).

Definition has_text (fig : list plt_cmd) : bool :=
  existsb (fun c => match c with text _ _ _ _ _ _ _ => true | _ => false end)
    fig.

(** [plt.savefig(path, bbox_inches='tight', dpi=300)]. The curves, lines
    and legend of a figure lie within its axes; a text label lies where the
    program puts it, and the tight bounding box has to take it in, which
    the backend may refuse. *)
Definition plt_savefig (path : string) : M unit := fun w =>
  match (if has_text (current_figure w)
         then savefig_error w (current_figure w) else None) with
  | Some e => (Raise e, w)
  | None =>
      (Ret tt, {| cwd := cwd w; files := files w; documents := documents w;
                  images := <[path := current_figure w]> (images w);
                  stdout := stdout w; current_figure := current_figure w;
                  savefig_error := savefig_error w |})
  end.

Definition plt_close : M unit := fun w => (Ret tt, set_figure w []).

Definition print (line : string) : M unit := fun w =>
  (Ret tt, {| cwd := cwd w; files := files w; documents := documents w;
              images := images w; stdout := stdout w ++ [line];
              current_figure := current_figure w;
              savefig_error := savefig_error w |}).

(** [posixpath.join] of two components. *)
Definition os_path_join (a b : string) : string :=
  match b with
  | String "/" _ => b
  | _ =>
      match last (PyStr.chars a) with
      | None => b
      | Some c => if Ascii.eqb c "/" then a +:+ b else a +:+ "/" +:+ b
      end
  end.

(** [[f(x) for x in l]]: the first exception ends the comprehension. *)
Fixpoint comprehension {A B} (f : A → outcome B) (l : list A)
  : outcome (list B) :=
  match l with
  | [] => Ret []
  | x :: l' => y ← f x; ys ← comprehension f l'; mret (y :: ys)
  end.

(** [str(v)] inside an f-string, for a cell that may be [None]. *)
Definition str_of_cell (v : option string) : string :=
  match v with
  | Some s => s
  | None => "None"
  end.

(** [float(v)] for a cell that may be [None]. *)
Definition float_of_cell (v : option string) : outcome float :=
  match v with
  | Some s => py_float s
  | None => Raise TypeError
  end.

(** ** The program *)

Definition z_score (data : list float) (x : float) : float :=
  let mean := Np.mean data in
  let std_dev := Np.std data in
  div (sub x mean) std_dev.

Definition print_last_molecule_docking (csv_file_path : string) : M float :=
  csvfile ← open_read csv_file_path;
  records ← lift (Csv.read csvfile);
  data ← lift (comprehension
                 (fun row =>
                    t ← Csv.getitem row "Title";
                    d ← Csv.getitem row "docking score";
                    mret (t, d))
                 (Csv.dict_rows records));
  last_molecule ← lift (PyStr.index_last data);
  let '(molecule_name, docking_score) := last_molecule in
  print ("The docking score of the last molecule ("
           +:+ str_of_cell molecule_name +:+ ") is: "
           +:+ str_of_cell docking_score);;
  lift (float_of_cell docking_score).

Definition file_name : string := "file_name.csv".
Definition updated_file_name : string := "file_name_with_Z_Scores.csv".
Definition output_pdf_name : string := "Z-Score_Table.pdf".
Definition output_image_name : string := "Z_Score_Distribution_Curve.png".
Definition docking_output_image_name : string :=
  "Docking_Score_Distribution_Curve.png".

Definition molecule_name_column : string := "Title".
Definition docking_score_column : string := "docking score".

(** The literal [-1.960]. *)
Definition z_score_threshold_lower : float :=
  SFopp (of_decimal false 1960 (-3)).

(** Rows as read: the title cell and the parsed score. *)
Definition load_rows (rows : list Csv.row_dict)
  : outcome (list (option string * option float)) :=
  comprehension
    (fun row =>
       t ← Csv.getitem row molecule_name_column;
       d ← Csv.getitem row docking_score_column;
       v ← parse_float d;
       mret (t, v))
    rows.

(** [[(molecule, value) for molecule, value in data if value is not None]]. *)
Definition drop_none (data : list (option string * option float))
  : list (option string * float) :=
  omap (fun '(molecule, value) => pair molecule <$> value) data.

Definition z_scores (docking_scores : list float) : list float :=
  (fun x => div (sub x (Np.mean docking_scores)) (Np.std docking_scores))
    <$> docking_scores.

Definition selected_data (data : list (option string * float))
  (z_scores : list float) : list (option string * float * string) :=
  (fun '(item, z) => (item.1, item.2, format_f 6 z))
    <$> filter (fun '(_, z) => leb z z_score_threshold_lower = true)
          (zip data z_scores).

(** [[(item[0], item[1], z) for item, z in zip(data, z_scores)]]. *)
Definition attach_z_scores (data : list (option string * float))
  (z_scores : list float) : list (option string * float * float) :=
  (fun '(item, z) => (item.1, item.2, z)) <$> zip data z_scores.

Definition csv_text (selected : list (option string * float * string))
  : string :=
  let fieldnames := [molecule_name_column; docking_score_column; "Z Score"] in
  PyStr.of_chars
    (Csv.record_text fieldnames
       ++ concat ((fun '(t, x, z) =>
                     Csv.record_text [default "" t; repr x; z])
                    <$> selected)).

Definition pdf_table (selected : list (option string * float * string))
  : list pdf_cmd :=
  [ add_page;
    set_font "Arial" "B" 12;
    cell 200 10 (Some "Compounds with Z-Score <= -1.960") 0 true "C";
    ln 10;
    cell 200 10
      (Some ("Total Number of Selected Compounds: "
               +:+ PyStr.of_nat (length selected))) 0 true "C";
    ln 10;
    set_font "Arial" "B" 8;
    cell 60 10 (Some "Compound ID") 1 false "";
    cell 60 10 (Some "Docking Score (kcal/mol)") 1 false "";
    cell 60 10 (Some "Calculated Z-Score") 1 false "";
    ln 10;
    set_font "Arial" "" 10 ]
  ++ concat ((fun '(t, x, z) =>
                [ cell 60 10 t 1 false "";
                  cell 60 10 (Some (repr x)) 1 false "";
                  cell 60 10 (Some z) 1 false "";
                  ln 10 ])
               <$> selected).

(** [min] and [max] of a list: [ValueError] on the empty one. *)
Definition py_min (l : list float) : outcome float :=
  match l with
  | [] => Raise ValueError
  | x :: l' => Ret (foldl (fun m y => if ltb y m then y else m) x l')
  end.

Definition py_max (l : list float) : outcome float :=
  match l with
  | [] => Raise ValueError
  | x :: l' => Ret (foldl (fun m y => if ltb m y then y else m) x l')
  end.

(** Step 4: the filtered table. *)
Definition persist (working_directory : string)
  (selected : list (option string * float * string)) : M unit :=
  let updated_file_path := os_path_join working_directory updated_file_name in
  open_write updated_file_path (csv_text selected).

(** [pdf.cell(w, h, txt, ...)] escapes its text with [txt.replace]: a
    title that [DictReader] left at [None] has no such method, and the
    call raises [AttributeError]. *)
Definition pdf_cell_text (txt : option string) : outcome unit :=
  match txt with
  | Some _ => Ret tt
  | None => Raise AttributeError
  end.

(** Step 5: the document. The cells are laid on the [FPDF] object in
    memory, the title cell of each selected item among them; nothing is
    on disk before [pdf.output]. *)
Definition render_document (working_directory : string)
  (selected : list (option string * float * string)) : M unit :=
  let output_pdf_path := os_path_join working_directory output_pdf_name in
  lift (comprehension (fun item => pdf_cell_text item.1.1) selected);;
  pdf_output output_pdf_path (pdf_table selected).

(** Step 6: the standard normal curve with the threshold marked. *)
Definition render_z_score_plot (working_directory : string) : M unit :=
  let output_image_path :=
    os_path_join working_directory output_image_name in
  plt (figure 8 6);;
  plt (title "Z-Score Normal Distribution" "bold");;
  plt (xlabel "Z-Score");;
  plt (ylabel "Probability Density");;
  plt (plot_norm_pdf (of_Z (-5)) (of_Z 5) 100 (of_Z 0) (of_Z 1) "blue"
         "Z-Score Normal Distribution" (of_decimal false 25 (-1)));;
  plt (axvline z_score_threshold_lower "red" "--");;
  plt (axvline (of_Z 0) "red" "-");;
  plt legend;;
  plt_savefig output_image_path;;
  plt_close.

(** Step 7: the normal curve fitted to the raw scores, with the score of
    the last row of the filtered file marked. *)
Definition render_score_plot (working_directory : string)
  (data : list (option string * float * float)) : M unit :=
  let updated_file_path := os_path_join working_directory updated_file_name in
  let docking_output_image_path :=
    os_path_join working_directory docking_output_image_name in
  plt (figure 8 6);;
  let docking_values := (fun item => item.1.2) <$> data in
  plt (title "Docking Score Normal Distribution" "bold");;
  plt (xlabel "Docking Score (kcal/mol)");;
  plt (ylabel "Probability Density");;
  let docking_mean := Np.mean docking_values in
  let docking_std_dev := Np.std docking_values in
  lo ← lift (py_min docking_values);
  hi ← lift (py_max docking_values);
  plt (plot_norm_pdf lo hi 100 docking_mean docking_std_dev "green"
         "Docking Score Normal Distribution" (of_decimal false 25 (-1)));;
  plt legend;;
  last_docking_value ← print_last_molecule_docking updated_file_path;
  plt (axvline last_docking_value "red" "--");;
  plt (text (sub last_docking_value (of_Z 1)) (of_decimal false 1 (-2))
         ("Fitness= " +:+ format_f 2 last_docking_value) "red" 12 "bold"
         "right");;
  plt_savefig docking_output_image_path;;
  plt_close.

(** Everything [main] does with the parsed rows: scores, filter and the
    four artifacts. *)
Definition report (data : list (option string * float)) : M unit :=
  working_directory ← getcwd;
  let docking_scores := snd <$> data in
  let zs := z_scores docking_scores in
  let selected := selected_data data zs in
  let data := attach_z_scores data zs in
  persist working_directory selected;;
  render_document working_directory selected;;
  render_z_score_plot working_directory;;
  render_score_plot working_directory data.

(** Everything [main] does once the input table has been read. *)
Definition process (rows : list Csv.row_dict) : M unit :=
  data ← lift (load_rows rows);
  report (drop_none data).

Definition main : M unit :=
  working_directory ← getcwd;
  let file_path := os_path_join working_directory file_name in
  csvfile ← open_read file_path;
  records ← lift (Csv.read csvfile);
  process (Csv.dict_rows records).

(** ** Notions used in the proofs about floats *)

(** [2 ^ k <= n / d], for an exponent [k] of any sign. *)
Definition pow2_le (k n d : Z) : Prop :=
  d * 2 ^ Z.max k 0 ≤ n * 2 ^ Z.max (- k) 0.

(** Two ratios with the same value. *)
Definition ratio_eq (p q : Z * Z) : Prop := p.1 * q.2 = q.1 * p.2.

(** The values [M * 10 ^ E] and [m * 2 ^ e] as ratios. *)
Definition dec_ratio (M E : Z) : Z * Z :=
  (M * 10 ^ Z.max E 0, 10 ^ Z.max (- E) 0).

Definition bin_ratio (m e : Z) : Z * Z :=
  (m * 2 ^ Z.max e 0, 2 ^ Z.max (- e) 0).

(** A float as binary64 has it: a finite one has a canonical mantissa and
    an exponent in range. *)
Definition valid (x : float) : bool := valid_binary prec emax x.

(** A character that [float] neither strips nor rewrites. *)
Definition plain (c : ascii) : bool :=
  (N_of_ascii c <? 128)%N && negb (is_underscore c) && negb (is_space c).

(** ** Predicates of the specification *)

(** The texts of the pattern [-?\d+,\d{2,}]: an optional minus sign, one
    digit or more, a comma, two digits or more. *)
Definition matches_decimal_comma (s : string) : bool :=
  let l := PyStr.chars s in
  let '(_, l) := match l with
                 | c :: r => if Ascii.eqb c "-" then (true, r) else (false, l)
                 | [] => (false, l)
                 end in
  let '(ip, l) := span_digits l in
  match ip, l with
  | _ :: _, c :: r =>
      let '(fp, rest) := span_digits r in
      Ascii.eqb c "," && (2 <=? length fp)%nat && bool_decide (rest = [])
  | _, _ => false
  end.

(** A text that is a number under neither convention: [float] accepts
    neither the text nor the text with its commas turned into points. *)
Definition non_numeric (s : string) : Prop :=
  py_float s = Raise ValueError
  ∧ py_float (PyStr.replace "," "." s) = Raise ValueError.

(** The raw text between the first comma and the next one (or the end). *)
Definition after_comma (s : string) : option string :=
  PyStr.split "," s !! 1%nat.

(** The population statistics in the specification's words: the mean is
    the sum over the count [N], the standard deviation the square root of
    the sum of squared deviations over [N] (not [N - 1]). *)
Definition population_mean (xs : list float) : float :=
  div (Np.sum xs) (of_Z (Z.of_nat (length xs))).

Definition population_std (xs : list float) : float :=
  let mu := population_mean xs in
  sqrt (div (Np.sum ((fun x => mul (sub x mu) (sub x mu)) <$> xs))
          (of_Z (Z.of_nat (length xs)))).

(** The same with the denominator [N - 1]. *)
Definition sample_std (xs : list float) : float :=
  let mu := population_mean xs in
  sqrt (div (Np.sum ((fun x => mul (sub x mu) (sub x mu)) <$> xs))
          (of_Z (Z.of_nat (length xs) - 1))).

(** The data set of the specification's z-score example. *)
Definition even_scores : list float :=
  of_Z <$> [-10; -8; -6; -4; -2; 0; 2; 4; 6; 8; 10].

(** A row that stays: its score parses, or reading it raises. *)
Definition score_parses (row : Csv.row_dict) : bool :=
  match Csv.getitem row molecule_name_column,
        Csv.getitem row docking_score_column with
  | Ret _, Ret d =>
      match parse_float d with
      | Ret None => false
      | _ => true
      end
  | _, _ => true
  end.

(** The z-score figure as [main] saves it. *)
Definition z_score_figure : list plt_cmd :=
  [ figure 8 6;
    title "Z-Score Normal Distribution" "bold";
    xlabel "Z-Score";
    ylabel "Probability Density";
    plot_norm_pdf (of_Z (-5)) (of_Z 5) 100 (of_Z 0) (of_Z 1) "blue"
      "Z-Score Normal Distribution" (of_decimal false 25 (-1));
    axvline z_score_threshold_lower "red" "--";
    axvline (of_Z 0) "red" "-";
    legend ].

(** The world in which a run on [w] stops when nothing was selected: the
    filtered table (its header alone), the document and the z-score plot
    are written, the docking-score plot is not; [fig] is the figure left
    unsaved. *)
Definition stopped_before_docking_plot (w : world) (fig : list plt_cmd)
  : world :=
  {| cwd := cwd w;
     files := <[os_path_join (cwd w) updated_file_name := csv_text []]>
                (files w);
     documents := <[os_path_join (cwd w) output_pdf_name := pdf_table []]>
                    (documents w);
     images := <[os_path_join (cwd w) output_image_name := z_score_figure]>
                 (images w);
     stdout := stdout w;
     current_figure := fig;
     savefig_error := savefig_error w |}.

(** The implicit property of the empty selection as the claim words it:
    whenever nothing is selected, the run ends in an index error. *)
Definition empty_selection_raises_IndexError : Prop :=
  ∀ data w,
    selected_data data (z_scores (snd <$> data)) = [] →
    (report data w).1 = Raise IndexError.

(** [x] lies within [tol] ten-thousandths of [v] thousandths. *)
Definition approx (x : float) (v tol : Z) : bool :=
  leb (of_decimal false (10 * v - tol) (-4)) x
  && leb x (of_decimal false (10 * v + tol) (-4)).

(** The scores of the specification's end-to-end scenario. *)
Definition scenario_scores : list float :=
  [of_decimal false 10 (-1); of_decimal false 20 (-1);
   of_decimal false 30 (-1); of_decimal false 40 (-1);
   of_decimal false 1000 (-1)].

(** The rows that [DictReader] yields for the scenario, with any titles. *)
Definition scenario_rows (t1 t2 t3 t4 t5 : string) : list Csv.row_dict :=
  Csv.make_dict [molecule_name_column; docking_score_column]
    <$> [[t1; "1.0"]; [t2; "2.0"]; [t3; "3.0"]; [t4; "4.0"]; [t5; "100.0"]].

(** The standard deviation of the scenario as the specification gives it:
    38.886, here even with a tolerance of 0.1. *)
Definition scenario_stddev_as_stated : Prop :=
  approx (population_std scenario_scores) 38886 1000 = true.

(** The text of the header record. *)
Definition header_text : string :=
  "Title,docking score,Z Score" +:+ String Csv.CR (String Csv.LF "").

(** A world with nothing in it. *)
Definition empty_world : world :=
  {| cwd := "/"; files := ∅; documents := ∅; images := ∅; stdout := [];
     current_figure := [];
     savefig_error := fun _ => None |}.

(** A small table with one outlier and one score that does not parse. *)
Definition example_rows : list Csv.row_dict :=
  Csv.make_dict [molecule_name_column; docking_score_column]
    <$> [["a"; "1"]; ["b"; "2"]; ["c"; "n/a"]; ["d"; "3"]; ["e"; "4"];
         ["f"; "5"]; ["g"; "6"]; ["h"; "-200"]].

Definition example_loaded : list (option string * option float) :=
  [(Some "a", Some (of_Z 1)); (Some "b", Some (of_Z 2)); (Some "c", None);
   (Some "d", Some (of_Z 3)); (Some "e", Some (of_Z 4));
   (Some "f", Some (of_Z 5)); (Some "g", Some (of_Z 6));
   (Some "h", Some (of_Z (-200)))].

(** The third part of the parser's property as the specification words
    it: every non-numeric text is unparseable. *)
Definition garbage_is_unparseable : Prop :=
  ∀ s, non_numeric s → parse_float (Some s) = Ret None.

(** ** Notions used in the properties of whole runs *)

(** What a run started in the directory [wd] may change between two
    worlds: the filtered table among the files, the report among the
    documents, the two plots among the images. It may print lines, and the
    figure being drawn is its own. *)
Definition frame (wd : string) (w w' : world) : Prop :=
  cwd w' = cwd w
  ∧ (∀ p, p ≠ os_path_join wd updated_file_name →
          files w' !! p = files w !! p)
  ∧ (∀ p, p ≠ os_path_join wd output_pdf_name →
          documents w' !! p = documents w !! p)
  ∧ (∀ p, p ≠ os_path_join wd output_image_name →
          p ≠ os_path_join wd docking_output_image_name →
          images w' !! p = images w !! p)
  ∧ ∃ lines, stdout w' = stdout w ++ lines.

(** A computation that, run in the directory [wd], stays within the
    frame, whether it returns or raises. *)
Definition framed (wd : string) {A} (m : M A) : Prop :=
  ∀ w, cwd w = wd → frame wd w (m w).2.







(** The cells of a table are within the field limit of the csv reader. *)
Definition within_field_limit (records : list (list string)) : Prop :=
  Forall (Forall (fun cell =>
                    Z.of_nat (String.length cell) ≤ Csv.field_size_limit))
    records.

(** A world whose working directory [/] holds the input file with the
    text [text], and nothing else. *)
Definition input_world (text : string) : world :=
  {| cwd := "/"; files := {[ "/file_name.csv"%string := text ]};
     documents := ∅; images := ∅; stdout := []; current_figure := [];
     savefig_error := fun _ => None |}.

(** The line feed and carriage return that end a record. *)
Definition CRLF : string := String Csv.CR (String Csv.LF "").

(** ** Notions used in the properties of the parser *)

(** What a character costs a float literal, which has one point at most
    and no question mark (what [float] makes of a character outside
    ASCII that is not a space). *)
Definition literal_weight (c : ascii) : nat :=
  if Ascii.eqb c "." then 1 else if Ascii.eqb c "?" then 2 else 0.

Definition weight (l : list ascii) : nat := sum_list_with literal_weight l.

(** [s.count(c)]. *)
Definition str_count (c : ascii) (s : string) : nat :=
  sum_list_with (fun a => if Ascii.eqb a c then 1 else 0)%nat (PyStr.chars s).


(** * Properties *)

(** ** Strings *)

Section strings.
Implicit Types (s t : string) (c : ascii).

Lemma chars_of_chars l : PyStr.chars (PyStr.of_chars l) = l.
Proof. apply list_ascii_of_string_of_list_ascii. Qed.

Lemma of_chars_chars s : PyStr.of_chars (PyStr.chars s) = s.
Proof. apply string_of_list_ascii_of_string. Qed.

Lemma chars_app s t : PyStr.chars (s +:+ t) = PyStr.chars s ++ PyStr.chars t.
Proof. induction s as [|a s IH]; simpl; [done|by rewrite IH]. Qed.

Lemma contains_chars c s :
  PyStr.contains c s = existsb (fun a => Ascii.eqb a c) (PyStr.chars s).
Proof.
  induction s as [|a s IH]; simpl; [done|].
  rewrite IH. by destruct (Ascii.eqb a c).
Qed.

Lemma split_nonempty c s : PyStr.split c s ≠ [].
Proof.
  destruct s as [|a s]; simpl; [done|].
  destruct (Ascii.eqb a c); [done|]. by destruct (PyStr.split c s).
Qed.

(** A text with the separator splits into two parts at least. *)
Lemma split_contains c s :
  PyStr.contains c s = true → ∃ p, PyStr.split c s !! 1%nat = Some p.
Proof.
  induction s as [|a s IH]; simpl; [done|].
  destruct (Ascii.eqb a c).
  - intros _. pose proof (split_nonempty c s).
    destruct (PyStr.split c s) as [|p ps]; [done|]. by exists p.
  - intros H. destruct (IH H) as [p Hp].
    destruct (PyStr.split c s) as [|w ws]; [done|]. by exists p.
Qed.

Lemma split_no_sep c s : PyStr.contains c s = false → PyStr.split c s = [s].
Proof.
  induction s as [|a s IH]; simpl; [done|].
  destruct (Ascii.eqb a c); [done|]. intros H. by rewrite (IH H).
Qed.

(** Splitting at the first separator. *)
Lemma split_first c s t :
  PyStr.contains c s = false →
  PyStr.split c (s +:+ String c t) = s :: PyStr.split c t.
Proof.
  induction s as [|a s IH]; simpl.
  - intros _. by rewrite Ascii.eqb_refl.
  - destruct (Ascii.eqb a c); [done|]. intros H. by rewrite (IH H).
Qed.

End strings.

Section digits.

Lemma span_digits_spec l ds rest :
  span_digits l = (ds, rest) →
  l = ds ++ rest ∧ forallb PyStr.is_digit ds = true
  ∧ match rest with c :: _ => PyStr.is_digit c = false | [] => True end.
Proof.
  revert ds rest. induction l as [|c l IH]; simpl; intros ds rest H.
  - by inversion H.
  - destruct (PyStr.is_digit c) eqn:Hc.
    + destruct (span_digits l) as [ds' rest'] eqn:Hs.
      inversion H; subst. destruct (IH _ _ eq_refl) as (-> & Hd & Hr).
      simpl. by rewrite Hc, Hd.
    + inversion H; subst. simpl. by rewrite Hc.
Qed.

Lemma digit_not_comma c : PyStr.is_digit c = true → Ascii.eqb c "," = false.
Proof.
  destruct c as [[] [] [] [] [] [] [] []]; vm_compute; congruence.
Qed.

Lemma digits_no_comma ds :
  forallb PyStr.is_digit ds = true →
  existsb (fun a => Ascii.eqb a ",") ds = false.
Proof.
  induction ds as [|c ds IH]; simpl; [done|].
  intros [Hc Hd]%andb_prop. by rewrite (digit_not_comma c Hc), IH.
Qed.

End digits.

(** ** The numeric parser *)

Section parser.
Implicit Types (s p : string).

Lemma after_comma_is_Some s :
  PyStr.contains "," s = true → is_Some (after_comma s).
Proof. intros H. destruct (split_contains _ _ H) as [p Hp]. by exists p. Qed.

(** Rule 1: a comma, and two characters or more behind it. *)
Lemma parse_float_rule1 s p :
  after_comma s = Some p → (2 ≤ String.length p)%nat →
  PyStr.contains "," s = true →
  parse_float (Some s)
  = except_ValueError (py_float (PyStr.replace "," "." s)).
Proof.
  unfold parse_float, parse_float_try, after_comma, PyStr.index.
  intros -> Hlen ->. cbv [mbind outcome_bind obind mret outcome_ret].
  by rewrite (proj2 (Nat.leb_le _ _) Hlen).
Qed.

(** Rule 2: a comma, and fewer than two characters behind it. *)
Lemma parse_float_rule2 s p :
  after_comma s = Some p → (String.length p < 2)%nat →
  PyStr.contains "," s = true →
  parse_float (Some s)
  = except_ValueError (py_float (PyStr.replace "," "." s +:+ "00")).
Proof.
  unfold parse_float, parse_float_try, after_comma, PyStr.index.
  intros -> Hlen ->. cbv [mbind outcome_bind obind mret outcome_ret].
  by rewrite (proj2 (Nat.leb_gt _ _) Hlen).
Qed.

(** Rule 3: no comma. *)
Lemma parse_float_rule3 s :
  PyStr.contains "," s = false →
  parse_float (Some s) = except_ValueError (py_float s).
Proof.
  unfold parse_float, parse_float_try. by intros ->.
Qed.

Lemma split_first_chars c s pre post :
  PyStr.chars s = pre ++ c :: post →
  existsb (fun a => Ascii.eqb a c) pre = false →
  PyStr.split c s = PyStr.of_chars pre :: PyStr.split c (PyStr.of_chars post).
Proof.
  intros Hs Hpre.
  rewrite <- (of_chars_chars s), Hs.
  assert (PyStr.of_chars (pre ++ c :: post)
          = PyStr.of_chars pre +:+ String c (PyStr.of_chars post)) as ->.
  { clear. induction pre as [|a pre IH]; simpl; [done|]. by rewrite IH. }
  apply split_first. by rewrite contains_chars, chars_of_chars.
Qed.

Lemma length_of_chars l : String.length (PyStr.of_chars l) = length l.
Proof. induction l as [|a l IH]; simpl; [done|]. by rewrite IH. Qed.

(** A text of the pattern has a comma and its digits behind it. *)
Lemma matches_decimal_comma_inv s :
  matches_decimal_comma s = true →
  PyStr.contains "," s = true
  ∧ ∃ p, after_comma s = Some p ∧ (2 ≤ String.length p)%nat.
Proof.
  unfold matches_decimal_comma.
  set (l := PyStr.chars s).
  assert (∃ sg l1, l = sg ++ l1
            ∧ existsb (fun a => Ascii.eqb a ",") sg = false
            ∧ (let '(_, l) :=
                 match l with
                 | c :: r =>
                     if Ascii.eqb c "-" then (true, r) else (false, l)
                 | [] => (false, l)
                 end in l) = l1) as (sg & l1 & Hl & Hsg & Hl1).
  { destruct l as [|c r]; [by exists [], []|].
    destruct (Ascii.eqb c "-") eqn:Hc.
    - exists [c], r. split; [done|]. split; [|done].
      apply Ascii.eqb_eq in Hc as ->. done.
    - by exists [], (c :: r). }
  destruct (match l with
            | c :: r => if Ascii.eqb c "-" then (true, r) else (false, l)
            | [] => (false, l)
            end) as [b l'].
  simpl in Hl1. subst l'.
  destruct (span_digits l1) as [ip l2] eqn:Hip.
  destruct (span_digits_spec _ _ _ Hip) as (-> & Hipd & _).
  destruct ip as [|d ip]; [done|].
  destruct l2 as [|c r]; [done|].
  destruct (span_digits r) as [fp rest] eqn:Hfp.
  destruct (span_digits_spec _ _ _ Hfp) as (-> & Hfpd & _).
  intros [[Hc Hlen]%andb_prop Hrest%bool_decide_eq_true]%andb_prop.
  apply Ascii.eqb_eq in Hc as ->. subst rest. rewrite app_nil_r in *.
  apply Nat.leb_le in Hlen.
  assert (PyStr.chars s = (sg ++ d :: ip) ++ "," %char :: fp) as Hs.
  { fold l. rewrite Hl. by rewrite <- app_assoc. }
  assert (existsb (fun a => Ascii.eqb a ",") (sg ++ d :: ip) = false) as Hpre.
  { rewrite existsb_app, Hsg. by apply digits_no_comma. }
  split.
  - rewrite contains_chars, Hs, existsb_app. simpl.
    by rewrite orb_true_r.
  - exists (PyStr.of_chars fp). split; [|by rewrite length_of_chars].
    unfold after_comma. rewrite (split_first_chars _ _ _ _ Hs Hpre).
    rewrite split_no_sep; [done|].
    rewrite contains_chars, chars_of_chars. by apply digits_no_comma.
Qed.

End parser.

Section parser_claims.
Implicit Types (s p : string).

(** [float] signals a malformed text by [ValueError] and nothing else. *)
Lemma py_float_raises s e : py_float s = Raise e → e = ValueError.
Proof.
  unfold py_float, float_from_string_inner.
  destruct (strip_underscores _ _); [|congruence].
  destruct (ascii_strtod _) as [[x [|c r]]|]; congruence.
Qed.

Lemma except_ValueError_py_float s :
  ∃ r, except_ValueError (py_float s) = Ret r.
Proof.
  destruct (py_float s) as [x|e] eqn:H; [by eexists|].
  rewrite (py_float_raises _ _ H). by eexists.
Qed.

Lemma except_ValueError_None {A} (m : outcome A) :
  except_ValueError m = Ret None ↔ m = Raise ValueError.
Proof.
  destruct m as [a|[]]; simpl; split; congruence.
Qed.

Lemma after_comma_None s :
  after_comma s = None → PyStr.contains "," s = false.
Proof.
  intros H. destruct (PyStr.contains "," s) eqn:Hc; [|done].
  destruct (after_comma_is_Some _ Hc) as [p Hp]. congruence.
Qed.

Lemma after_comma_Some s p :
  after_comma s = Some p → PyStr.contains "," s = true.
Proof.
  intros H. destruct (PyStr.contains "," s) eqn:Hc; [done|].
  unfold after_comma in H. by rewrite (split_no_sep _ _ Hc) in H.
Qed.

(** C1, as the specification words it, fails: the lone comma is not
    a number under either convention, and yet [parse_float] turns it into
    [".00"] and returns zero. *)
Lemma garbage_is_unparseable_counterexample : ¬ garbage_is_unparseable.
Proof.
  intros H. specialize (H ",").
  assert (non_numeric ",") as Hn by (split; vm_compute; reflexivity).
  specialize (H Hn). vm_compute in H. discriminate.
Qed.

(** C1, amended. A text of the pattern [-?\d+,\d{2,}] is parsed as the
    text with the comma replaced by a point; a text with no comma is
    parsed directly; a non-numeric text with no comma, or with two
    characters or more between its first comma and the next, is
    unparseable, and one with fewer is unparseable exactly when the text
    with points for commas and ["00"] appended is not a float literal. *)
Theorem parse_float_rules s :
  (matches_decimal_comma s = true →
     parse_float (Some s)
     = except_ValueError (py_float (PyStr.replace "," "." s)))
  ∧ (PyStr.contains "," s = false →
     parse_float (Some s) = except_ValueError (py_float s))
  ∧ (non_numeric s →
     match after_comma s with
     | None => parse_float (Some s) = Ret None
     | Some p =>
         if (2 <=? String.length p)%nat then parse_float (Some s) = Ret None
         else parse_float (Some s) = Ret None
              ↔ py_float (PyStr.replace "," "." s +:+ "00")
                = Raise ValueError
     end).
Proof.
  split; [|split].
  - intros (Hc & p & Hp & Hlen)%matches_decimal_comma_inv.
    by apply parse_float_rule1 with p.
  - apply parse_float_rule3.
  - intros [Hraw Hrep].
    destruct (after_comma s) as [p|] eqn:Hp.
    + pose proof (after_comma_Some _ _ Hp) as Hc.
      destruct (2 <=? String.length p)%nat eqn:Hlen.
      * apply Nat.leb_le in Hlen.
        rewrite (parse_float_rule1 _ _ Hp Hlen Hc).
        by apply except_ValueError_None.
      * apply Nat.leb_gt in Hlen.
        rewrite (parse_float_rule2 _ _ Hp Hlen Hc).
        apply except_ValueError_None.
    + rewrite (parse_float_rule3 _ (after_comma_None _ Hp)).
      by apply except_ValueError_None.
Qed.

Lemma parse_float_rules_witness :
  matches_decimal_comma "-7,50" = true
  ∧ parse_float (Some "-7,50") = except_ValueError (py_float "-7.50")
  ∧ non_numeric "1,x2"
  ∧ parse_float (Some "1,x2") = Ret None.
Proof.
  split; [reflexivity|]. split.
  - apply (proj1 (parse_float_rules "-7,50")). reflexivity.
  - assert (non_numeric "1,x2") as Hn by (split; vm_compute; reflexivity).
    split; [exact Hn|].
    apply (proj2 (proj2 (parse_float_rules "1,x2")) Hn).
Defined.

(** C2. A text with a comma and fewer than two characters between that
    comma and the next one (or the end) is parsed as the text with the
    comma replaced by a point and ["00"] appended; ["-7,5"] gives -7.5,
    the value of ["-7.50"]; ["-7,"], whose fractional part is empty, is
    under this rule; the length is that of the raw text behind the comma:
    a trailing blank counts, so ["-7,5 "] is under the first rule. *)
Theorem parse_float_short_fraction :
  (∀ s p, after_comma s = Some p → (String.length p < 2)%nat →
     parse_float (Some s)
     = except_ValueError (py_float (PyStr.replace "," "." s +:+ "00")))
  ∧ (parse_float (Some "-7,5")
       = Ret (Some (S754_finite true 8444249301319680 (-50)))
     ∧ py_float "-7.50" = Ret (S754_finite true 8444249301319680 (-50))
     ∧ parse_float (Some "-7,50") = except_ValueError (py_float "-7.50"))
  ∧ (after_comma "-7," = Some ""
     ∧ parse_float (Some "-7,") = except_ValueError (py_float "-7.00"))
  ∧ (after_comma "-7,5 " = Some "5 "
     ∧ parse_float (Some "-7,5 ") = except_ValueError (py_float "-7.5 ")).
Proof.
  split.
  - intros s p Hp Hlen.
    apply parse_float_rule2 with p; [done..|]. by apply after_comma_Some with p.
  - repeat split; vm_compute; reflexivity.
Qed.

Lemma parse_float_short_fraction_witness :
  after_comma "-7,5" = Some "5"
  ∧ parse_float (Some "-7,5") = except_ValueError (py_float "-7.500").
Proof.
  split; [reflexivity|].
  apply (proj1 parse_float_short_fraction "-7,5" "5"); [reflexivity|].
  simpl. lia.
Defined.

(** C3. On every text [parse_float] returns: a number, or [None]; no
    exception leaves it. *)
Theorem parse_float_total s :
  ∃ r : option float, parse_float (Some s) = Ret r.
Proof.
  destruct (after_comma s) as [p|] eqn:Hp.
  - pose proof (after_comma_Some _ _ Hp) as Hc.
    destruct (Nat.le_gt_cases 2 (String.length p)) as [Hlen|Hlen].
    + rewrite (parse_float_rule1 _ _ Hp Hlen Hc).
      apply except_ValueError_py_float.
    + rewrite (parse_float_rule2 _ _ Hp Hlen Hc).
      apply except_ValueError_py_float.
  - rewrite (parse_float_rule3 _ (after_comma_None _ Hp)).
    apply except_ValueError_py_float.
Qed.

End parser_claims.

(** ** Z-scores *)

Section scores.
Implicit Types (data : list (option string * float)) (xs : list float).

Lemma population_mean_eq xs : Np.mean xs = population_mean xs.
Proof. reflexivity. Qed.

Lemma population_std_eq xs : Np.std xs = population_std xs.
Proof.
  unfold Np.std, Np.var, population_std, population_mean, Np.count.
  by rewrite <- list_fmap_compose.
Qed.

Lemma z_scores_z_score xs : z_scores xs = z_score xs <$> xs.
Proof. reflexivity. Qed.

Lemma length_z_scores xs : length (z_scores xs) = length xs.
Proof. apply length_fmap. Qed.

Lemma attach_z_scores_lookup data i t x z :
  attach_z_scores data (z_scores (snd <$> data)) !! i = Some (t, x, z) →
  data !! i = Some (t, x) ∧ z = z_score (snd <$> data) x.
Proof.
  unfold attach_z_scores. rewrite list_lookup_fmap.
  destruct (zip data _ !! i) as [[[t' x'] z']|] eqn:Hz; [|done].
  simpl. intros [= -> -> ->].
  apply lookup_zip_with_Some in Hz as ([t' x'] & z' & [= <- <- <-] & Hd & Hzs).
  split; [done|].
  rewrite z_scores_z_score, list_lookup_fmap, list_lookup_fmap, Hd in Hzs.
  simpl in Hzs. congruence.
Qed.

(** C4. The z-score attached to a row is [(x - mean) / stddev], with the
    population mean and the population standard deviation (denominator
    [N]) of the whole score column. On the scores -10, -8, ..., 10 the
    variance is 440 / 11 = 40 (not 440 / 10 = 44), the z-score of 0 is
    zero and the z-score of -10 is negative. *)
Theorem z_score_population data i t x z :
  data ≠ [] →
  attach_z_scores data (z_scores (snd <$> data)) !! i = Some (t, x, z) →
  let xs := snd <$> data in
  data !! i = Some (t, x)
  ∧ z = div (sub x (population_mean xs)) (population_std xs)
  ∧ population_std even_scores = sqrt (of_Z 40)
  ∧ sample_std even_scores = sqrt (of_Z 44)
  ∧ z_score even_scores (of_Z 0) = of_Z 0
  ∧ ltb (z_score even_scores (of_Z (-10))) (of_Z 0) = true.
Proof.
  intros _ H xs. destruct (attach_z_scores_lookup _ _ _ _ _ H) as [Hd ->].
  split; [done|]. split.
  - unfold z_score. by rewrite population_mean_eq, population_std_eq.
  - repeat split; vm_compute; reflexivity.
Qed.

Lemma z_score_population_witness :
  let data := [(Some "a", of_Z (-10)); (Some "b", of_Z 10)] in
  data !! 0%nat = Some (Some "a", of_Z (-10))
  ∧ of_Z (-1)
    = div (sub (of_Z (-10)) (population_mean (snd <$> data)))
        (population_std (snd <$> data)).
Proof.
  intros data.
  assert (data ≠ []) as Hne by done.
  pose proof (z_score_population data 0 (Some "a") (of_Z (-10)) (of_Z (-1))
                Hne eq_refl) as (H1 & H2 & _).
  split; [exact H1|exact H2].
Defined.

End scores.


(** ** Decimal digits *)

Section decimal_digits.
Implicit Types (n d : Z) (l ds acc : list ascii).

Lemma digit_char_spec d :
  0 ≤ d < 10 →
  PyStr.digit_val (PyStr.digit_char d) = d
  ∧ PyStr.is_digit (PyStr.digit_char d) = true.
Proof.
  intros H.
  assert (d = 0 ∨ d = 1 ∨ d = 2 ∨ d = 3 ∨ d = 4 ∨ d = 5 ∨ d = 6 ∨ d = 7
          ∨ d = 8 ∨ d = 9) as Hd by lia.
  repeat destruct Hd as [->|Hd]; try subst d; by vm_compute.
Qed.

Lemma digits_fold (a : Z) l :
  fold_left (fun v c => 10 * v + PyStr.digit_val c) l a
  = a * 10 ^ Z.of_nat (length l) + PyStr.digits_val l.
Proof.
  unfold PyStr.digits_val. revert a.
  induction l as [|c l IH]; intros a.
  - simpl. lia.
  - cbn [fold_left length]. rewrite IH, (IH (10 * 0 + _)).
    rewrite Nat2Z.inj_succ, Z.pow_succ_r by lia. ring.
Qed.

Lemma digits_val_cons c l :
  PyStr.digits_val (c :: l)
  = PyStr.digit_val c * 10 ^ Z.of_nat (length l) + PyStr.digits_val l.
Proof.
  unfold PyStr.digits_val at 1. cbn [fold_left]. rewrite digits_fold. ring.
Qed.

Lemma digits_val_app l1 l2 :
  PyStr.digits_val (l1 ++ l2)
  = PyStr.digits_val l1 * 10 ^ Z.of_nat (length l2) + PyStr.digits_val l2.
Proof.
  unfold PyStr.digits_val at 1. rewrite fold_left_app.
  fold (PyStr.digits_val l1). apply digits_fold.
Qed.

Lemma digits_val_zeros k : PyStr.digits_val (PyStr.zeros k) = 0.
Proof.
  induction k as [|k IH]; [done|].
  change (PyStr.zeros (S k)) with ("0"%char :: PyStr.zeros k).
  rewrite digits_val_cons, IH. change (PyStr.digit_val "0") with 0. lia.
Qed.

Lemma zeros_digits k : forallb PyStr.is_digit (PyStr.zeros k) = true.
Proof. induction k as [|k IH]; [done|]. simpl. exact IH. Qed.

Lemma length_zeros k : length (PyStr.zeros k) = k.
Proof. apply length_replicate. Qed.

Lemma to_digits_aux_val fuel n acc :
  0 ≤ n < 10 ^ Z.of_nat fuel →
  PyStr.digits_val (PyStr.to_digits_aux fuel n acc)
  = n * 10 ^ Z.of_nat (length acc) + PyStr.digits_val acc.
Proof.
  revert n acc. induction fuel as [|fuel IH]; intros n acc Hn.
  - simpl in *. assert (n = 0) as -> by lia. lia.
  - cbn [PyStr.to_digits_aux].
    pose proof (Z.div_mod n 10 ltac:(lia)) as Hdm.
    pose proof (Z.mod_pos_bound n 10 ltac:(lia)) as Hr.
    destruct (digit_char_spec (n mod 10) Hr) as [Hv _].
    destruct (Z.ltb_spec n 10) as [Hlt|Hge].
    + rewrite digits_val_cons, Hv, Z.mod_small by lia. done.
    + rewrite IH.
      * rewrite digits_val_cons, Hv. cbn [length].
        rewrite Nat2Z.inj_succ, Z.pow_succ_r by lia.
        set (P := 10 ^ Z.of_nat (length acc)). lia.
      * rewrite Nat2Z.inj_succ, Z.pow_succ_r in Hn by lia.
        split; [apply Z.div_pos; lia|].
        apply Z.div_lt_upper_bound; lia.
Qed.

Lemma pow2_le_pow10 k : 0 ≤ k → 2 ^ k ≤ 10 ^ k.
Proof. intros Hk. apply Z.pow_le_mono_l. lia. Qed.

Lemma to_digits_val n : 0 ≤ n → PyStr.digits_val (PyStr.to_digits n) = n.
Proof.
  intros Hn. unfold PyStr.to_digits. rewrite to_digits_aux_val.
  - simpl. change (PyStr.digits_val []) with 0. lia.
  - split; [done|].
    rewrite Nat2Z.inj_succ, Z2Nat.id by apply Z.log2_nonneg.
    destruct (Z.eq_dec n 0) as [->|Hne]; [done|].
    pose proof (Z.log2_spec n ltac:(lia)) as [_ Hlt].
    pose proof (pow2_le_pow10 (Z.succ (Z.log2 n))
                  ltac:(pose proof (Z.log2_nonneg n); lia)).
    lia.
Qed.

Lemma to_digits_aux_digits fuel n acc :
  0 ≤ n → forallb PyStr.is_digit acc = true →
  forallb PyStr.is_digit (PyStr.to_digits_aux fuel n acc) = true.
Proof.
  revert n acc. induction fuel as [|fuel IH]; intros n acc Hn Hacc; [done|].
  cbn [PyStr.to_digits_aux].
  pose proof (Z.mod_pos_bound n 10 ltac:(lia)) as Hr.
  destruct (digit_char_spec (n mod 10) Hr) as [_ Hd].
  assert (forallb PyStr.is_digit (PyStr.digit_char (n mod 10) :: acc) = true)
    as Hacc' by (cbn [forallb]; by rewrite Hd, Hacc).
  destruct (n <? 10); [done|]. apply IH; [|done].
  apply Z.div_pos; lia.
Qed.

Lemma to_digits_digits n :
  0 ≤ n → forallb PyStr.is_digit (PyStr.to_digits n) = true.
Proof. intros Hn. by apply to_digits_aux_digits. Qed.

Lemma to_digits_aux_nonempty fuel n acc :
  acc ≠ [] → PyStr.to_digits_aux fuel n acc ≠ [].
Proof.
  revert n acc. induction fuel as [|fuel IH]; intros n acc Hacc; [done|].
  cbn [PyStr.to_digits_aux]. destruct (n <? 10); [done|]. by apply IH.
Qed.

Lemma to_digits_nonempty n : PyStr.to_digits n ≠ [].
Proof.
  unfold PyStr.to_digits. cbn [PyStr.to_digits_aux].
  destruct (n <? 10); [done|]. by apply to_digits_aux_nonempty.
Qed.

Lemma length_to_digits_aux fuel n acc :
  (length (PyStr.to_digits_aux fuel n acc) ≤ fuel + length acc)%nat.
Proof.
  revert n acc. induction fuel as [|fuel IH]; intros n acc; [simpl; lia|].
  cbn [PyStr.to_digits_aux]. destruct (n <? 10).
  - simpl. lia.
  - etrans; [apply IH|]. simpl. lia.
Qed.

Lemma length_to_digits n :
  Z.of_nat (length (PyStr.to_digits n)) ≤ Z.log2 n + 1.
Proof.
  unfold PyStr.to_digits.
  pose proof (length_to_digits_aux (S (Z.to_nat (Z.log2 n))) n []) as H.
  pose proof (Z.log2_nonneg n). cbn [length] in H. lia.
Qed.

End decimal_digits.

(** ** Rounding to binary64 *)

Section rounding.
Implicit Types (n d k e m : Z).

Lemma pow2_pos k : 0 < 2 ^ k ∨ (k < 0 ∧ 2 ^ k = 0).
Proof.
  destruct (Z.le_gt_cases 0 k) as [H|H].
  - left. by apply Z.pow_pos_nonneg.
  - right. split; [done|]. by apply Z.pow_neg_r.
Qed.

Lemma pow2_max_pos k : 0 < 2 ^ Z.max k 0.
Proof. apply Z.pow_pos_nonneg; lia. Qed.

Lemma pow2_split a b : 0 ≤ a → 0 ≤ b → 2 ^ (a + b) = 2 ^ a * 2 ^ b.
Proof. intros. by apply Z.pow_add_r. Qed.

(** The test of [mag2]. *)
Lemma mag2_test k n d :
  (if 0 <=? k then d * 2 ^ k <=? n else d <=? n * 2 ^ (- k)) = true
  ↔ pow2_le k n d.
Proof.
  unfold pow2_le. destruct (Z.leb_spec 0 k).
  - rewrite Z.max_l, Z.max_r, Z.pow_0_r, Z.mul_1_r by lia. apply Z.leb_le.
  - rewrite Z.max_r, Z.max_l, Z.pow_0_r, Z.mul_1_r by lia. apply Z.leb_le.
Qed.

(** Scaling both sides of a comparison by a power of two. *)
Lemma pow2_le_exponents a b a' b' c n d :
  0 ≤ a → 0 ≤ b → 0 ≤ c → a' = a + c → b' = b + c →
  d * 2 ^ a' ≤ n * 2 ^ b' ↔ d * 2 ^ a ≤ n * 2 ^ b.
Proof.
  intros Ha Hb Hc -> ->. rewrite !pow2_split by done.
  assert (0 < 2 ^ c) by (by apply Z.pow_pos_nonneg).
  rewrite !Z.mul_assoc. split; intros H1.
  - by apply Z.mul_le_mono_pos_r in H1.
  - by apply Z.mul_le_mono_pos_r.
Qed.

Lemma pow2_le_mono k k' n d :
  0 < n → 0 < d → k' ≤ k → pow2_le k n d → pow2_le k' n d.
Proof.
  unfold pow2_le. intros Hn Hd Hk H.
  assert (2 ^ Z.max k' 0 ≤ 2 ^ Z.max k 0) by (apply Z.pow_le_mono_r; lia).
  assert (2 ^ Z.max (- k) 0 ≤ 2 ^ Z.max (- k') 0)
    by (apply Z.pow_le_mono_r; lia).
  pose proof (pow2_max_pos k'). pose proof (pow2_max_pos (- k)).
  etrans; [apply Z.mul_le_mono_nonneg_l; [lia|eassumption]|].
  etrans; [exact H|]. apply Z.mul_le_mono_nonneg_l; [lia|done].
Qed.

(** [n / d] scaled by [2 ^ - e]. *)
Lemma pow2_le_scale k e n d :
  pow2_le k n d
  ↔ pow2_le (k - e) (n * 2 ^ Z.max (- e) 0) (d * 2 ^ Z.max e 0).
Proof.
  unfold pow2_le. rewrite <- !Z.mul_assoc, <- !pow2_split by lia.
  symmetry.
  apply pow2_le_exponents
    with (c := Z.max e 0 + Z.max (k - e) 0 - Z.max k 0); lia.
Qed.

Lemma pow2_le_ratio k n d n' d' :
  0 < d → 0 < d' → ratio_eq (n, d) (n', d') →
  pow2_le k n d ↔ pow2_le k n' d'.
Proof.
  unfold pow2_le, ratio_eq. cbn [fst snd]. intros Hd Hd' Heq.
  set (A := 2 ^ Z.max k 0). set (B := 2 ^ Z.max (- k) 0).
  split; intros H.
  - apply (Z.mul_le_mono_pos_l _ _ d Hd).
    replace (d * (d' * A)) with (d' * (d * A)) by ring.
    replace (d * (n' * B)) with (d' * (n * B))
      by (transitivity (n * d' * B); [ring|rewrite Heq; ring]).
    by apply Z.mul_le_mono_nonneg_l; [lia|].
  - apply (Z.mul_le_mono_pos_l _ _ d' Hd').
    replace (d' * (d * A)) with (d * (d' * A)) by ring.
    replace (d' * (n * B)) with (d * (n' * B))
      by (transitivity (n * d' * B); [rewrite Heq; ring|ring]).
    by apply Z.mul_le_mono_nonneg_l; [lia|].
Qed.

(** [mag2 n d] is the binary magnitude of [n / d]. *)
Lemma mag2_spec n d :
  0 < n → 0 < d →
  pow2_le (mag2 n d - 1) n d ∧ ¬ pow2_le (mag2 n d) n d.
Proof.
  intros Hn Hd.
  pose proof (Z.log2_spec n Hn) as [Hn1 Hn2].
  pose proof (Z.log2_spec d Hd) as [Hd1 Hd2].
  pose proof (Z.log2_nonneg n) as Ha. pose proof (Z.log2_nonneg d) as Hb.
  set (a := Z.log2 n) in *. set (b := Z.log2 d) in *.
  assert (pow2_le (a - b - 1) n d) as Hlo.
  { unfold pow2_le. destruct (Z.le_gt_cases 0 (a - b - 1)) as [Hk|Hk].
    - rewrite Z.max_l, Z.max_r, Z.pow_0_r, Z.mul_1_r by lia.
      assert (2 ^ a = 2 ^ Z.succ b * 2 ^ (a - b - 1)) as Ha2
        by (rewrite <- pow2_split by lia; f_equal; lia).
      assert (0 < 2 ^ (a - b - 1)) by (apply Z.pow_pos_nonneg; lia).
      nia.
    - rewrite Z.max_r, Z.max_l, Z.pow_0_r, Z.mul_1_r by lia.
      assert (2 ^ Z.succ b = 2 ^ a * 2 ^ (- (a - b - 1))) as Ha2
        by (rewrite <- pow2_split by lia; f_equal; lia).
      assert (0 < 2 ^ (- (a - b - 1))) by (apply Z.pow_pos_nonneg; lia).
      nia. }
  assert (¬ pow2_le (a - b + 1) n d) as Hhi.
  { unfold pow2_le. destruct (Z.le_gt_cases 0 (a - b + 1)) as [Hk|Hk].
    - rewrite Z.max_l, Z.max_r, Z.pow_0_r, Z.mul_1_r by lia.
      assert (2 ^ Z.succ a = 2 ^ b * 2 ^ (a - b + 1)) as Ha2
        by (rewrite <- pow2_split by lia; f_equal; lia).
      assert (0 < 2 ^ (a - b + 1)) by (apply Z.pow_pos_nonneg; lia).
      nia.
    - rewrite Z.max_r, Z.max_l, Z.pow_0_r, Z.mul_1_r by lia.
      assert (2 ^ b = 2 ^ Z.succ a * 2 ^ (- (a - b + 1))) as Ha2
        by (rewrite <- pow2_split by lia; f_equal; lia).
      assert (0 < 2 ^ (- (a - b + 1))) by (apply Z.pow_pos_nonneg; lia).
      nia. }
  unfold mag2. fold a b.
  destruct (if 0 <=? a - b then _ else _) eqn:Ht.
  - apply mag2_test in Ht. split; [|done].
    by replace (a - b + 1 - 1) with (a - b) by lia.
  - split; [done|]. intros Hc%mag2_test. congruence.
Qed.

Lemma mag2_unique n d g :
  0 < n → 0 < d → pow2_le (g - 1) n d → ¬ pow2_le g n d → mag2 n d = g.
Proof.
  intros Hn Hd Hlo Hhi. destruct (mag2_spec n d Hn Hd) as [Hlo' Hhi'].
  destruct (Z.lt_trichotomy (mag2 n d) g) as [H|[H|H]]; [|done|].
  - exfalso. apply Hhi'. apply pow2_le_mono with (g - 1); [done..|lia|done].
  - exfalso. apply Hhi. apply pow2_le_mono with (mag2 n d - 1);
      [done..|lia|done].
Qed.

Lemma digits2_log2 p : Zpos (digits2_pos p) = Z.log2 (Zpos p) + 1.
Proof.
  induction p as [p IH|p IH|]; [| |done].
  - cbn [digits2_pos]. rewrite Pos2Z.inj_succ, IH.
    change (Zpos p~1) with (2 * Zpos p + 1).
    rewrite Z.log2_succ_double by lia. lia.
  - cbn [digits2_pos]. rewrite Pos2Z.inj_succ, IH.
    change (Zpos p~0) with (2 * Zpos p).
    rewrite Z.log2_double by lia. lia.
Qed.

Lemma digits2_bounds p :
  2 ^ (Zpos (digits2_pos p) - 1) ≤ Zpos p < 2 ^ Zpos (digits2_pos p).
Proof.
  rewrite digits2_log2.
  pose proof (Z.log2_spec (Zpos p) ltac:(lia)) as H.
  replace (Z.log2 (Zpos p) + 1 - 1) with (Z.log2 (Zpos p)) by lia.
  by replace (Z.log2 (Zpos p) + 1) with (Z.succ (Z.log2 (Zpos p))) by lia.
Qed.

Lemma round_half_even_exact q den :
  0 < den → round_half_even (q * den) den = q.
Proof.
  intros Hden. unfold round_half_even.
  rewrite Z.div_mul, Z.mod_mul by lia.
  by destruct (Z.compare_spec (2 * 0) den); try lia.
Qed.

Lemma round_half_even_bounds num den :
  0 < den →
  num / den ≤ round_half_even num den ≤ num / den + 1.
Proof.
  intros Hden. unfold round_half_even.
  destruct (Z.compare _ _); [destruct (Z.even _)|..]; lia.
Qed.

(** The mantissa is rounded from [n / d] scaled by [2 ^ - e]. *)
Lemma round_ratio_eq s n d :
  round_ratio s n d
  = let e := Z.max (mag2 n d - 53) (-1074) in
    let m := round_half_even (n * 2 ^ Z.max (- e) 0) (d * 2 ^ Z.max e 0) in
    let '(m, e) :=
      if m =? 9007199254740992 then (4503599627370496, e + 1) else (m, e) in
    match m with
    | Zpos p => if e <=? 971 then S754_finite s p e else S754_infinity s
    | _ => S754_zero s
    end.
Proof.
  unfold round_ratio.
  change (3 - emax - prec) with (-1074). change (emax - prec) with 971.
  change prec with 53. change (2 ^ 53) with 9007199254740992.
  change (2 ^ (53 - 1)) with 4503599627370496.
  cbv zeta. set (e := Z.max (mag2 n d - 53) (-1074)).
  destruct (Z.leb_spec 0 e).
  - by rewrite (Z.max_l e 0), (Z.max_r (- e) 0), Z.pow_0_r, Z.mul_1_r by lia.
  - by rewrite (Z.max_r e 0), (Z.max_l (- e) 0), Z.pow_0_r, Z.mul_1_r by lia.
Qed.

Lemma valid_finite s p e :
  valid (S754_finite s p e) = true
  ↔ Z.max (Zpos (digits2_pos p) + e - 53) (-1074) = e ∧ e ≤ 971.
Proof.
  unfold valid, valid_binary, bounded, canonical_mantissa, fexp, emin.
  change (3 - emax - prec) with (-1074). change (emax - prec) with 971.
  change prec with 53.
  rewrite andb_true_iff, Z.eqb_eq, Z.leb_le. done.
Qed.

(** Rounding a value that is a binary64 number gives that number. *)
Lemma round_ratio_exact s n d p e :
  0 < n → 0 < d → valid (S754_finite s p e) = true →
  ratio_eq (n, d) (bin_ratio (Zpos p) e) →
  round_ratio s n d = S754_finite s p e.
Proof.
  intros Hn Hd [Hcan Hmax]%valid_finite Heq.
  pose proof (digits2_bounds p) as [Hp1 Hp2].
  set (dd := Zpos (digits2_pos p)) in *.
  assert (1 ≤ dd) by (unfold dd; lia).
  assert (dd ≤ 53) by lia.
  pose proof (pow2_max_pos e) as He1. pose proof (pow2_max_pos (- e)) as He2.
  assert (mag2 n d = dd + e) as Hg.
  { apply mag2_unique; [done..| |].
    - apply (pow2_le_ratio _ _ _ _ _ Hd He2 Heq).
      pose proof (pow2_le_scale (dd - 1) (- e) (Zpos p) 1) as Hs.
      rewrite Z.opp_involutive, Z.mul_1_l in Hs.
      replace (dd - 1 - - e) with (dd + e - 1) in Hs by lia.
      apply Hs. unfold pow2_le.
      rewrite Z.max_l, Z.max_r, Z.pow_0_r by lia. lia.
    - intros Hc. apply (pow2_le_ratio _ _ _ _ _ Hd He2 Heq) in Hc.
      pose proof (pow2_le_scale dd (- e) (Zpos p) 1) as Hs.
      rewrite Z.opp_involutive, Z.mul_1_l in Hs.
      replace (dd - - e) with (dd + e) in Hs by lia.
      apply Hs in Hc. unfold pow2_le in Hc.
      rewrite Z.max_l, Z.max_r, Z.pow_0_r in Hc by lia. lia. }
  rewrite round_ratio_eq, Hg. cbv zeta. rewrite Hcan.
  unfold ratio_eq, bin_ratio in Heq. cbn [fst snd] in Heq.
  assert (n * 2 ^ Z.max (- e) 0 = Zpos p * (d * 2 ^ Z.max e 0)) as ->
    by (rewrite Heq; ring).
  rewrite round_half_even_exact by lia.
  assert (2 ^ dd ≤ 2 ^ 53) as Hle by (apply Z.pow_le_mono_r; lia).
  change (2 ^ 53) with 9007199254740992 in Hle.
  destruct (Z.eqb_spec (Zpos p) 9007199254740992) as [Heq'|_]; [lia|].
  by rewrite (proj2 (Z.leb_le e 971) Hmax).
Qed.

(** What rounding returns is a binary64 number. *)
Lemma round_ratio_valid s n d :
  0 < n → 0 < d → valid (round_ratio s n d) = true.
Proof.
  intros Hn Hd. rewrite round_ratio_eq. cbv zeta.
  destruct (mag2_spec n d Hn Hd) as [Hlo Hhi].
  set (g := mag2 n d) in *. set (e := Z.max (g - 53) (-1074)).
  pose proof (pow2_max_pos e) as He1. pose proof (pow2_max_pos (- e)) as He2.
  set (num := n * 2 ^ Z.max (- e) 0). set (den := d * 2 ^ Z.max e 0).
  assert (0 < den) as Hden by (unfold den; lia).
  assert (0 < num) as Hnum by (unfold num; lia).
  apply (pow2_le_scale _ e) in Hlo. rewrite (pow2_le_scale _ e) in Hhi.
  fold num den in Hlo, Hhi.
  pose proof (round_half_even_bounds num den Hden) as [Hm1 Hm2].
  set (m := round_half_even num den) in *.
  assert (0 ≤ num / den) as Hq0 by (apply Z.div_pos; lia).
  (* the quotient is below 2 ^ (g - e), at most 2 ^ 53 *)
  assert (num / den < 2 ^ Z.max (g - e) 0) as Hq.
  { apply Z.div_lt_upper_bound; [done|].
    unfold pow2_le in Hhi. destruct (Z.le_gt_cases 0 (g - e)) as [Ht|Ht].
    - rewrite Z.max_l, Z.max_r, Z.pow_0_r in Hhi by lia.
      rewrite Z.max_l by lia. lia.
    - rewrite Z.max_r, Z.max_l, Z.pow_0_r in Hhi by lia.
      rewrite Z.max_r, Z.pow_0_r by lia.
      assert (0 < 2 ^ (- (g - e))) by (apply Z.pow_pos_nonneg; lia).
      nia. }
  destruct (Z.le_gt_cases (-1074) (g - 53)) as [Hnorm|Hsub].
  - (* normal range *)
    assert (e = g - 53) as He by (unfold e; lia).
    replace (Z.max (g - e) 0) with 53 in Hq by lia.
    change (2 ^ 53) with 9007199254740992 in Hq.
    assert (4503599627370496 ≤ num / den) as Hq52.
    { apply Z.div_le_lower_bound; [done|].
      unfold pow2_le in Hlo.
      replace (g - 1 - e) with 52 in Hlo by lia.
      rewrite (Z.max_l 52 0), (Z.max_r (- (52)) 0), Z.pow_0_r in Hlo by lia.
      change (2 ^ 52) with 4503599627370496 in Hlo. lia. }
    destruct (Z.eqb_spec m 9007199254740992) as [Hm|Hm].
    + destruct (Z.leb_spec (e + 1) 971); [|done].
      apply valid_finite. split; [|done]. vm_compute digits2_pos. lia.
    + destruct m as [|p|p] eqn:Hmp; [lia| |lia].
      destruct (Z.leb_spec e 971); [|done].
      apply valid_finite. split; [|done].
      assert (Zpos (digits2_pos p) = 53) as ->; [|lia].
      rewrite digits2_log2.
      assert (Z.log2 (Zpos p) = 52); [|lia].
      apply Z.log2_unique; [lia|].
      change (2 ^ 52) with 4503599627370496.
      change (2 ^ Z.succ 52) with 9007199254740992. lia.
  - (* subnormal range *)
    assert (e = -1074) as He by (unfold e; lia).
    assert (2 ^ Z.max (g - e) 0 ≤ 2 ^ 52) as Hle
      by (apply Z.pow_le_mono_r; lia).
    change (2 ^ 52) with 4503599627370496 in Hle.
    destruct (Z.eqb_spec m 9007199254740992) as [Hm|Hm]; [lia|].
    destruct m as [|p|p] eqn:Hmp; [done| |done].
    rewrite He. change (-1074 <=? 971) with true. cbv iota.
    apply valid_finite. split; [|lia].
    assert (Zpos (digits2_pos p) ≤ 53); [|lia].
    rewrite digits2_log2.
    assert (Z.log2 (Zpos p) < 53); [|lia].
    apply Z.log2_lt_pow2; [lia|].
    change (2 ^ 53) with 9007199254740992. lia.
Qed.

End rounding.

(** ** [float] on plain decimal literals *)

Section literals.
Implicit Types (l ds ip fp rest expo : list ascii) (c : ascii) (s : bool).

Lemma of_decimal_valid s M E : 0 ≤ M → valid (of_decimal s M E) = true.
Proof.
  intros HM. unfold of_decimal.
  destruct (Z.eqb_spec M 0); [done|].
  destruct (Z.leb_spec 0 E).
  - apply round_ratio_valid; [|lia].
    apply Z.mul_pos_pos; [lia|]. by apply Z.pow_pos_nonneg.
  - apply round_ratio_valid; [lia|]. apply Z.pow_pos_nonneg; lia.
Qed.

(** A decimal whose value is a binary64 number reads as that number. *)
Lemma of_decimal_exact s M E p e :
  0 < M → valid (S754_finite s p e) = true →
  ratio_eq (dec_ratio M E) (bin_ratio (Zpos p) e) →
  of_decimal s M E = S754_finite s p e.
Proof.
  intros HM Hv Heq. unfold of_decimal.
  destruct (Z.eqb_spec M 0); [lia|].
  unfold dec_ratio in Heq.
  destruct (Z.leb_spec 0 E).
  - rewrite (Z.max_l E 0), (Z.max_r (- E) 0), Z.pow_0_r in Heq by lia.
    apply round_ratio_exact; [|lia|done..].
    apply Z.mul_pos_pos; [lia|]. by apply Z.pow_pos_nonneg.
  - rewrite (Z.max_r E 0), (Z.max_l (- E) 0), Z.pow_0_r, Z.mul_1_r in Heq
      by lia.
    apply round_ratio_exact; [lia| |done..]. apply Z.pow_pos_nonneg; lia.
Qed.

Lemma digit_plain c : PyStr.is_digit c = true → plain c = true.
Proof. destruct c as [[] [] [] [] [] [] [] []]; vm_compute; congruence. Qed.

Lemma digit_not_sign c :
  PyStr.is_digit c = true →
  Ascii.eqb c "-" = false ∧ Ascii.eqb c "+" = false
  ∧ Ascii.eqb c "." = false.
Proof. destruct c as [[] [] [] [] [] [] [] []]; vm_compute; auto. Qed.

Lemma digit_val_range c :
  PyStr.is_digit c = true → 0 ≤ PyStr.digit_val c < 10.
Proof.
  destruct c as [[] [] [] [] [] [] [] []]; vm_compute; intros; try done;
    split; congruence.
Qed.

Lemma digits_val_nonneg ds :
  forallb PyStr.is_digit ds = true → 0 ≤ PyStr.digits_val ds.
Proof.
  induction ds as [|c ds IH]; [done|]. cbn [forallb].
  intros [Hc Hds]%andb_prop. rewrite digits_val_cons.
  pose proof (digit_val_range c Hc). specialize (IH Hds).
  assert (0 < 10 ^ Z.of_nat (length ds)) by (apply Z.pow_pos_nonneg; lia).
  nia.
Qed.

Lemma forallb_plain_digits ds :
  forallb PyStr.is_digit ds = true → forallb plain ds = true.
Proof.
  induction ds as [|c ds IH]; [done|]. cbn [forallb].
  intros [Hc Hds]%andb_prop. by rewrite (digit_plain c Hc), IH.
Qed.

Lemma forallb_take {A} (f : A → bool) n (l : list A) :
  forallb f l = true → forallb f (take n l) = true.
Proof.
  revert n. induction l as [|x l IH]; intros [|n]; try done.
  cbn [forallb take]. intros [Hx Hl]%andb_prop. by rewrite Hx, IH.
Qed.

Lemma forallb_drop {A} (f : A → bool) n (l : list A) :
  forallb f l = true → forallb f (drop n l) = true.
Proof.
  revert n. induction l as [|x l IH]; intros [|n]; try done.
  cbn [forallb drop]. intros [Hx Hl]%andb_prop. by apply IH.
Qed.

Lemma forallb_rev' {A} (f : A → bool) (l : list A) :
  forallb f l = true → forallb f (rev l) = true.
Proof.
  rewrite !forallb_forall. intros H x Hx. apply H. by apply in_rev.
Qed.

Lemma plain_spec c :
  plain c = true →
  (N_of_ascii c <? 128)%N = true ∧ is_underscore c = false
  ∧ is_space c = false.
Proof.
  unfold plain. intros [[H1 H2]%andb_prop H3]%andb_prop.
  by destruct (is_underscore c), (is_space c).
Qed.

Lemma transform_plain l :
  forallb plain l = true → transform_decimal_and_space l = l.
Proof.
  intros H. unfold transform_decimal_and_space.
  assert (forallb (fun c => (N_of_ascii c <? 128)%N) l = true) as ->; [|done].
  apply forallb_forall. intros c Hc.
  rewrite forallb_forall in H. by destruct (plain_spec c (H c Hc)).
Qed.

Lemma strip_underscores_plain prev l :
  is_underscore prev = false → forallb plain l = true →
  strip_underscores prev l = Some l.
Proof.
  revert prev. induction l as [|c l IH]; intros prev Hp; cbn [forallb].
  - intros _. simpl. by rewrite Hp.
  - intros [Hc Hl]%andb_prop. destruct (plain_spec c Hc) as (_ & Hu & _).
    cbn [strip_underscores]. rewrite Hu, Hp. simpl.
    by rewrite (IH c Hu Hl).
Qed.

Lemma lstrip_plain l : forallb plain l = true → lstrip l = l.
Proof.
  destruct l as [|c l]; [done|]. cbn [forallb].
  intros [Hc _]%andb_prop. destruct (plain_spec c Hc) as (_ & _ & Hs).
  simpl. by rewrite Hs.
Qed.

Lemma strip_plain l : forallb plain l = true → strip l = l.
Proof.
  intros H. unfold strip. rewrite (lstrip_plain l H).
  rewrite lstrip_plain by (by apply forallb_rev').
  apply rev_involutive.
Qed.

(** On plain characters [float] is [strtod], which must read them all. *)
Lemma py_float_plain l :
  forallb plain l = true →
  py_float (PyStr.of_chars l)
  = match ascii_strtod l with
    | Some (x, []) => Ret x
    | _ => Raise ValueError
    end.
Proof.
  intros H. unfold py_float. rewrite chars_of_chars, transform_plain by done.
  rewrite strip_underscores_plain by done.
  unfold float_from_string_inner. by rewrite strip_plain.
Qed.

Lemma span_digits_app ds rest :
  forallb PyStr.is_digit ds = true →
  match rest with c :: _ => PyStr.is_digit c = false | [] => True end →
  span_digits (ds ++ rest) = (ds, rest).
Proof.
  intros Hds Hrest. induction ds as [|c ds IH].
  - destruct rest as [|c rest]; [done|]. simpl. by rewrite Hrest.
  - cbn [forallb] in Hds. apply andb_prop in Hds as [Hc Hds].
    simpl. by rewrite Hc, (IH Hds).
Qed.

Lemma parse_sign_digits s c l :
  PyStr.is_digit c = true →
  parse_sign (sign_chars s ++ c :: l) = (s, c :: l).
Proof.
  intros Hc. destruct (digit_not_sign c Hc) as (H1 & H2 & _).
  destruct s; simpl; [done|]. by rewrite H1, H2.
Qed.

Lemma length_skip_zeros l : (length (skip_zeros l) ≤ length l)%nat.
Proof.
  induction l as [|c l IH]; [done|]. simpl.
  destruct (Ascii.eqb c "0"); simpl; lia.
Qed.

(** The exponent as [repr] writes it. *)
Lemma parse_exponent_repr e :
  let ed := PyStr.to_digits (Z.abs e) in
  parse_exponent
    ("e"%char :: (if e <? 0 then "-"%char else "+"%char)
       :: PyStr.zeros (2 - length ed) ++ ed)
  = (e, []).
Proof.
  intros ed.
  assert (forallb PyStr.is_digit (PyStr.zeros (2 - length ed) ++ ed) = true)
    as Hd.
  { rewrite forallb_app, zeros_digits. apply to_digits_digits. lia. }
  assert (PyStr.digits_val (PyStr.zeros (2 - length ed) ++ ed) = Z.abs e)
    as Hv.
  { rewrite digits_val_app, digits_val_zeros. unfold ed.
    rewrite to_digits_val by lia. lia. }
  assert (PyStr.zeros (2 - length ed) ++ ed ≠ []) as Hne.
  { intros [_ Hc]%app_eq_nil. by apply (to_digits_nonempty (Z.abs e)). }
  cbn [parse_exponent]. change (Ascii.eqb "e" "e") with true. cbn [orb].
  assert (parse_sign ((if e <? 0 then "-"%char else "+"%char)
                        :: PyStr.zeros (2 - length ed) ++ ed)
          = (e <? 0, PyStr.zeros (2 - length ed) ++ ed)) as ->
    by (by destruct (e <? 0)).
  rewrite <- (app_nil_r (_ ++ ed)) at 1.
  rewrite span_digits_app by done.
  destruct (PyStr.zeros (2 - length ed) ++ ed) as [|c l] eqn:Hl; [done|].
  rewrite Hv. f_equal. destruct (Z.ltb_spec e 0); lia.
Qed.

Lemma max_digits_ok ds fp :
  Z.of_nat (length ds) ≤ MAX_DIGITS → (length fp ≤ length ds)%nat →
  (MAX_DIGITS <? Z.of_nat (length (skip_zeros ds)))
  || (MAX_DIGITS <? Z.of_nat (length fp)) = false.
Proof.
  intros H1 H2. pose proof (length_skip_zeros ds).
  apply orb_false_intro; apply Z.ltb_ge; lia.
Qed.

(** A literal with a point. *)
Lemma dg_strtod_dot s ip fp expo ex :
  ip ≠ [] → forallb PyStr.is_digit ip = true →
  forallb PyStr.is_digit fp = true →
  parse_exponent expo = (ex, []) →
  match expo with c :: _ => PyStr.is_digit c = false | [] => True end →
  Z.of_nat (length (ip ++ fp)) ≤ MAX_DIGITS →
  dg_strtod (sign_chars s ++ ip ++ "."%char :: fp ++ expo)
  = Some (of_decimal s (PyStr.digits_val (ip ++ fp))
            (ex - Z.of_nat (length fp)), []).
Proof.
  intros Hne Hip Hfp Hex Hexpo Hmax.
  destruct ip as [|c ip]; [done|].
  pose proof Hip as Hip'. cbn [forallb] in Hip'.
  apply andb_prop in Hip' as [Hc _].
  unfold dg_strtod.
  rewrite <- app_comm_cons, (parse_sign_digits s c _ Hc).
  rewrite app_comm_cons, (span_digits_app (c :: ip)) by done.
  change (Ascii.eqb "." ".") with true. cbv iota.
  rewrite (span_digits_app fp expo) by done.
  destruct ((c :: ip) ++ fp) as [|a ds] eqn:Hds; [done|].
  rewrite max_digits_ok, Hex; [done|done|].
  rewrite <- Hds, length_app. lia.
Qed.

(** A literal without a point. *)
Lemma dg_strtod_nodot s ip expo ex :
  ip ≠ [] → forallb PyStr.is_digit ip = true →
  parse_exponent expo = (ex, []) →
  match expo with
  | c :: _ => PyStr.is_digit c = false ∧ Ascii.eqb c "." = false
  | [] => True
  end →
  Z.of_nat (length ip) ≤ MAX_DIGITS →
  dg_strtod (sign_chars s ++ ip ++ expo)
  = Some (of_decimal s (PyStr.digits_val ip) ex, []).
Proof.
  intros Hne Hip Hex Hexpo Hmax.
  destruct ip as [|c ip]; [done|].
  pose proof Hip as Hip'. cbn [forallb] in Hip'.
  apply andb_prop in Hip' as [Hc _].
  unfold dg_strtod.
  rewrite <- app_comm_cons, (parse_sign_digits s c _ Hc).
  rewrite app_comm_cons, (span_digits_app (c :: ip)).
  2: done. 2: by destruct expo as [|? ?]; [|destruct Hexpo].
  assert (match expo with
          | c0 :: r => if Ascii.eqb c0 "." then span_digits r else ([], expo)
          | [] => ([], expo)
          end = ([], expo)) as ->.
  { destruct expo as [|c0 r]; [done|]. destruct Hexpo as [_ ->]. done. }
  rewrite app_nil_r.
  rewrite max_digits_ok, Hex; [|done|simpl; lia].
  by rewrite Z.sub_0_r.
Qed.

Lemma ascii_strtod_Some l x rest :
  dg_strtod l = Some (x, rest) → ascii_strtod l = Some (x, rest).
Proof. unfold ascii_strtod. by intros ->. Qed.

Lemma py_float_literal l x :
  forallb plain l = true → dg_strtod l = Some (x, []) →
  py_float (PyStr.of_chars l) = Ret x.
Proof.
  intros Hp Hd. rewrite py_float_plain by done.
  by rewrite (ascii_strtod_Some _ _ _ Hd).
Qed.

Lemma sign_chars_plain s : forallb plain (sign_chars s) = true.
Proof. by destruct s. Qed.

Lemma exponent_plain e :
  let ed := PyStr.to_digits (Z.abs e) in
  forallb plain
    ("e"%char :: (if e <? 0 then "-"%char else "+"%char)
       :: PyStr.zeros (2 - length ed) ++ ed) = true.
Proof.
  intros ed. cbn [forallb]. change (plain "e") with true.
  assert (plain (if e <? 0 then "-"%char else "+"%char) = true) as ->
    by (by destruct (e <? 0)).
  cbn [andb]. apply forallb_plain_digits.
  rewrite forallb_app, zeros_digits. apply to_digits_digits. lia.
Qed.

Lemma ratio_eq_refl p : ratio_eq p p.
Proof. reflexivity. Qed.

(** [float] reads a text in [repr]'s layout as the decimal it spells. *)
Lemma py_float_repr_layout s ds decpt :
  ds ≠ [] → forallb PyStr.is_digit ds = true →
  Z.of_nat (length ds) + 40 ≤ MAX_DIGITS →
  ∃ M E,
    py_float (PyStr.of_chars (repr_layout s ds decpt))
    = Ret (of_decimal s M E)
    ∧ ratio_eq (dec_ratio M E)
        (dec_ratio (PyStr.digits_val ds) (decpt - Z.of_nat (length ds)))
    ∧ (0 < PyStr.digits_val ds → 0 < M).
Proof.
  intros Hne Hds Hlen. unfold repr_layout.
  pose proof (forallb_plain_digits ds Hds) as Hpl.
  destruct ((decpt <=? -4) || (16 <? decpt)) eqn:Hexp.
  - (* exponent notation *)
    destruct ds as [|d1 r]; [done|]. cbn [take drop].
    pose proof Hds as Hds'. cbn [forallb] in Hds'.
    apply andb_prop in Hds' as [Hd1 Hr].
    pose proof (parse_exponent_repr (decpt - 1)) as Hex.
    pose proof (exponent_plain (decpt - 1)) as Hep.
    cbv zeta in Hex, Hep.
    set (expo := "e"%char :: _) in *.
    destruct r as [|d2 r]; cbn [take drop].
    + exists (PyStr.digits_val [d1]), (decpt - 1). split; [|split].
      * apply py_float_literal.
        -- rewrite !forallb_app, sign_chars_plain, Hep. cbn [forallb].
           by rewrite (digit_plain d1 Hd1).
        -- change (sign_chars s ++ [d1] ++ [] ++ expo)
             with (sign_chars s ++ [d1] ++ expo).
           apply dg_strtod_nodot; [done|done|done|done|]. simpl. unfold MAX_DIGITS. lia.
      * cbn [length]. replace (decpt - Z.of_nat 1) with (decpt - 1) by lia.
        apply ratio_eq_refl.
      * done.
    + exists (PyStr.digits_val (d1 :: d2 :: r)),
        (decpt - 1 - Z.of_nat (length (d2 :: r))).
      split; [|split].
      * apply py_float_literal.
        -- rewrite !forallb_app, sign_chars_plain, Hep.
           cbn [forallb] in Hpl |- *. change (plain ".") with true.
           apply andb_prop in Hpl as [-> Hpl].
           apply andb_prop in Hpl as [-> ->]. done.
        -- change (sign_chars s ++ [d1] ++ ("."%char :: d2 :: r) ++ expo)
             with (sign_chars s ++ [d1] ++ "."%char :: (d2 :: r) ++ expo).
           apply dg_strtod_dot; [done|by cbn [forallb]; rewrite Hd1|done|done|done|].
           cbn [app]. lia.
      * replace (decpt - 1 - Z.of_nat (length (d2 :: r)))
          with (decpt - Z.of_nat (length (d1 :: d2 :: r)))
          by (cbn [length]; lia).
        apply ratio_eq_refl.
      * done.
  - apply orb_false_elim in Hexp as [H4 H16].
    apply Z.leb_gt in H4. apply Z.ltb_ge in H16.
    assert (Hnil : parse_exponent [] = (0, [])) by reflexivity.
    set (n := Z.of_nat (length ds)) in *.
    destruct (decpt <=? 0) eqn:H0.
    + (* 0.000ddd *)
      apply Z.leb_le in H0.
      set (z := Z.to_nat (- decpt)).
      exists (PyStr.digits_val (["0"%char] ++ PyStr.zeros z ++ ds)),
        (0 - Z.of_nat (length (PyStr.zeros z ++ ds))).
      assert (HM : PyStr.digits_val (["0"%char] ++ PyStr.zeros z ++ ds)
                   = PyStr.digits_val ds).
      { rewrite !digits_val_app, digits_val_zeros.
        change (PyStr.digits_val ["0"%char]) with 0. lia. }
      split; [|split].
      * apply py_float_literal.
        -- rewrite forallb_app, sign_chars_plain. cbn [forallb andb].
           change (plain "0") with true. change (plain ".") with true.
           cbn [andb]. rewrite forallb_app, Hpl.
           by rewrite (forallb_plain_digits _ (zeros_digits z)).
        -- replace ("0"%char :: "."%char :: PyStr.zeros z ++ ds)
             with (["0"%char] ++ "."%char :: (PyStr.zeros z ++ ds) ++ [])
             by (by rewrite app_nil_r).
           apply dg_strtod_dot; [done|done| |done|done|].
           ++ by rewrite forallb_app, zeros_digits.
           ++ rewrite !length_app, length_zeros. cbn [length].
              unfold MAX_DIGITS in *. lia.
      * rewrite HM, length_app, length_zeros.
        replace (0 - Z.of_nat (z + length ds)) with (decpt - n) by lia.
        apply ratio_eq_refl.
      * by rewrite HM.
    + apply Z.leb_gt in H0. destruct (decpt <? n) eqn:Hn.
      * (* ddd.ddd *)
        apply Z.ltb_lt in Hn.
        set (i := Z.to_nat decpt).
        exists (PyStr.digits_val (take i ds ++ drop i ds)),
          (0 - Z.of_nat (length (drop i ds))).
        split; [|split].
        -- apply py_float_literal.
           ++ rewrite !forallb_app, sign_chars_plain. cbn [forallb].
              change (plain ".") with true.
              by rewrite (forallb_take _ _ _ Hpl), (forallb_drop _ _ _ Hpl).
           ++ replace (take i ds ++ "."%char :: drop i ds)
                with (take i ds ++ "."%char :: drop i ds ++ [])
                by (by rewrite app_nil_r).
              apply dg_strtod_dot; [| | |done|done|].
              ** intros Ht. apply (f_equal length) in Ht.
                 rewrite length_take in Ht. cbn [length] in Ht. lia.
              ** by apply forallb_take.
              ** by apply forallb_drop.
              ** rewrite take_drop. lia.
        -- rewrite take_drop, length_drop.
           replace (0 - Z.of_nat (length ds - i)) with (decpt - n) by lia.
           apply ratio_eq_refl.
        -- by rewrite take_drop.
      * (* ddd000.0 *)
        apply Z.ltb_ge in Hn.
        set (j := Z.to_nat (decpt - n)).
        exists (PyStr.digits_val ((ds ++ PyStr.zeros j) ++ ["0"%char])), (0 - 1).
        assert (HM : PyStr.digits_val ((ds ++ PyStr.zeros j) ++ ["0"%char])
                     = PyStr.digits_val ds * 10 ^ (Z.of_nat j + 1)).
        { rewrite !digits_val_app, digits_val_zeros, length_zeros.
          change (PyStr.digits_val ["0"%char]) with 0. cbn [length].
          rewrite Z.pow_add_r by lia. lia. }
        split; [|split].
        -- apply py_float_literal.
           ++ rewrite !forallb_app, sign_chars_plain, Hpl.
              by rewrite (forallb_plain_digits _ (zeros_digits j)).
           ++ replace (ds ++ PyStr.zeros j ++ ["."%char; "0"%char])
                with ((ds ++ PyStr.zeros j) ++ "."%char :: ["0"%char] ++ [])
                by (by rewrite <- app_assoc).
              apply (dg_strtod_dot s (ds ++ PyStr.zeros j) ["0"%char] [] 0);
                [|  |done|done|done|].
              ** by destruct ds.
              ** by rewrite forallb_app, Hds, zeros_digits.
              ** rewrite !length_app, length_zeros. cbn [length].
                 unfold MAX_DIGITS in *. lia.
        -- rewrite HM. unfold ratio_eq, dec_ratio. cbn [fst snd].
           rewrite (Z.max_l (decpt - n) 0), (Z.max_r (- (decpt - n)) 0) by lia.
           change (Z.max (0 - 1) 0) with 0. change (Z.max (- (0 - 1)) 0) with 1.
           replace (Z.of_nat j) with (decpt - n) by lia.
           rewrite Z.pow_add_r by lia. lia.
        -- rewrite HM. intros HV. apply Z.mul_pos_pos; [done|].
           apply Z.pow_pos_nonneg; lia.
Qed.

End literals.

(** ** [repr] and [float] are inverse on binary64 numbers *)

Section shortest_repr.

Implicit Types (s : bool) (m : positive) (e k D : Z) (r ds : list ascii).

Lemma ratio_eq_trans p q t :
  0 < q.2 → ratio_eq p q → ratio_eq q t → ratio_eq p t.
Proof.
  destruct p as [p1 p2], q as [q1 q2], t as [t1 t2]. unfold ratio_eq.
  cbn [fst snd]. intros Hq H1 H2.
  apply (Z.mul_cancel_r _ _ q2); [lia|].
  transitivity (p1 * q2 * t2); [ring|]. rewrite H1.
  transitivity (q1 * t2 * p2); [ring|]. rewrite H2. ring.
Qed.

Lemma dec_ratio_pos M E : 0 < (dec_ratio M E).2.
Proof. cbn. apply Z.pow_pos_nonneg; lia. Qed.

Lemma dec_ratio_shift V k j :
  0 ≤ j → ratio_eq (dec_ratio V (k + j)) (dec_ratio (V * 10 ^ j) k).
Proof.
  intros Hj. unfold ratio_eq, dec_ratio. cbn [fst snd].
  rewrite <- !Z.mul_assoc, <- !Z.pow_add_r by lia.
  do 2 f_equal. lia.
Qed.

Lemma zeros_snoc j : PyStr.zeros j ++ ["0"%char] = PyStr.zeros (S j).
Proof.
  induction j as [|j IH]; [done|].
  change (PyStr.zeros (S j)) with ("0"%char :: PyStr.zeros j) at 1.
  rewrite <- app_comm_cons, IH. done.
Qed.

Lemma rev_zeros j : rev (PyStr.zeros j) = PyStr.zeros j.
Proof.
  induction j as [|j IH]; [done|].
  change (PyStr.zeros (S j)) with ("0"%char :: PyStr.zeros j) at 1.
  cbn [rev]. by rewrite IH, zeros_snoc.
Qed.

Lemma rstrip_zeros_rev_spec r k r' k' :
  rstrip_zeros_rev r k = (r', k') → r ≠ [] →
  ∃ j, r = PyStr.zeros j ++ r' ∧ k' = k + Z.of_nat j ∧ r' ≠ [].
Proof.
  revert k. induction r as [|c r IH]; intros k H Hne; [done|].
  cbn [rstrip_zeros_rev] in H.
  destruct (Ascii.eqb_spec c "0") as [->|Hc].
  - destruct r as [|c' r].
    + inversion H; subst. exists 0%nat. split; [done|]. split; [lia|done].
    + apply IH in H as (j & Hr & Hk & Hr'); [|done].
      exists (S j). split; [|split; [lia|done]].
      change (PyStr.zeros (S j)) with ("0"%char :: PyStr.zeros j).
      by rewrite <- app_comm_cons, <- Hr.
  - inversion H; subst. exists 0%nat. split; [done|]. split; [lia|done].
Qed.

(** [float] reads a candidate of [repr] as the decimal it stands for. *)
Lemma py_float_repr_candidate s D k :
  0 < D → Z.log2 D + 41 ≤ MAX_DIGITS →
  ∃ M E,
    py_float (repr_candidate s D k) = Ret (of_decimal s M E)
    ∧ ratio_eq (dec_ratio M E) (dec_ratio D k) ∧ 0 < M.
Proof.
  intros HD Hlog. unfold repr_candidate.
  destruct (rstrip_zeros_rev (rev (PyStr.to_digits D)) k) as [r k'] eqn:Hr.
  apply rstrip_zeros_rev_spec in Hr as (j & Hr & -> & Hne).
  2:{ intros H0. apply (f_equal (@rev _)) in H0.
      rewrite rev_involutive in H0. by apply (to_digits_nonempty D). }
  assert (Hds : PyStr.to_digits D = rev r ++ PyStr.zeros j).
  { rewrite <- (rev_involutive (PyStr.to_digits D)), Hr, rev_app_distr.
    by rewrite rev_zeros. }
  pose proof (to_digits_digits D ltac:(lia)) as Hdig.
  pose proof (to_digits_val D ltac:(lia)) as Hval.
  pose proof (length_to_digits D) as Hlen.
  rewrite Hds in Hdig, Hval, Hlen.
  rewrite forallb_app in Hdig. apply andb_prop in Hdig as [Hdig _].
  rewrite digits_val_app, digits_val_zeros, length_zeros, Z.add_0_r in Hval.
  rewrite length_app, length_zeros in Hlen.
  destruct (py_float_repr_layout s (rev r) (Z.of_nat (length r) + (k + Z.of_nat j)))
    as (M & E & Hpy & Hratio & HM).
  - intros H0. apply (f_equal (@rev _)) in H0.
    by rewrite rev_involutive in H0.
  - done.
  - lia.
  - exists M, E. split; [done|]. split.
    + eapply ratio_eq_trans; [apply dec_ratio_pos|exact Hratio|].
      rewrite length_rev.
      replace (Z.of_nat (length r) + (k + Z.of_nat j) - Z.of_nat (length r))
        with (k + Z.of_nat j) by lia.
      rewrite <- Hval. apply dec_ratio_shift. lia.
    + apply HM.
      assert (0 < 10 ^ Z.of_nat j) by (apply Z.pow_pos_nonneg; lia).
      pose proof (digits_val_nonneg _ Hdig). nia.
Qed.

Lemma valid_finite_bounds s m e :
  valid (S754_finite s m e) = true →
  Z.log2 (Zpos m) ≤ 52 ∧ -1074 ≤ e ≤ 971.
Proof.
  intros [H1 H2]%valid_finite. rewrite digits2_log2 in H1. lia.
Qed.

(** The decimal with all the digits of a binary64 number reads back as
    that number. *)
Lemma py_float_exact_candidate s m e n d num den :
  valid (S754_finite s m e) = true →
  exact_ratio m e = (n, d) →
  scaled n d (Z.min e 0) = (num, den) →
  py_float (repr_candidate s (num / den) (Z.min e 0))
  = Ret (S754_finite s m e).
Proof.
  intros Hv Hnd Hsc. pose proof (valid_finite_bounds _ _ _ Hv) as [Hm He].
  assert (HD : ∃ D, num / den = D ∧ 0 < D ∧ Z.log2 D + 41 ≤ MAX_DIGITS
                    ∧ ratio_eq (dec_ratio D (Z.min e 0)) (bin_ratio (Zpos m) e)).
  { unfold exact_ratio in Hnd. unfold scaled in Hsc.
    destruct (Z.leb_spec 0 e) as [H0|H0].
    - inversion Hnd; subst n d. rewrite Z.min_r in Hsc |- * by lia.
      change (0 <=? 0) with true in Hsc. inversion Hsc; subst num den.
      change (1 * 10 ^ 0) with 1. rewrite Z.div_1_r.
      assert (0 < 2 ^ e) by (by apply Z.pow_pos_nonneg).
      exists (Zpos m * 2 ^ e). split; [done|]. split; [lia|]. split.
      + rewrite Z.log2_mul_pow2 by lia. unfold MAX_DIGITS. lia.
      + unfold ratio_eq, dec_ratio, bin_ratio. cbn [fst snd].
        rewrite (Z.max_l e 0), (Z.max_r (- e) 0) by lia.
        change (Z.max 0 0) with 0. change (Z.max (- 0) 0) with 0.
        rewrite !Z.pow_0_r. ring.
    - inversion Hnd; subst n d. rewrite Z.min_l in Hsc |- * by lia.
      destruct (Z.leb_spec 0 e) as [|_]; [lia|].
      inversion Hsc; subst num den.
      set (a := - e) in *. assert (Ha : 0 ≤ a ≤ 1074) by lia.
      assert (H2 : 0 < 2 ^ a) by (apply Z.pow_pos_nonneg; lia).
      assert (H5 : 0 < 5 ^ a) by (apply Z.pow_pos_nonneg; lia).
      assert (H10 : 10 ^ a = 5 ^ a * 2 ^ a).
      { change 10 with (5 * 2). by rewrite Z.pow_mul_l. }
      exists (Zpos m * 5 ^ a). split; [|split; [lia|split]].
      + rewrite H10, Z.mul_assoc, Z.div_mul by lia. done.
      + assert (H8 : 5 ^ a ≤ 2 ^ (3 * a)).
        { rewrite Z.pow_mul_r by lia. apply Z.pow_le_mono_l. lia. }
        assert (Hle : Zpos m * 5 ^ a ≤ Zpos m * 2 ^ (3 * a)) by nia.
        apply Z.log2_le_mono in Hle.
        rewrite Z.log2_mul_pow2 in Hle by lia. unfold MAX_DIGITS. lia.
      + unfold ratio_eq, dec_ratio, bin_ratio. cbn [fst snd].
        replace (- e) with a by done.
        rewrite (Z.max_r e 0), (Z.max_l a 0) by lia.
        rewrite !Z.pow_0_r, H10. ring. }
  destruct HD as (D & -> & HD & Hlog & Hratio).
  destruct (py_float_repr_candidate s D (Z.min e 0) HD Hlog)
    as (M & E & -> & HME & HM).
  f_equal. apply of_decimal_exact; [done|done|].
  eapply ratio_eq_trans; [apply dec_ratio_pos|exact HME|exact Hratio].
Qed.

Lemma shortest_reads_back fuel s m e n d k :
  valid (S754_finite s m e) = true →
  exact_ratio m e = (n, d) →
  py_float (shortest fuel s (S754_finite s m e) n d k (Z.min e 0))
  = Ret (S754_finite s m e).
Proof.
  intros Hv Hnd. revert k. induction fuel as [|fuel IH]; intros k.
  all: cbn [shortest].
  all: destruct (scaled n d k) as [num den].
  all: destruct (reads_back _ (repr_candidate s (num / den) k)) eqn:Hlo.
  all: destruct (reads_back _ (repr_candidate s (num / den + 1) k)) eqn:Hhi.
  all: try apply bool_decide_eq_true in Hlo.
  all: try apply bool_decide_eq_true in Hhi.
  all: try (by destruct (Z.compare _ _); [destruct (Z.even _)| |]).
  all: try done.
  destruct (scaled n d (Z.min e 0)) as [num' den'] eqn:Hsc.
  by eapply py_float_exact_candidate.
Qed.

(** [float(repr(x))] is [x]. *)
Lemma py_float_repr x : valid x = true → py_float (repr x) = Ret x.
Proof.
  intros Hv. destruct x as [s|s| |s m e].
  - by destruct s.
  - by destruct s.
  - done.
  - unfold repr. destruct (exact_ratio m e) as [n d] eqn:Hnd.
    by apply shortest_reads_back.
Qed.

End shortest_repr.


(** ** CSV: what the writer writes, the reader reads back *)

Section csv_round_trip.
Import Csv.
Implicit Types (r : reader) (f pre tail rest : list ascii)
  (acc : list string).

Lemma read_from_step r r1 c rest :
  parse_process_char r (Some c) = Ret r1 →
  line_ends c rest = false →
  read_from r (c :: rest) = read_from r1 rest.
Proof. intros H1 H2. simpl. rewrite H1. simpl. by rewrite H2. Qed.

Lemma special_false c :
  special c = false →
  Ascii.eqb c delimiter = false ∧ Ascii.eqb c quotechar = false
  ∧ is_newline c = false.
Proof.
  unfold special. intros H.
  apply orb_false_elim in H as [H ?]. apply orb_false_elim in H as [? ?].
  done.
Qed.

Lemma line_ends_mid c rest :
  is_newline c = false → rest ≠ [] → line_ends c rest = false.
Proof.
  unfold is_newline, line_ends. intros [Hcr Hlf]%orb_false_elim Hrest.
  destruct rest as [|n rest']; [done|]. by rewrite Hcr, Hlf.
Qed.

(** An unquoted field, once begun. *)
Lemma read_in_field pre acc f tail :
  existsb special f = false → tail ≠ [] →
  read_from {| state := IN_FIELD; field := pre; fields := acc |} (f ++ tail)
  = read_from {| state := IN_FIELD; field := pre ++ f; fields := acc |} tail.
Proof.
  revert pre. induction f as [|c f IH]; intros pre Hf Htail; simpl app.
  - by rewrite app_nil_r.
  - simpl in Hf. apply orb_false_elim in Hf as [Hc Hf].
    destruct (special_false _ Hc) as (Hd & Hq & Hn).
    rewrite read_from_step with
      (r1 := {| state := IN_FIELD; field := pre ++ [c]; fields := acc |}).
    + rewrite IH by done. by rewrite <- app_assoc.
    + unfold parse_process_char, is_eol_or_newline, is_char; simpl.
      by rewrite Hn, Hd.
    + apply line_ends_mid; [done|]. by destruct f.
Qed.

(** The inside of a quoted field, up to and with the closing quote. *)
Lemma read_in_quoted pre acc f tail :
  tail ≠ [] →
  read_from {| state := IN_QUOTED_FIELD; field := pre; fields := acc |}
    (double_quotes f ++ quotechar :: tail)
  = read_from {| state := QUOTE_IN_QUOTED_FIELD; field := pre ++ f;
                 fields := acc |} tail.
Proof.
  intros Htail. revert pre. induction f as [|c f IH]; intros pre.
  - simpl app. rewrite app_nil_r.
    apply read_from_step; [done|]. by apply line_ends_mid.
  - simpl double_quotes. destruct (Ascii.eqb c quotechar) eqn:Hq.
    + apply Ascii.eqb_eq in Hq as ->. simpl app.
      rewrite read_from_step with
        (r1 := {| state := QUOTE_IN_QUOTED_FIELD; field := pre;
                  fields := acc |}); [|done|done].
      rewrite read_from_step with
        (r1 := {| state := IN_QUOTED_FIELD; field := pre ++ [quotechar];
                  fields := acc |}); [|done|].
      * rewrite IH. by rewrite <- app_assoc.
      * apply line_ends_mid; [done|]. by destruct (double_quotes f).
    + simpl app.
      assert (parse_process_char
                {| state := IN_QUOTED_FIELD; field := pre; fields := acc |}
                (Some c)
              = Ret {| state := IN_QUOTED_FIELD; field := pre ++ [c];
                       fields := acc |}) as Hstep.
      { unfold parse_process_char; simpl. by rewrite Hq. }
      simpl read_from. rewrite Hstep. simpl.
      replace (pre ++ c :: f) with ((pre ++ [c]) ++ f)
        by (by rewrite <- app_assoc).
      destruct (line_ends c _); simpl; apply IH.
Qed.

(** The reader with an encoded field behind it and [acc] saved. *)
Definition pending f acc r : Prop :=
  fields r = acc ∧ field r = f
  ∧ (state r = IN_FIELD ∨ state r = QUOTE_IN_QUOTED_FIELD
     ∨ (state r = START_FIELD ∧ f = [])).

Lemma pending_delimiter f acc r :
  pending f acc r →
  parse_process_char r (Some delimiter)
  = Ret {| state := START_FIELD; field := [];
           fields := acc ++ [PyStr.of_chars f] |}.
Proof.
  destruct r as [st fl fs]. intros (Hfs & Hf & Hst). simpl in *. subst.
  destruct Hst as [->| [->| [-> ->]]]; done.
Qed.

Lemma pending_CR f acc r :
  pending f acc r →
  parse_process_char r (Some CR)
  = Ret {| state := EAT_CRNL; field := [];
           fields := acc ++ [PyStr.of_chars f] |}.
Proof.
  destruct r as [st fl fs]. intros (Hfs & Hf & Hst). simpl in *. subst.
  destruct Hst as [->| [->| [-> ->]]]; done.
Qed.

(** An encoded field, from the start of a field. *)
Lemma read_field f acc tail :
  tail ≠ [] →
  ∃ r, pending f acc r
    ∧ read_from {| state := START_FIELD; field := []; fields := acc |}
        (join_append f ++ tail)
      = read_from r tail.
Proof.
  intros Htail. unfold join_append.
  destruct (existsb special f) eqn:Hsp.
  - eexists. split; [|].
    2:{ simpl app. rewrite read_from_step with
          (r1 := {| state := IN_QUOTED_FIELD; field := [];
                    fields := acc |}); [|done|].
        - rewrite <- app_assoc. simpl app. by rewrite read_in_quoted.
        - apply line_ends_mid; [done|]. by destruct (double_quotes f). }
    split; [done|]. split; [done|]. right. by left.
  - destruct f as [|c f].
    + eexists. split; [|done]. split; [done|]. split; [done|].
      right. by right.
    + simpl in Hsp. apply orb_false_elim in Hsp as [Hc Hf].
      destruct (special_false _ Hc) as (Hd & Hq & Hn).
      eexists. split; [|].
      2:{ simpl app. rewrite read_from_step with
            (r1 := {| state := IN_FIELD; field := [c]; fields := acc |}).
          - by rewrite read_in_field.
          - unfold parse_process_char, start_field, is_eol_or_newline,
              is_char; simpl. by rewrite Hn, Hq, Hd.
          - apply line_ends_mid; [done|]. by destruct f. }
      split; [done|]. split; [done|]. by left.
Qed.

(** The end of a record: CR, LF, and the end of the line. *)
Lemma read_crlf f acc r rest :
  pending f acc r →
  read_from r (CR :: LF :: rest)
  = cons (acc ++ [PyStr.of_chars f]) <$> read_from parse_reset rest.
Proof.
  intros Hp.
  rewrite read_from_step with
    (r1 := {| state := EAT_CRNL; field := [];
              fields := acc ++ [PyStr.of_chars f] |});
    [|by apply pending_CR|done].
  simpl read_from.
  assert (line_ends LF rest = true) as -> by (by destruct rest).
  done.
Qed.

Lemma read_delimiter f acc r tail :
  pending f acc r → tail ≠ [] →
  read_from r (delimiter :: tail)
  = read_from {| state := START_FIELD; field := [];
                 fields := acc ++ [PyStr.of_chars f] |} tail.
Proof.
  intros Hp Htail. apply read_from_step; [by apply pending_delimiter|].
  by apply line_ends_mid.
Qed.

(** The fields of a record, from the start of a field. *)
Lemma read_fields fs acc rest :
  fs ≠ [] →
  read_from {| state := START_FIELD; field := []; fields := acc |}
    (join_fields fs ++ CR :: LF :: rest)
  = cons (acc ++ (PyStr.of_chars <$> fs)) <$> read_from parse_reset rest.
Proof.
  revert acc. induction fs as [|f fs IH]; intros acc Hne; [done|].
  destruct fs as [|g fs].
  - simpl join_fields.
    destruct (read_field f acc (CR :: LF :: rest)) as (r & Hp & ->); [done|].
    by apply read_crlf.
  - change (join_fields (f :: g :: fs))
      with (join_append f ++ delimiter :: join_fields (g :: fs)).
    rewrite <- app_assoc, <- app_comm_cons.
    destruct (read_field f acc
                (delimiter :: join_fields (g :: fs) ++ CR :: LF :: rest))
      as (r & Hp & ->); [done|].
    rewrite (read_delimiter _ _ _ _ Hp).
    + rewrite IH by done. simpl fmap. by rewrite <- app_assoc.
    + by destruct (join_fields (g :: fs)).
Qed.

(** At the start of a record anything but a newline starts a field. *)
Lemma read_start_record c tail :
  is_newline c = false →
  read_from parse_reset (c :: tail)
  = read_from {| state := START_FIELD; field := []; fields := [] |}
      (c :: tail).
Proof.
  intros Hc.
  assert (parse_process_char parse_reset (Some c)
          = parse_process_char
              {| state := START_FIELD; field := []; fields := [] |}
              (Some c)) as H.
  { unfold parse_process_char, parse_reset. cbn [state]. by rewrite Hc. }
  cbn [read_from]. by rewrite H.
Qed.

Lemma join_append_head f c l :
  join_append f = c :: l → is_newline c = false.
Proof.
  unfold join_append. destruct (existsb special f) eqn:Hsp.
  - by intros [= <- _].
  - intros ->. simpl in Hsp. apply orb_false_elim in Hsp as [Hc _].
    by destruct (special_false _ Hc) as (_ & _ & ?).
Qed.

Lemma join_fields_head fs c l :
  join_fields fs = c :: l → is_newline c = false.
Proof.
  destruct fs as [|f [|g fs]]; simpl; [done|apply join_append_head|].
  destruct (join_append f) as [|a l'] eqn:Hf; simpl.
  - by intros [= <- _].
  - intros [= <- _]. by apply join_append_head with f l'.
Qed.

Lemma fmap_of_chars_chars (l : list string) :
  PyStr.of_chars <$> (PyStr.chars <$> l) = l.
Proof.
  induction l as [|x l IH]; [done|].
  rewrite !fmap_cons, IH. by rewrite of_chars_chars.
Qed.

(** One record, written and read. *)
Lemma read_record (row : list string) rest :
  read_from parse_reset (record_text row ++ rest)
  = cons row <$> read_from parse_reset rest.
Proof.
  unfold record_text.
  destruct row as [|s row].
  - simpl. by destruct rest.
  - destruct (join_fields (PyStr.chars <$> s :: row)) as [|c l] eqn:Hj.
    + assert (s = "" ∧ row = []) as [-> ->].
      { destruct row as [|t row]; simpl in Hj.
        - unfold join_append in Hj.
          destruct (existsb special (PyStr.chars s)); [done|].
          by destruct s.
        - by destruct (join_append (PyStr.chars s)). }
      simpl. by destruct rest.
    + rewrite <- app_assoc. simpl app.
      rewrite read_start_record by (by apply join_fields_head in Hj).
      change (c :: l ++ CR :: LF :: rest)
        with ((c :: l) ++ CR :: LF :: rest).
      rewrite <- Hj.
      rewrite (read_fields _ [] rest) by done.
      by rewrite fmap_of_chars_chars.
Qed.

(** Every list of records, written and read. *)
Lemma read_records (rows : list (list string)) :
  read (PyStr.of_chars (concat (record_text <$> rows))) = Ret rows.
Proof.
  unfold read. rewrite chars_of_chars.
  induction rows as [|row rows IH]; [done|].
  rewrite fmap_cons. cbn [concat]. rewrite read_record, IH. done.
Qed.

End csv_round_trip.


(** ** The filter *)

Section pipeline.
Implicit Types (data : list (option string * float)) (xs : list float)
  (rows : list Csv.row_dict).

(** A comprehension that returns has evaluated every element. *)
Lemma comprehension_Ret {A B} (f : A → outcome B) l ys :
  comprehension f l = Ret ys → Forall2 (fun x y => f x = Ret y) l ys.
Proof.
  revert ys. induction l as [|x l IH]; intros ys; simpl.
  - intros [= <-]. constructor.
  - destruct (f x) as [y|] eqn:Hy; [|done]. simpl.
    destruct (comprehension f l) as [ys'|]; [|done]. simpl.
    intros [= <-]. constructor; [done|]. by apply IH.
Qed.

Lemma zip_z_scores data :
  zip data (z_scores (snd <$> data))
  = (fun item => (item, z_score (snd <$> data) item.2)) <$> data.
Proof.
  rewrite z_scores_z_score. generalize (z_score (snd <$> data)).
  intros g. induction data as [|item data IH]; [done|].
  rewrite !fmap_cons. cbn [zip_with]. f_equal. exact IH.
Qed.

Lemma selected_data_eq data :
  selected_data data (z_scores (snd <$> data))
  = (fun item => (item.1, item.2, format_f 6 (z_score (snd <$> data) item.2)))
      <$> filter (fun item =>
                    leb (z_score (snd <$> data) item.2)
                      z_score_threshold_lower = true) data.
Proof.
  unfold selected_data. rewrite zip_z_scores.
  generalize (z_score (snd <$> data)). intros g.
  induction data as [|item data IH]; [done|].
  rewrite fmap_cons, !filter_cons. cbn [snd].
  destruct (decide (leb (g item.2) z_score_threshold_lower = true));
    [rewrite !fmap_cons; f_equal|]; exact IH.
Qed.

Lemma exact_ratio_pos m e :
  0 < (exact_ratio m e).1 ∧ 0 < (exact_ratio m e).2.
Proof.
  unfold exact_ratio. destruct (Z.leb_spec 0 e); simpl.
  - split; [|lia]. apply Z.mul_pos_pos; [lia|]. by apply Z.pow_pos_nonneg.
  - split; [lia|]. apply Z.pow_pos_nonneg; lia.
Qed.

(** The integer nearest to [num / den]. *)
Lemma round_half_even_nearest num den :
  0 < den → Z.abs (2 * (num - round_half_even num den * den)) ≤ den.
Proof.
  intros Hden. unfold round_half_even.
  pose proof (Z.div_mod num den ltac:(lia)) as Hdm.
  pose proof (Z.mod_pos_bound num den Hden) as Hr.
  set (q := num / den) in *. set (r := num mod den) in *.
  assert (num - q * den = r) as Hq by lia.
  assert (num - (q + 1) * den = r - den) as Hq1 by lia.
  destruct (Z.compare_spec (2 * r) den) as [H|H|H];
    [destruct (Z.even q)|..]; rewrite ?Hq, ?Hq1; lia.
Qed.

(** C5. A row is in the filtered output exactly when its z-score is at
    most the constant [-1.960]; the z-score written with it is that
    z-score in [format]'s ['.6f'] form, which for a finite z-score is its
    sign and the decimal layout, six digits behind the point, of the
    integer nearest to a million times its magnitude. *)
Theorem selected_data_spec data t x s :
  let xs := snd <$> data in
  let z := z_score xs x in
  ((t, x, s) ∈ selected_data data (z_scores xs)
   ↔ (t, x) ∈ data ∧ leb z z_score_threshold_lower = true
     ∧ s = format_f 6 z)
  ∧ z_score_threshold_lower = of_decimal true 196 (-2)
  ∧ (∀ sg m e, z = S754_finite sg m e →
     ∃ N, format_f 6 z
          = PyStr.of_chars (sign_chars sg ++ fixed_layout 6 N)
        ∧ Z.abs (2 * ((exact_ratio m e).1 * 10 ^ 6
                      - N * (exact_ratio m e).2))
          ≤ (exact_ratio m e).2).
Proof.
  intros xs z. split; [|split].
  - rewrite selected_data_eq. fold xs. rewrite list_elem_of_fmap.
    split.
    + intros ([t' x'] & [= -> -> ->] & Hin%list_elem_of_filter).
      simpl in *. tauto.
    + intros (Hin & Hz & ->). exists (t, x). split; [done|].
      apply list_elem_of_filter. done.
  - vm_compute. reflexivity.
  - intros sg m e Hz. rewrite Hz. unfold format_f.
    pose proof (exact_ratio_pos m e) as [_ Hd].
    destruct (exact_ratio m e) as [n d]. simpl in *.
    eexists. split; [reflexivity|].
    by apply round_half_even_nearest.
Qed.

Lemma selected_data_spec_witness :
  let data := [(Some "a", of_Z 1); (Some "b", of_Z 2); (Some "c", of_Z 3);
               (Some "d", of_Z 4); (Some "e", of_Z 5); (Some "f", of_Z 6);
               (Some "g", of_Z (-200))] in
  (Some "g", of_Z (-200), "-2.448886"%string)
    ∈ selected_data data (z_scores (snd <$> data))
  ∧ ∃ N, "-2.448886"%string
         = PyStr.of_chars (sign_chars true ++ fixed_layout 6 N).
Proof.
  intros data.
  pose proof (selected_data_spec data (Some "g") (of_Z (-200)) "-2.448886")
    as (Hiff & _ & Hfmt).
  split.
  - apply Hiff. split; [|split; vm_compute; reflexivity].
    vm_compute. repeat first [apply list_elem_of_here|apply list_elem_of_further].
  - destruct (Hfmt true 5514401385523876%positive (-51)) as (N & HN & _).
    + vm_compute. reflexivity.
    + exists N. rewrite <- HN. vm_compute. reflexivity.
Defined.

(** The output file, read back. *)
Lemma read_csv_text (selected : list (option string * float * string)) :
  Csv.read (csv_text selected)
  = Ret ([molecule_name_column; docking_score_column; "Z Score"]
           :: ((fun '(t, x, z) => [default "" t; repr x; z]) <$> selected)).
Proof.
  unfold csv_text.
  rewrite <- read_records. do 2 f_equal.
  rewrite fmap_cons, <- list_fmap_compose. cbn [concat]. do 2 f_equal.
  apply list_fmap_ext. by intros ? [[]] ?.
Qed.

(** C6. The filtered rows are, in the same order, a subsequence of the
    parsed rows, which are in turn the parseable rows of the input in
    input order; the output file lists the filtered rows in that
    order. *)
Theorem selected_data_order rows loaded :
  load_rows rows = Ret loaded →
  let data := drop_none loaded in
  let selected := selected_data data (z_scores (snd <$> data)) in
  sublist ((fun item => (item.1.1, item.1.2)) <$> selected) data
  ∧ sublist ((fun item => (item.1, Some item.2)) <$> data) loaded
  ∧ length loaded = length rows
  ∧ Csv.read (csv_text selected)
    = Ret ([molecule_name_column; docking_score_column; "Z Score"]
             :: ((fun '(t, x, z) => [default "" t; repr x; z])
                   <$> selected)).
Proof.
  intros Hload data selected. split; [|split; [|split]].
  - unfold selected. rewrite selected_data_eq, <- list_fmap_compose.
    erewrite (list_fmap_ext _ id); [|by intros ? [] ?].
    rewrite list_fmap_id. apply sublist_filter.
  - unfold data, drop_none. clear. induction loaded as [|[t [v|]] l IH].
    + done.
    + simpl. by apply sublist_skip.
    + simpl. by apply sublist_cons.
  - symmetry. by eapply Forall2_length, comprehension_Ret.
  - apply read_csv_text.
Qed.

Lemma example_rows_loaded : load_rows example_rows = Ret example_loaded.
Proof. vm_compute. reflexivity. Qed.

Lemma selected_data_order_witness :
  let data := drop_none example_loaded in
  load_rows example_rows = Ret example_loaded
  ∧ sublist
      ((fun item => (item.1.1, item.1.2))
         <$> selected_data data (z_scores (snd <$> data))) data.
Proof.
  split; [exact example_rows_loaded|].
  exact (proj1 (selected_data_order example_rows example_loaded
                  example_rows_loaded)).
Defined.

End pipeline.

Section dataset.
Implicit Types (rows : list Csv.row_dict).

Lemma load_rows_cons row rows :
  load_rows (row :: rows)
  = (t ← Csv.getitem row molecule_name_column;
     d ← Csv.getitem row docking_score_column;
     v ← parse_float d;
     l ← load_rows rows;
     mret ((t, v) :: l)).
Proof.
  unfold load_rows. simpl.
  destruct (Csv.getitem row molecule_name_column); [|done]. simpl.
  destruct (Csv.getitem row docking_score_column); [|done]. simpl.
  by destruct (parse_float _).
Qed.

Lemma drop_none_cons t v (l : list (option string * option float)) :
  drop_none ((t, v) :: l)
  = match v with
    | Some x => (t, x) :: drop_none l
    | None => drop_none l
    end.
Proof. by destruct v. Qed.

(** Rows whose score does not parse leave no trace in the data set. *)
Lemma load_rows_filter rows :
  drop_none <$> load_rows (filter (fun row => score_parses row = true) rows)
  = drop_none <$> load_rows rows.
Proof.
  induction rows as [|row rows IH]; [done|].
  rewrite filter_cons.
  destruct (decide (score_parses row = true)) as [Hsp|Hsp].
  - rewrite !load_rows_cons.
    destruct (Csv.getitem row molecule_name_column); [|done]. simpl.
    destruct (Csv.getitem row docking_score_column); [|done]. simpl.
    destruct (parse_float _) as [v|]; [|done]. simpl.
    destruct (load_rows (filter _ rows)) as [l1|e1],
      (load_rows rows) as [l2|e2]; try done.
    injection IH as IH.
    cbn [fmap outcome_fmap obind mbind outcome_bind mret outcome_ret].
    by rewrite !drop_none_cons, IH.
  - rewrite load_rows_cons. unfold score_parses in Hsp.
    destruct (Csv.getitem row molecule_name_column) as [t|]; [|done].
    destruct (Csv.getitem row docking_score_column) as [d|]; [|done].
    cbn [mbind outcome_bind obind].
    destruct (parse_float d) as [[v|]|]; [done| |done].
    cbn [mbind outcome_bind obind]. rewrite IH.
    by destruct (load_rows rows).
Qed.

Lemma process_eq rows w :
  process rows w
  = match drop_none <$> load_rows rows with
    | Ret data => report data w
    | Raise e => (Raise e, w)
    end.
Proof.
  unfold process. by destruct (load_rows rows).
Qed.

(** C7. Every element of the parsed data set comes from a row whose
    score text parsed to its number; rows whose score does not parse are
    excluded, and nothing the run does or leaves (files, documents,
    images, standard output, outcome) depends on them: the run is the
    run on the input without them. *)
Theorem parsed_dataset rows loaded w :
  load_rows rows = Ret loaded →
  (∀ t x, (t, x) ∈ drop_none loaded →
     ∃ row d, row ∈ rows
       ∧ Csv.getitem row molecule_name_column = Ret t
       ∧ Csv.getitem row docking_score_column = Ret d
       ∧ parse_float d = Ret (Some x))
  ∧ (∀ row d, row ∈ rows →
       Csv.getitem row docking_score_column = Ret d →
       parse_float d = Ret None → score_parses row = false)
  ∧ process rows w
    = process (filter (fun row => score_parses row = true) rows) w.
Proof.
  intros Hload. split; [|split].
  - intros t x Hin. unfold drop_none in Hin.
    apply list_elem_of_omap in Hin as ([t' [v|]] & Hin & Heq); [|done].
    simpl in Heq. injection Heq as -> ->.
    apply comprehension_Ret in Hload.
    apply list_elem_of_lookup in Hin as [i Hi].
    destruct (Forall2_lookup_r _ _ _ _ _ Hload Hi) as (row & Hrow & Hf).
    exists row.
    destruct (Csv.getitem row molecule_name_column) as [t'|]; [|done].
    destruct (Csv.getitem row docking_score_column) as [d|]; [|done].
    simpl in Hf. destruct (parse_float d) as [v|] eqn:Hv; [|done].
    simpl in Hf. injection Hf as -> ->.
    exists d. split; [by eapply list_elem_of_lookup_2|done].
  - intros row d Hin Hd Hv. unfold score_parses. rewrite Hd, Hv.
    apply comprehension_Ret in Hload.
    apply list_elem_of_lookup in Hin as [i Hi].
    destruct (Forall2_lookup_l _ _ _ _ _ Hload Hi) as (y & _ & Hf).
    by destruct (Csv.getitem row molecule_name_column).
  - by rewrite !process_eq, load_rows_filter.
Qed.

Lemma parsed_dataset_witness :
  load_rows example_rows = Ret example_loaded
  ∧ process example_rows empty_world
    = process (filter (fun row => score_parses row = true) example_rows)
        empty_world.
Proof.
  split; [exact example_rows_loaded|].
  exact (proj2 (proj2 (parsed_dataset example_rows example_loaded
                         empty_world example_rows_loaded))).
Defined.

End dataset.


(** ** Runs *)

Section runs.
Implicit Types (data : list (option string * float)) (w : world).

Lemma bind_Ret {A B} (m : M A) (k : A → M B) w a w' :
  m w = (Ret a, w') → (m ≫= k) w = k a w'.
Proof. unfold mbind, M_bind. by intros ->. Qed.

Lemma bind_Raise {A B} (m : M A) (k : A → M B) w e w' :
  m w = (Raise e, w') → (m ≫= k) w = (Raise e, w').
Proof. unfold mbind, M_bind. by intros ->. Qed.

(** Re-reading a filtered file that holds its header alone. *)
Lemma print_last_header_only w path :
  files w !! path = Some (csv_text []) →
  print_last_molecule_docking path w = (Raise IndexError, w).
Proof.
  intros Hf. unfold print_last_molecule_docking.
  erewrite bind_Ret; [|unfold open_read; by rewrite Hf].
  erewrite bind_Ret; [|unfold lift; by rewrite read_csv_text].
  reflexivity.
Qed.

Lemma render_score_plot_header_only wd
  (scored : list (option string * float * float)) w :
  files w !! os_path_join wd updated_file_name = Some (csv_text []) →
  ∃ fig,
    render_score_plot wd scored w
    = (Raise (match scored with [] => ValueError | _ => IndexError end),
       set_figure w fig).
Proof.
  intros Hf. unfold render_score_plot.
  do 4 (erewrite bind_Ret; [|reflexivity]).
  destruct scored as [|item scored].
  - eexists. reflexivity.
  - do 4 (erewrite bind_Ret; [|reflexivity]).
    erewrite bind_Raise; [|apply print_last_header_only; exact Hf].
    eexists. reflexivity.
Qed.

Lemma length_attach_z_scores data :
  length (attach_z_scores data (z_scores (snd <$> data))) = length data.
Proof.
  unfold attach_z_scores.
  rewrite length_fmap, length_zip_with, length_z_scores, length_fmap. lia.
Qed.

Lemma persist_eq wd selected w :
  persist wd selected w
  = (Ret tt,
     {| cwd := cwd w;
        files := <[os_path_join wd updated_file_name := csv_text selected]>
                   (files w);
        documents := documents w; images := images w;
        stdout := stdout w; current_figure := current_figure w;
        savefig_error := savefig_error w |}).
Proof. reflexivity. Qed.

Lemma pdf_cells_Ret (selected : list (option string * float * string)) :
  Forall (fun item => is_Some item.1.1) selected →
  ∃ l, comprehension (fun item => pdf_cell_text item.1.1) selected = Ret l.
Proof.
  induction 1 as [|[[t x] z] selected [t' Ht] _ [l IH]]; [by eexists|].
  cbn in Ht. subst t. cbn [comprehension fst snd pdf_cell_text].
  rewrite IH. by eexists.
Qed.

Lemma render_document_eq wd selected w :
  Forall (fun item => is_Some item.1.1) selected →
  render_document wd selected w
  = (Ret tt,
     {| cwd := cwd w; files := files w;
        documents := <[os_path_join wd output_pdf_name
                       := pdf_table selected]> (documents w);
        images := images w;
        stdout := stdout w; current_figure := current_figure w;
        savefig_error := savefig_error w |}).
Proof.
  intros [l Hl]%pdf_cells_Ret. unfold render_document.
  erewrite bind_Ret; [|unfold lift; by rewrite Hl]. reflexivity.
Qed.

Lemma render_z_score_plot_eq wd w :
  render_z_score_plot wd w
  = (Ret tt,
     {| cwd := cwd w; files := files w; documents := documents w;
        images := <[os_path_join wd output_image_name := z_score_figure]>
                    (images w);
        stdout := stdout w; current_figure := [];
        savefig_error := savefig_error w |}).
Proof. reflexivity. Qed.

(** A run that selects nothing. *)
Lemma report_empty_selection data w :
  selected_data data (z_scores (snd <$> data)) = [] →
  ∃ fig,
    report data w
    = (Raise (match data with [] => ValueError | _ => IndexError end),
       stopped_before_docking_plot w fig).
Proof.
  intros Hsel. unfold report.
  erewrite bind_Ret; [|reflexivity]. rewrite Hsel.
  erewrite bind_Ret; [|apply persist_eq].
  erewrite bind_Ret; [|by apply render_document_eq].
  erewrite bind_Ret; [|apply render_z_score_plot_eq].
  cbn [cwd files documents images stdout current_figure savefig_error].
  match goal with
  | |- context [render_score_plot ?wd ?d ?w'] =>
      destruct (render_score_plot_header_only wd d w') as [fig Hfig]
  end.
  { cbn [files]. apply lookup_insert_eq. }
  exists fig. rewrite Hfig.
  pose proof (length_attach_z_scores data) as Hlen.
  destruct (attach_z_scores data _), data; simpl in Hlen; done.
Qed.

(** C10, as worded, fails: with no parseable row nothing is selected,
    and the run ends in the [ValueError] of [min] on the empty score
    list, before the filtered file is read again. *)
Lemma empty_selection_counterexample : ¬ empty_selection_raises_IndexError.
Proof.
  intros H.
  destruct (report_empty_selection [] empty_world eq_refl) as [fig Hfig].
  assert (@Raise unit ValueError = Raise IndexError) as Hne; [|discriminate].
  rewrite <- (H [] empty_world eq_refl).
  rewrite Hfig. reflexivity.
Qed.

(** C10, amended. A run that selects nothing from a non-empty data set
    ends in the [IndexError] of [print_last_molecule_docking], which
    finds no row in the filtered file it reads again; on an empty data
    set it ends earlier, in the [ValueError] of [min]. Either way it
    stops with the filtered table, the document and the z-score plot
    written and the docking-score plot not saved. *)
Theorem empty_selection_stops data w :
  selected_data data (z_scores (snd <$> data)) = [] →
  (∃ fig,
     report data w
     = (Raise (match data with [] => ValueError | _ => IndexError end),
        stopped_before_docking_plot w fig))
  ∧ (∀ w' path, files w' !! path = Some (csv_text []) →
       print_last_molecule_docking path w' = (Raise IndexError, w')).
Proof.
  intros Hsel. split.
  - by apply report_empty_selection.
  - intros w' path. apply print_last_header_only.
Qed.

Lemma empty_selection_stops_witness :
  ∃ fig,
    report [(Some "a", of_Z 1); (Some "b", of_Z 2)] empty_world
    = (Raise IndexError, stopped_before_docking_plot empty_world fig).
Proof.
  apply (empty_selection_stops [(Some "a", of_Z 1); (Some "b", of_Z 2)]
           empty_world).
  vm_compute. reflexivity.
Defined.

(** C9, as worded, fails in its figure for the standard deviation: the
    population standard deviation of 1, 2, 3, 4, 100 is the square root
    of 1522, about 39.013, not 38.886. *)
Lemma scenario_stddev_counterexample : ¬ scenario_stddev_as_stated.
Proof. unfold scenario_stddev_as_stated. vm_compute. discriminate. Qed.

(** C9, amended. On the five rows with scores 1.0, 2.0, 3.0, 4.0 and
    100.0 the mean is 22 and the population variance 1522 (standard
    deviation 39.013 to three decimals); no row is selected; the filtered
    file holds its header alone; the document shows "Total Number of
    Selected Compounds: 0"; and the run then stops in the index error of
    the empty selection. *)
Theorem scenario_run t1 t2 t3 t4 t5 w :
  let data := zip [Some t1; Some t2; Some t3; Some t4; Some t5]
                scenario_scores in
  load_rows (scenario_rows t1 t2 t3 t4 t5)
  = Ret ((fun item => (item.1, Some item.2)) <$> data)
  ∧ population_mean scenario_scores = of_Z 22
  ∧ Np.var scenario_scores = of_Z 1522
  ∧ approx (population_std scenario_scores) 39013 5 = true
  ∧ selected_data data (z_scores (snd <$> data)) = []
  ∧ csv_text [] = header_text
  ∧ cell 200 10 (Some "Total Number of Selected Compounds: 0") 0 true "C"
    ∈ pdf_table []
  ∧ ∃ fig,
      process (scenario_rows t1 t2 t3 t4 t5) w
      = (Raise IndexError, stopped_before_docking_plot w fig).
Proof.
  intros data.
  assert (load_rows (scenario_rows t1 t2 t3 t4 t5)
          = Ret ((fun item => (item.1, Some item.2)) <$> data)) as Hload
    by (vm_compute; reflexivity).
  assert (selected_data data (z_scores (snd <$> data)) = []) as Hsel
    by (vm_compute; reflexivity).
  split; [exact Hload|].
  do 3 (split; [vm_compute; reflexivity|]).
  split; [exact Hsel|].
  split; [vm_compute; reflexivity|].
  split; [apply list_elem_of_lookup; exists 4%nat; reflexivity|].
  destruct (report_empty_selection data w Hsel) as [fig Hfig].
  exists fig. rewrite process_eq, Hload. exact Hfig.
Qed.


End runs.


(** ** The filtered file, read back *)

Section read_back.

Implicit Types (w : world) (rows : list Csv.row_dict).
Implicit Types (selected : list (option string * float * string)).

Lemma dg_strtod_valid l x rest :
  dg_strtod l = Some (x, rest) → valid x = true.
Proof.
  unfold dg_strtod. destruct (parse_sign l) as [sgn l1].
  destruct (span_digits l1) as [ip l2] eqn:Hip.
  apply span_digits_spec in Hip as (_ & Hip & _).
  set (frac := match l2 with [] => _ | _ => _ end).
  assert (Hfp : forallb PyStr.is_digit frac.1 = true).
  { subst frac. destruct l2 as [|c r]; [done|].
    destruct (Ascii.eqb c "."); [|done].
    destruct (span_digits r) as [fp l3] eqn:Hr.
    by apply span_digits_spec in Hr as (_ & Hr & _). }
  destruct frac as [fp l3]. cbn [fst] in Hfp.
  destruct (ip ++ fp) as [|c ds] eqn:Hds; [done|].
  destruct (_ || _); [done|]. destruct (parse_exponent l3) as [ex l4].
  intros [= <- <-]. apply of_decimal_valid, digits_val_nonneg.
  by rewrite <- Hds, forallb_app, Hip, Hfp.
Qed.

Lemma parse_inf_or_nan_valid l x rest :
  parse_inf_or_nan l = Some (x, rest) → valid x = true.
Proof.
  unfold parse_inf_or_nan. destruct (parse_sign l) as [neg l1].
  destruct (imatch _ l1) as [r|].
  - destruct (imatch _ r); by intros [= <- <-].
  - destruct (imatch _ l1); [|done]. by intros [= <- <-].
Qed.

(** [float] returns a binary64 number (or an infinity or a NaN). *)
Lemma py_float_valid t x : py_float t = Ret x → valid x = true.
Proof.
  unfold py_float, float_from_string_inner.
  destruct (strip_underscores _ _) as [l|]; [|done].
  destruct (ascii_strtod (strip l)) as [[y [|c r]]|] eqn:H; try done.
  intros [= <-]. unfold ascii_strtod in H.
  destruct (dg_strtod (strip l)) as [[y' r']|] eqn:Hd.
  - inversion H; subst. by eapply dg_strtod_valid.
  - by eapply parse_inf_or_nan_valid.
Qed.

Lemma parse_float_valid v x : parse_float v = Ret (Some x) → valid x = true.
Proof.
  unfold parse_float, parse_float_try. destruct v as [value|]; [|done].
  set (c1 := if PyStr.contains "," value then (PyStr.index _ _ ≫= _) else _).
  clearbody c1.
  assert (Hpy : ∀ t, except_ValueError (py_float t) = Ret (Some x)
                     → valid x = true).
  { intros t. destruct (py_float t) as [y|[]] eqn:Ht; try done.
    intros [= <-]. by eapply py_float_valid. }
  destruct c1 as [[|]|err]; cbv [mbind outcome_bind obind]; [| |by destruct err].
  - apply Hpy.
  - destruct (PyStr.contains "," value); apply Hpy.
Qed.

Lemma load_rows_valid rows loaded :
  load_rows rows = Ret loaded →
  Forall (fun item => valid item.2 = true) (drop_none loaded).
Proof.
  revert loaded. induction rows as [|row rows IH]; intros loaded.
  - intros [= <-]. constructor.
  - rewrite load_rows_cons.
    destruct (Csv.getitem row molecule_name_column) as [t|]; [|done].
    destruct (Csv.getitem row docking_score_column) as [d|]; [|done].
    cbn [mbind outcome_bind obind].
    destruct (parse_float d) as [v|] eqn:Hv; [|done].
    cbn [mbind outcome_bind obind].
    destruct (load_rows rows) as [l|]; [|done].
    intros [= <-]. rewrite drop_none_cons. destruct v as [x|].
    + constructor; [|by apply IH]. by eapply parse_float_valid.
    + by apply IH.
Qed.

(** A selected item is an item of the data set whose Z-score passed the
    comparison; its score is therefore not a NaN. *)
Lemma selected_data_elem (data : list (option string * float)) t x z :
  (t, x, z) ∈ selected_data data (z_scores (snd <$> data)) →
  (t, x) ∈ data ∧ x ≠ S754_nan.
Proof.
  rewrite selected_data_eq. intros ([t' x'] & [= -> -> _] & Hin)%list_elem_of_fmap.
  apply list_elem_of_filter in Hin as [Hle Hin]. split; [done|].
  intros ->. cbn [snd] in Hle. by unfold z_score in Hle.
Qed.

Lemma make_dict_columns a b c :
  let d := Csv.make_dict
             [molecule_name_column; docking_score_column; "Z Score"]
             [a; b; c] in
  Csv.getitem d "Title" = Ret (Some a)
  ∧ Csv.getitem d "docking score" = Ret (Some b).
Proof.
  unfold Csv.getitem, Csv.make_dict. cbn [zip_with foldl length drop fst snd].
  unfold Csv.row_dict. split.
  - rewrite !lookup_insert_ne by done. by rewrite lookup_insert_eq.
  - rewrite lookup_insert_ne by done. by rewrite lookup_insert_eq.
Qed.

Lemma read_back_rows selected :
  comprehension
    (fun row =>
       t ← Csv.getitem row "Title";
       d ← Csv.getitem row "docking score";
       mret (t, d))
    (Csv.dict_rows
       ([molecule_name_column; docking_score_column; "Z Score"]
          :: ((fun '(t, x, z) => [default "" t; repr x; z]) <$> selected)))
  = Ret ((fun '(t, x, z) => (Some (default "" t), Some (repr x)))
           <$> selected).
Proof.
  unfold Csv.dict_rows.
  induction selected as [|[[t x] z] selected IH]; [done|].
  rewrite !fmap_cons, filter_cons_True by done. rewrite fmap_cons.
  cbn [comprehension].
  destruct (make_dict_columns (default "" t) (repr x) z) as [-> ->].
  cbn [mbind outcome_bind obind mret outcome_ret]. by rewrite IH.
Qed.

Lemma print_last_molecule_docking_eq path w selected t x z :
  files w !! path = Some (csv_text selected) →
  last selected = Some (t, x, z) →
  print_last_molecule_docking path w
  = (py_float (repr x),
     {| cwd := cwd w; files := files w; documents := documents w;
        images := images w;
        stdout := stdout w
                    ++ ["The docking score of the last molecule ("
                          +:+ default "" t +:+ ") is: " +:+ repr x];
        current_figure := current_figure w;
        savefig_error := savefig_error w |}).
Proof.
  intros Hf Hlast. unfold print_last_molecule_docking.
  erewrite bind_Ret; [|unfold open_read; by rewrite Hf].
  erewrite bind_Ret; [|unfold lift; by rewrite read_csv_text].
  erewrite bind_Ret; [|unfold lift; by rewrite read_back_rows].
  erewrite bind_Ret;
    [|unfold lift, PyStr.index_last; by rewrite fmap_last, Hlast].
  reflexivity.
Qed.

(** C8. In every run that selects at least one row, reading the filtered
    file again gives, as the score of its last row, exactly the score of
    the last selected item: the text [str] writes for a float is read by
    [float] as that float, and the table survives the writer and the
    reader. The score is not a NaN, so it also compares equal to itself
    in Python. *)
Theorem written_score_read_back rows loaded w t x z :
  let data := drop_none loaded in
  let selected := selected_data data (z_scores (snd <$> data)) in
  let path := os_path_join (cwd w) updated_file_name in
  load_rows rows = Ret loaded →
  last selected = Some (t, x, z) →
  x ≠ S754_nan
  ∧ files (persist (cwd w) selected w).2 !! path = Some (csv_text selected)
  ∧ (∀ w1, files w1 !! path = Some (csv_text selected) →
       (print_last_molecule_docking path w1).1 = Ret x).
Proof.
  intros data selected path Hload Hlast.
  assert (Hin : (t, x, z) ∈ selected).
  { apply last_Some in Hlast as [l ->]. set_solver. }
  apply selected_data_elem in Hin as [Hin Hnan].
  assert (Hpy : py_float (repr x) = Ret x).
  { apply py_float_repr.
    pose proof (load_rows_valid _ _ Hload) as Hv.
    rewrite Forall_forall in Hv. exact (Hv (t, x) Hin). }
  split; [exact Hnan|]. split.
  - rewrite persist_eq. cbn [snd files]. apply lookup_insert_eq.
  - intros w1 Hf.
    rewrite (print_last_molecule_docking_eq path w1 selected t x z Hf Hlast).
    exact Hpy.
Qed.

Lemma written_score_read_back_witness :
  let data := drop_none example_loaded in
  let selected := selected_data data (z_scores (snd <$> data)) in
  let path := os_path_join "/" updated_file_name in
  of_Z (-200) ≠ S754_nan
  ∧ files (persist "/" selected empty_world).2 !! path
    = Some (csv_text selected)
  ∧ (∀ w1, files w1 !! path = Some (csv_text selected) →
       (print_last_molecule_docking path w1).1 = Ret (of_Z (-200))).
Proof.
  apply (written_score_read_back example_rows example_loaded empty_world
           (Some "h") (of_Z (-200)) "-2.448886").
  - exact example_rows_loaded.
  - vm_compute. reflexivity.
Defined.

End read_back.


(** ** What a run may touch *)

Section frames.

Implicit Types (w : world) (wd path : string).

Lemma frame_refl wd w : frame wd w w.
Proof. repeat split; try done. exists []. by rewrite app_nil_r. Qed.

Lemma frame_trans wd w1 w2 w3 :
  frame wd w1 w2 → frame wd w2 w3 → frame wd w1 w3.
Proof.
  intros (Hc & Hf & Hd & Hi & l1 & Hl1) (Hc' & Hf' & Hd' & Hi' & l2 & Hl2).
  split; [congruence|]. split; [|split; [|split]].
  - intros p Hp. by rewrite Hf', Hf.
  - intros p Hp. by rewrite Hd', Hd.
  - intros p Hp1 Hp2. by rewrite Hi', Hi.
  - exists (l1 ++ l2). by rewrite Hl2, Hl1, app_assoc.
Qed.

Lemma framed_bind wd {A B} (m : M A) (k : A → M B) :
  framed wd m → (∀ a, framed wd (k a)) → framed wd (m ≫= k).
Proof.
  intros Hm Hk w Hw. specialize (Hm w Hw).
  unfold mbind, M_bind. destruct (m w) as [[a|e] w1]; cbn [snd] in *.
  - eapply frame_trans; [exact Hm|]. apply Hk.
    destruct Hm as [-> _]. exact Hw.
  - exact Hm.
Qed.

Lemma framed_getcwd wd {B} (k : string → M B) :
  framed wd (k wd) → framed wd (getcwd ≫= k).
Proof. intros Hk w Hw. unfold mbind, M_bind, getcwd. rewrite Hw. by apply Hk. Qed.

Lemma framed_lift wd {A} (o : outcome A) : framed wd (lift o).
Proof. intros w _. apply frame_refl. Qed.

Lemma framed_open_read wd path : framed wd (open_read path).
Proof.
  intros w _. unfold open_read. destruct (files w !! path); apply frame_refl.
Qed.

Lemma framed_print wd line : framed wd (print line).
Proof. intros w _. repeat split; try done. by exists [line]. Qed.

Lemma framed_plt wd c : framed wd (plt c).
Proof.
  intros w _. destruct c; repeat split; try done; exists []; cbn;
    by rewrite app_nil_r.
Qed.

Lemma framed_plt_close wd : framed wd plt_close.
Proof.
  intros w _. repeat split; try done. exists []. cbn. by rewrite app_nil_r.
Qed.

Lemma framed_open_write wd text :
  framed wd (open_write (os_path_join wd updated_file_name) text).
Proof.
  intros w _. repeat split; try done.
  - intros p Hp. cbn. by rewrite lookup_insert_ne.
  - exists []. cbn. by rewrite app_nil_r.
Qed.

Lemma framed_pdf_output wd doc :
  framed wd (pdf_output (os_path_join wd output_pdf_name) doc).
Proof.
  intros w _. repeat split; try done.
  - intros p Hp. cbn. by rewrite lookup_insert_ne.
  - exists []. cbn. by rewrite app_nil_r.
Qed.

Lemma framed_plt_savefig wd path :
  path = os_path_join wd output_image_name
  ∨ path = os_path_join wd docking_output_image_name →
  framed wd (plt_savefig path).
Proof.
  intros Hpath w _. unfold plt_savefig.
  destruct (if has_text _ then _ else _); [apply frame_refl|].
  repeat split; try done.
  - intros p Hp1 Hp2. cbn. rewrite lookup_insert_ne; [done|].
    by destruct Hpath as [-> | ->].
  - exists []. cbn. by rewrite app_nil_r.
Qed.

Lemma framed_print_last_molecule_docking wd path :
  framed wd (print_last_molecule_docking path).
Proof.
  unfold print_last_molecule_docking.
  apply framed_bind; [apply framed_open_read|intros csvfile].
  apply framed_bind; [apply framed_lift|intros records].
  apply framed_bind; [apply framed_lift|intros data].
  apply framed_bind; [apply framed_lift|intros [molecule_name docking_score]].
  apply framed_bind; [apply framed_print|intros _]. apply framed_lift.
Qed.

Lemma framed_report wd data : framed wd (report data).
Proof.
  unfold report. apply framed_getcwd.
  apply framed_bind; [apply framed_open_write|intros _].
  apply framed_bind; [|intros _].
  { apply framed_bind; [apply framed_lift|intros _].
    apply framed_pdf_output. }
  apply framed_bind; [|intros _].
  - unfold render_z_score_plot.
    do 8 (apply framed_bind; [apply framed_plt|intros _]).
    apply framed_bind; [apply framed_plt_savefig; by left|intros _].
    apply framed_plt_close.
  - unfold render_score_plot.
    do 4 (apply framed_bind; [apply framed_plt|intros _]).
    apply framed_bind; [apply framed_lift|intros lo].
    apply framed_bind; [apply framed_lift|intros hi].
    do 2 (apply framed_bind; [apply framed_plt|intros _]).
    apply framed_bind;
      [apply framed_print_last_molecule_docking|intros last_docking_value].
    do 2 (apply framed_bind; [apply framed_plt|intros _]).
    apply framed_bind; [apply framed_plt_savefig; by right|intros _].
    apply framed_plt_close.
Qed.

Lemma framed_main wd : framed wd main.
Proof.
  unfold main. apply framed_getcwd.
  apply framed_bind; [apply framed_open_read|intros csvfile].
  apply framed_bind; [apply framed_lift|intros records].
  unfold process.
  apply framed_bind; [apply framed_lift|intros data]. apply framed_report.
Qed.

Lemma append_inj_r (a s t : string) : a +:+ s = a +:+ t → s = t.
Proof. induction a as [|c a IH]; [done|]. intros [= H]. by apply IH. Qed.

Lemma os_path_join_inj wd a b :
  match a with String "/" _ => False | _ => True end →
  match b with String "/" _ => False | _ => True end →
  os_path_join wd a = os_path_join wd b → a = b.
Proof.
  intros Ha Hb. unfold os_path_join.
  assert (Ea : ∀ (X : Type) (x y : X),
             match a with String "/"%char _ => x | _ => y end = y).
  { intros X x y. destruct a as [|c a]; [done|].
    destruct c as [[] [] [] [] [] [] [] []]; try done. }
  assert (Eb : ∀ (X : Type) (x y : X),
             match b with String "/"%char _ => x | _ => y end = y).
  { intros X x y. destruct b as [|c b]; [done|].
    destruct c as [[] [] [] [] [] [] [] []]; try done. }
  rewrite Ea, Eb. destruct (last (PyStr.chars wd)) as [c|]; [|done].
  destruct (Ascii.eqb c "/"); intros H.
  - by apply append_inj_r in H.
  - apply append_inj_r in H. by apply (append_inj_r "/") in H.
Qed.

Lemma artifact_paths_distinct wd :
  NoDup (os_path_join wd
           <$> [file_name; updated_file_name; output_pdf_name;
                output_image_name; docking_output_image_name]).
Proof.
  apply NoDup_fmap_2_strong.
  - intros a b Ha Hb. apply os_path_join_inj.
    + set_unfold. by destruct Ha as [->|[->|[->|[->|[->|[]]]]]].
    + set_unfold. by destruct Hb as [->|[->|[->|[->|[->|[]]]]]].
  - apply (bool_decide_unpack _). vm_compute. exact I.
Qed.

(** X1. Whatever the input and however the run ends, it leaves every
    file other than the filtered table as it was (the input file among
    them), every document other than the report, every image other than
    the two plots; it does not change the working directory, and what
    it prints comes after what was printed before. The paths of the
    input and of the four artifacts are pairwise distinct. *)
Theorem main_frame w :
  frame (cwd w) w (main w).2
  ∧ files (main w).2 !! os_path_join (cwd w) file_name
    = files w !! os_path_join (cwd w) file_name
  ∧ NoDup (os_path_join (cwd w)
             <$> [file_name; updated_file_name; output_pdf_name;
                  output_image_name; docking_output_image_name]).
Proof.
  pose proof (framed_main (cwd w) w eq_refl) as H. split; [exact H|].
  split; [|apply artifact_paths_distinct].
  destruct H as (_ & Hf & _). apply Hf. intros Heq.
  by apply os_path_join_inj in Heq.
Qed.

End frames.

(** ** The rows of a table, as [DictReader] hands them over *)

Section dict_rows.

Implicit Types (w : world) (header row : list string) (k : string).
Implicit Types (d : Csv.row_dict).

Lemma foldl_insert_cells k (l : list (string * string)) d :
  foldl (fun d kv => <[kv.1 := Some kv.2]> d) d l !! k
  = match last (filter (fun kv => kv.1 = k) l) with
    | Some kv => Some (Some kv.2)
    | None => d !! k
    end.
Proof.
  revert d. induction l as [|[k' v] l IH]; intros d; [done|].
  cbn [foldl]. rewrite IH, filter_cons. cbn [fst snd]. unfold Csv.row_dict.
  destruct (decide (k' = k)) as [->|Hk].
  - rewrite last_cons.
    destruct (last (filter _ l)); [done|]. by rewrite lookup_insert_eq.
  - destruct (last (filter _ l)); [done|]. by rewrite lookup_insert_ne.
Qed.

Lemma foldl_insert_restval k (l : list string) d :
  foldl (fun d k' => <[k' := None]> d) d l !! k
  = if decide (k ∈ l) then Some None else d !! k.
Proof.
  revert d. induction l as [|k' l IH]; intros d; [done|].
  cbn [foldl]. rewrite IH. unfold Csv.row_dict.
  destruct (decide (k ∈ l)) as [Hin|Hin].
  - rewrite decide_True; [done|]. by right.
  - destruct (decide (k' = k)) as [->|Hk].
    + rewrite decide_True by left. by rewrite lookup_insert_eq.
    + rewrite decide_False; [by rewrite lookup_insert_ne|].
      by intros [->|]%elem_of_cons.
Qed.

Lemma fst_zip_take {A B} (l : list A) (r : list B) :
  (zip l r).*1 = take (length r) l.
Proof.
  revert r. induction l as [|x l IH]; intros [|y r]; try done.
  cbn. by rewrite IH.
Qed.

(** A row has a cell, or [None], under exactly the names of the
    header. *)
Lemma make_dict_is_Some header row k :
  is_Some (Csv.make_dict header row !! k) ↔ k ∈ header.
Proof.
  unfold Csv.make_dict. rewrite foldl_insert_restval.
  rewrite <- (take_drop (length row) header) at 3.
  rewrite elem_of_app.
  destruct (decide (k ∈ drop (length row) header)) as [Hin|Hin].
  { split; [by right|by eexists]. }
  rewrite foldl_insert_cells.
  destruct (last (filter _ (zip header row))) as [kv|] eqn:Hlast.
  - split; [intros _; left|by eexists].
    apply last_Some in Hlast as [l' Hl'].
    assert (Hkv : kv ∈ filter (fun kv => kv.1 = k) (zip header row))
      by (rewrite Hl'; set_solver).
    apply list_elem_of_filter in Hkv as [<- Hkv].
    rewrite <- fst_zip_take. by apply list_elem_of_fmap_2.
  - unfold Csv.row_dict. rewrite lookup_empty. split; [by intros []|]. intros [Hin'|Hin']; [|done].
    rewrite <- fst_zip_take in Hin'.
    apply list_elem_of_fmap in Hin' as (kv & -> & Hkv).
    apply last_None in Hlast.
    assert (kv ∈ filter (fun kv' => kv'.1 = kv.1) (zip header row))
      by (by apply list_elem_of_filter).
    rewrite Hlast in H. by apply not_elem_of_nil in H.
Qed.

(** The names of the header beyond the cells of a short row stand for
    [None]. *)
Lemma make_dict_restval header row k :
  k ∈ drop (length row) header → Csv.make_dict header row !! k = Some None.
Proof.
  intros Hin. unfold Csv.make_dict. rewrite foldl_insert_restval.
  by rewrite decide_True.
Qed.

Lemma getitem_Ret header row k :
  k ∈ header →
  Csv.getitem (Csv.make_dict header row) k
  = Ret (default None (Csv.make_dict header row !! k)).
Proof.
  intros Hk. apply (make_dict_is_Some header row) in Hk as [v Hv].
  unfold Csv.getitem. by rewrite Hv.
Qed.


End dict_rows.

(** ** Runs that complete *)

Section complete_runs.

Implicit Types (w : world) (rows : list Csv.row_dict).
Implicit Types (data : list (option string * float)).
Implicit Types (selected : list (option string * float * string)).












End complete_runs.

(** ** Runs that fail *)

Section failing_runs.

Implicit Types (w : world) (header row : list string).
Implicit Types (rows : list (list string)) (text : string).
















Lemma read_columns header rows :
  "Title"%string ∈ header → "docking score"%string ∈ header →
  comprehension
    (fun r : Csv.row_dict =>
       t ← Csv.getitem r "Title";
       d ← Csv.getitem r "docking score";
       mret (t, d))
    (Csv.make_dict header <$> rows)
  = Ret ((fun row =>
            (default None (Csv.make_dict header row !! "Title"),
             default None (Csv.make_dict header row !! "docking score")))
           <$> rows).
Proof.
  intros Ht Hd. induction rows as [|row rows IH]; [done|].
  rewrite !fmap_cons. cbn [comprehension].
  rewrite (getitem_Ret _ _ _ Ht), (getitem_Ret _ _ _ Hd).
  cbn [mbind outcome_bind obind mret outcome_ret]. by rewrite IH.
Qed.

(** X7. [print_last_molecule_docking] on a table that has both columns
    and whose cells are within the reader's field limit: it looks at the
    last row that is not blank, prints one line with the title and score
    cells of that row as they are written, and returns [float] of the
    score cell (raising what [float] raises); a table with no such row
    gives [IndexError]. It changes nothing else. *)
Theorem print_last_molecule_docking_spec path w text header rows :
  files w !! path = Some text →
  Csv.read text = Ret (header :: rows) →
  within_field_limit (header :: rows) →
  "Title"%string ∈ header → "docking score"%string ∈ header →
  print_last_molecule_docking path w
  = match last (filter (fun row => row ≠ []) rows) with
    | None => (Raise IndexError, w)
    | Some row =>
        let t := default None (Csv.make_dict header row !! "Title") in
        let d := default None
                   (Csv.make_dict header row !! "docking score") in
        (float_of_cell d,
         {| cwd := cwd w; files := files w; documents := documents w;
            images := images w;
            stdout := stdout w
                        ++ ["The docking score of the last molecule ("
                              +:+ str_of_cell t +:+ ") is: "
                              +:+ str_of_cell d];
            current_figure := current_figure w;
            savefig_error := savefig_error w |})
    end.
Proof.
  intros Hf Hr _ Ht Hd. unfold print_last_molecule_docking.
  erewrite bind_Ret; [|unfold open_read; by rewrite Hf].
  erewrite bind_Ret; [|unfold lift; by rewrite Hr].
  erewrite bind_Ret;
    [|unfold lift, Csv.dict_rows; by rewrite (read_columns _ _ Ht Hd)].
  unfold PyStr.index_last. rewrite fmap_last.
  destruct (last (filter _ rows)) as [row|]; [|reflexivity].
  reflexivity.
Qed.

Lemma print_last_molecule_docking_spec_witness :
  let text := ("Title,docking score" +:+ CRLF +:+ "a,1" +:+ CRLF
                 +:+ "b,-7.5" +:+ CRLF +:+ CRLF)%string in
  print_last_molecule_docking "/file_name.csv" (input_world text)
  = (Ret (of_decimal true 75 (-1)),
     {| cwd := "/"; files := files (input_world text); documents := ∅;
        images := ∅;
        stdout := ["The docking score of the last molecule (b) is: -7.5"];
        current_figure := [];
        savefig_error := fun _ => None |}).
Proof.
  intros text.
  rewrite (print_last_molecule_docking_spec "/file_name.csv"
             (input_world text) text ["Title"; "docking score"]
             [["a"; "1"]; ["b"; "-7.5"]; []]).
  - vm_compute. reflexivity.
  - reflexivity.
  - vm_compute. reflexivity.
  - apply (bool_decide_unpack _). vm_compute. exact I.
  - set_solver.
  - set_solver.
Defined.

End failing_runs.

(** ** The filtered table as a table *)

Section filtered_table.

Implicit Types (selected : list (option string * float * string)).

Lemma make_dict_z_score a b c :
  Csv.getitem
    (Csv.make_dict [molecule_name_column; docking_score_column; "Z Score"]
       [a; b; c]) "Z Score"
  = Ret (Some c).
Proof.
  unfold Csv.getitem, Csv.make_dict. cbn [zip_with foldl length drop fst snd].
  unfold Csv.row_dict. by rewrite lookup_insert_eq.
Qed.

Lemma dict_rows_csv_text selected :
  Csv.dict_rows <$> Csv.read (csv_text selected)
  = Ret ((fun '(t, x, z) =>
            Csv.make_dict
              [molecule_name_column; docking_score_column; "Z Score"]
              [default "" t; repr x; z])
           <$> selected).
Proof.
  rewrite read_csv_text. cbn [fmap outcome_fmap obind]. f_equal.
  unfold Csv.dict_rows. induction selected as [|[[t x] z] selected IH]; [done|].
  rewrite !fmap_cons, filter_cons_True by done. rewrite fmap_cons.
  by rewrite IH.
Qed.

Lemma selected_scores_read_back (rows : list Csv.row_dict) loaded :
  load_rows rows = Ret loaded →
  Forall (fun item => py_float (repr item.1.2) = Ret item.1.2)
    (selected_data (drop_none loaded) (z_scores (snd <$> drop_none loaded))).
Proof.
  intros Hload. apply Forall_forall. intros [[t x] z] Hin. cbn [fst snd].
  apply selected_data_elem in Hin as [Hin _]. apply py_float_repr.
  pose proof (load_rows_valid _ _ Hload) as Hv.
  rewrite Forall_forall in Hv. exact (Hv (t, x) Hin).
Qed.

(** X8. The filtered file holds the selection, whole: read back through
    [DictReader], with [float] on the score cells, it gives one row for
    each selected item, in order, with the item's title (the empty text
    for a missing one), exactly its score, and its z-score text,
    whatever characters the titles contain. *)
Theorem filtered_table_reads_back (rows : list Csv.row_dict) loaded :
  let data := drop_none loaded in
  let selected := selected_data data (z_scores (snd <$> data)) in
  load_rows rows = Ret loaded →
  (records ← Csv.read (csv_text selected);
   comprehension
     (fun r : Csv.row_dict =>
        t ← Csv.getitem r "Title";
        d ← Csv.getitem r "docking score";
        z ← Csv.getitem r "Z Score";
        x ← float_of_cell d;
        mret (t, x, z))
     (Csv.dict_rows records))
  = Ret ((fun '(t, x, z) => (Some (default "" t), x, Some z)) <$> selected).
Proof.
  intros data selected Hload.
  pose proof (selected_scores_read_back rows loaded Hload) as Hpy.
  fold data in Hpy. fold selected in Hpy. clearbody selected.
  pose proof (dict_rows_csv_text selected) as Hd.
  destruct (Csv.read (csv_text selected)) as [records|]; [|done].
  cbn [fmap outcome_fmap obind] in Hd. injection Hd as Hd.
  cbn [mbind outcome_bind obind]. rewrite Hd. clear Hd records.
  induction Hpy as [|[[t x] z] selected Hx _ IH]; [done|].
  rewrite !fmap_cons. cbn [comprehension].
  destruct (make_dict_columns (default "" t) (repr x) z) as [-> ->].
  rewrite make_dict_z_score.
  cbn [mbind outcome_bind obind mret outcome_ret float_of_cell].
  cbn [fst snd] in Hx. rewrite Hx.
  cbn [mbind outcome_bind obind mret outcome_ret]. by rewrite IH.
Qed.

Lemma filtered_table_reads_back_witness :
  (records ← Csv.read
               (csv_text
                  (selected_data (drop_none example_loaded)
                     (z_scores (snd <$> drop_none example_loaded))));
   comprehension
     (fun r : Csv.row_dict =>
        t ← Csv.getitem r "Title";
        d ← Csv.getitem r "docking score";
        z ← Csv.getitem r "Z Score";
        x ← float_of_cell d;
        mret (t, x, z))
     (Csv.dict_rows records))
  = Ret ((fun '(t, x, z) => (Some (default "" t), x, Some z))
           <$> selected_data (drop_none example_loaded)
                 (z_scores (snd <$> drop_none example_loaded))).
Proof.
  exact (filtered_table_reads_back example_rows example_loaded
           example_rows_loaded).
Defined.

End filtered_table.

(** ** Scores that are not finite *)

Section nonfinite_scores.

Implicit Types (x y acc : float) (a r : list float).

Lemma add_nonfinite_l x y : is_finite x = false → is_finite (add x y) = false.
Proof. by destruct x as [[]|[]| |], y as [[]|[]| |]. Qed.

Lemma add_nonfinite_r x y : is_finite y = false → is_finite (add x y) = false.
Proof. by destruct x as [[]|[]| |], y as [[]|[]| |]. Qed.

Lemma sub_nonfinite_r x y : is_finite y = false → is_finite (sub x y) = false.
Proof. by destruct x as [[]|[]| |], y as [[]|[]| |]. Qed.

Lemma mul_nonfinite x : is_finite x = false → is_finite (mul x x) = false.
Proof. by destruct x as [[]|[]| |]. Qed.

Lemma div_nonfinite_l x y : is_finite x = false → is_finite (div x y) = false.
Proof. by destruct x as [[]|[]| |], y as [[]|[]| |]. Qed.

Lemma sqrt_nonfinite x : is_finite x = false → is_finite (sqrt x) = false.
Proof. by destruct x as [[]|[]| |]. Qed.

Lemma div_nonfinite x y :
  is_finite x = false → is_finite y = false → div x y = S754_nan.
Proof. by destruct x as [[]|[]| |], y as [[]|[]| |]. Qed.

Lemma fold_add_nonfinite a acc :
  is_finite acc = false ∨ Exists (fun x => is_finite x = false) a →
  is_finite (fold_left add a acc) = false.
Proof.
  revert acc. induction a as [|x a IH]; intros acc H; cbn [fold_left].
  - destruct H as [H|H]; [done|]. by apply Exists_nil in H.
  - apply IH. destruct H as [H|[H|H]%Exists_cons].
    + left. by apply add_nonfinite_l.
    + left. by apply add_nonfinite_r.
    + by right.
Qed.

Lemma zip_add_nonfinite r a :
  length r = length a →
  Exists (fun x => is_finite x = false) (r ++ a) →
  Exists (fun x => is_finite x = false) (zip_with add r a).
Proof.
  revert a. induction r as [|x r IH]; intros [|y a] Hlen; try done.
  cbn [zip_with]. rewrite <- app_comm_cons. intros [H|H]%Exists_cons.
  { apply Exists_cons. left. by apply add_nonfinite_l. }
  apply Exists_app in H as [H|[H|H]%Exists_cons]; apply Exists_cons.
  - right. apply IH; [by injection Hlen|]. apply Exists_app. by left.
  - left. by apply add_nonfinite_r.
  - right. apply IH; [by injection Hlen|]. apply Exists_app. by right.
Qed.

Lemma add_blocks_nonfinite blocks r a :
  length r = 8%nat → (8 * blocks ≤ length a)%nat →
  Exists (fun x => is_finite x = false) (r ++ a) →
  length (Np.add_blocks blocks r a).1 = 8%nat
  ∧ Exists (fun x => is_finite x = false)
      ((Np.add_blocks blocks r a).1 ++ (Np.add_blocks blocks r a).2).
Proof.
  revert r a. induction blocks as [|b IH]; intros r a Hr Ha Hex; [done|].
  cbn [Np.add_blocks]. apply IH.
  - rewrite length_zip_with, length_take. lia.
  - rewrite length_drop. lia.
  - rewrite <- (take_drop 8 a), app_assoc in Hex.
    apply Exists_app in Hex as [Hex|Hex]; apply Exists_app; [left|by right].
    apply zip_add_nonfinite; [|done]. rewrite length_take. lia.
Qed.

Lemma sum8_nonfinite r :
  Exists (fun x => is_finite x = false) r → is_finite (Np.sum8 r) = false.
Proof.
  intros Hex.
  destruct r as [|r0 [|r1 [|r2 [|r3 [|r4 [|r5 [|r6 [|r7 [|r8 r]]]]]]]]];
    try (apply fold_add_nonfinite; by right).
  cbn [Np.sum8]. rewrite !Exists_cons in Hex.
  destruct Hex as [H|[H|[H|[H|[H|[H|[H|[H|H]]]]]]]];
    [..|by apply Exists_nil in H];
    auto 6 using add_nonfinite_l, add_nonfinite_r.
Qed.

Lemma pairwise_sum_nonfinite fuel a :
  (length a ≤ fuel)%nat →
  Exists (fun x => is_finite x = false) a →
  is_finite (Np.pairwise_sum fuel a) = false.
Proof.
  revert a. induction fuel as [|f IH]; intros a Hlen Hex.
  { destruct a; [by apply Exists_nil in Hex|cbn in Hlen; lia]. }
  cbn [Np.pairwise_sum]. cbv zeta.
  destruct (Nat.ltb_spec (length a) 8) as [H8|H8].
  { apply fold_add_nonfinite. by right. }
  destruct (Nat.leb_spec (length a) 128) as [H128|H128].
  - destruct (add_blocks_nonfinite (length a / 8 - 1) (take 8 a) (drop 8 a))
      as [_ Hex'].
    + rewrite length_take. lia.
    + rewrite length_drop.
      pose proof (Nat.Div0.mul_div_le (length a) 8). lia.
    + by rewrite take_drop.
    + destruct (Np.add_blocks _ _ _) as [r rest]. cbn [fst snd] in Hex'.
      apply fold_add_nonfinite.
      apply Exists_app in Hex' as [Hr|Hrest]; [left|by right].
      by apply sum8_nonfinite.
  - set (n2 := (length a / 2 - (length a / 2) mod 8)%nat).
    assert (Hn2 : (1 ≤ n2 ≤ length a - 1)%nat).
    { subst n2.
      pose proof (Nat.Div0.mul_div_le (length a) 2).
      pose proof (Nat.mod_upper_bound (length a / 2) 8 ltac:(done)).
      assert (64 ≤ length a / 2)%nat; [|lia].
      apply (Nat.Div0.div_le_mono _ _ 2) in H128.
      change (S 128 / 2)%nat with 64%nat in H128. lia. }
    rewrite <- (take_drop n2 a) in Hex.
    apply Exists_app in Hex as [Hex|Hex].
    + apply add_nonfinite_l, IH; [|done]. rewrite length_take. lia.
    + apply add_nonfinite_r, IH; [|done]. rewrite length_drop. lia.
Qed.

Lemma sum_nonfinite a :
  Exists (fun x => is_finite x = false) a → is_finite (Np.sum a) = false.
Proof.
  intros Hex. destruct a as [|x a]; [by apply Exists_nil in Hex|].
  unfold Np.sum. by apply add_nonfinite_r, pairwise_sum_nonfinite.
Qed.

Lemma std_nonfinite a :
  Exists (fun x => is_finite x = false) a → is_finite (Np.std a) = false.
Proof.
  intros Hex. unfold Np.std, Np.var.
  apply sqrt_nonfinite, div_nonfinite_l, sum_nonfinite.
  pose proof (div_nonfinite_l _ (Np.count a) (sum_nonfinite a Hex)) as Hm.
  destruct a as [|x a]; [by apply Exists_nil in Hex|].
  rewrite !fmap_cons. apply Exists_cons. left.
  by apply mul_nonfinite, sub_nonfinite_r.
Qed.

Lemma z_score_nan a x :
  Exists (fun x => is_finite x = false) a → z_score a x = S754_nan.
Proof.
  intros Hex. unfold z_score. cbv zeta.
  apply div_nonfinite; [|by apply std_nonfinite].
  apply sub_nonfinite_r, div_nonfinite_l. by apply sum_nonfinite.
Qed.

(** X9. One score that is not finite (a cell such as [nan], [inf] or
    [1e999], which [parse_float] accepts) spoils the whole run: every
    z-score is a NaN (those of [main] and whatever [z_score] gives
    against this data), no row is selected, and the run ends in the
    [IndexError] of the empty filtered file. *)
Theorem nonfinite_score_selects_nothing
  (data : list (option string * float)) w :
  Exists (fun item => is_finite item.2 = false) data →
  (∀ x, z_score (snd <$> data) x = S754_nan)
  ∧ Forall (fun z => z = S754_nan) (z_scores (snd <$> data))
  ∧ selected_data data (z_scores (snd <$> data)) = []
  ∧ ∃ fig, report data w
           = (Raise IndexError, stopped_before_docking_plot w fig).
Proof.
  intros Hex.
  assert (Hex' : Exists (fun x => is_finite x = false) (snd <$> data)).
  { apply Exists_fmap. exact Hex. }
  split; [intros x; by apply z_score_nan|].
  assert (Hsel : selected_data data (z_scores (snd <$> data)) = []).
  { rewrite selected_data_eq.
    replace (filter _ data) with (@nil (option string * float)); [done|].
    symmetry. apply elem_of_nil_inv. intros item [Hle _]%list_elem_of_filter.
    by rewrite (z_score_nan _ _ Hex') in Hle. }
  split; [|split; [exact Hsel|]].
  - rewrite z_scores_z_score. apply Forall_fmap, Forall_forall.
    intros x _. by apply z_score_nan.
  - destruct data as [|item data]; [by apply Exists_nil in Hex|].
    exact (report_empty_selection (item :: data) w Hsel).
Qed.

Lemma nonfinite_score_selects_nothing_witness :
  let data := [(Some "a", of_Z 1); (Some "b", of_Z (-200));
               (Some "c", S754_infinity false)] in
  (∀ x, z_score (snd <$> data) x = S754_nan)
  ∧ Forall (fun z => z = S754_nan) (z_scores (snd <$> data))
  ∧ selected_data data (z_scores (snd <$> data)) = []
  ∧ ∃ fig, report data empty_world
           = (Raise IndexError, stopped_before_docking_plot empty_world fig).
Proof.
  intros data. apply (nonfinite_score_selects_nothing data empty_world).
  apply Exists_cons. right. apply Exists_cons. right.
  apply Exists_cons. by left.
Defined.

End nonfinite_scores.

(** ** Texts with more than one comma *)

Section commas.

Implicit Types (s t : string) (c a : ascii) (l r : list ascii) (x : float).

Lemma weight_app l r : weight (l ++ r) = (weight l + weight r)%nat.
Proof. apply sum_list_with_app. Qed.

Lemma weight_cons c l : weight (c :: l) = (literal_weight c + weight l)%nat.
Proof. done. Qed.

Lemma weight_rev l : weight (rev l) = weight l.
Proof.
  induction l as [|c l IH]; [done|].
  cbn [rev]. rewrite weight_app, IH, !weight_cons. cbn. lia.
Qed.

Lemma weight_digit c : PyStr.is_digit c = true → literal_weight c = 0%nat.
Proof. destruct c as [[] [] [] [] [] [] [] []]; by cbv. Qed.

Lemma weight_space c : is_space c = true → literal_weight c = 0%nat.
Proof. destruct c as [[] [] [] [] [] [] [] []]; by cbv. Qed.

Lemma weight_unicode_space c :
  is_unicode_space c = true → literal_weight c = 0%nat.
Proof. destruct c as [[] [] [] [] [] [] [] []]; by cbv. Qed.

Lemma weight_underscore c : is_underscore c = true → literal_weight c = 0%nat.
Proof. destruct c as [[] [] [] [] [] [] [] []]; by cbv. Qed.

Lemma weight_lower c : literal_weight (PyStr.lower c) = literal_weight c.
Proof. destruct c as [[] [] [] [] [] [] [] []]; by cbv. Qed.

Lemma weight_digits l : forallb PyStr.is_digit l = true → weight l = 0%nat.
Proof.
  induction l as [|c l IH]; [done|]. cbn [forallb].
  intros [Hc Hl]%andb_prop. by rewrite weight_cons, (weight_digit c Hc), IH.
Qed.

(** The steps of [float] before the literal is read. *)

Lemma weight_transform_to_ascii l :
  (Nat.min 2 (weight l) ≤ weight (transform_to_ascii l))%nat.
Proof.
  induction l as [|c l IH]; [done|]. cbn [transform_to_ascii].
  destruct (N_of_ascii c <? 127)%N; [rewrite !weight_cons; lia|].
  destruct (is_unicode_space c) eqn:Hc.
  - rewrite !weight_cons, (weight_unicode_space c Hc). exact IH.
  - change (weight ["?"%char]) with 2%nat. lia.
Qed.

Lemma weight_transform l :
  (2 ≤ weight l → 2 ≤ weight (transform_decimal_and_space l))%nat.
Proof.
  unfold transform_decimal_and_space. destruct (forallb _ l); [done|].
  pose proof (weight_transform_to_ascii l). lia.
Qed.

Lemma weight_strip_underscores prev l l' :
  strip_underscores prev l = Some l' → weight l' = weight l.
Proof.
  revert prev l'. induction l as [|c l IH]; intros prev l';
    cbn [strip_underscores].
  - destruct (is_underscore prev); [done|]. by intros [= <-].
  - destruct (is_underscore c) eqn:Hc.
    + destruct (PyStr.is_digit prev); [|done]. intros H%IH.
      by rewrite weight_cons, (weight_underscore c Hc).
    + destruct (_ && _); [done|].
      destruct (strip_underscores c l) as [l1|] eqn:Hl; [|done].
      cbn [fmap option_fmap option_map]. intros [= <-].
      by rewrite !weight_cons, (IH _ _ Hl).
Qed.

Lemma weight_lstrip l : weight (lstrip l) = weight l.
Proof.
  induction l as [|c l IH]; [done|]. cbn [lstrip].
  destruct (is_space c) eqn:Hc; [|done].
  by rewrite weight_cons, (weight_space c Hc).
Qed.

Lemma weight_strip l : weight (strip l) = weight l.
Proof.
  unfold strip. by rewrite weight_rev, weight_lstrip, weight_rev, weight_lstrip.
Qed.

(** What [float] reads in full weighs one at most. *)

Lemma weight_parse_sign l sgn l1 :
  parse_sign l = (sgn, l1) → weight l = weight l1.
Proof.
  destruct l as [|c l]; cbn; [by intros [= _ <-]|].
  destruct (Ascii.eqb_spec c "-") as [->|_]; [by intros [= _ <-]|].
  destruct (Ascii.eqb_spec c "+") as [->|_]; by intros [= _ <-].
Qed.

Lemma weight_span_digits l ds rest :
  span_digits l = (ds, rest) → weight l = weight rest.
Proof.
  intros (-> & Hds & _)%span_digits_spec.
  by rewrite weight_app, (weight_digits _ Hds).
Qed.

Lemma weight_parse_exponent l ex : parse_exponent l = (ex, []) → weight l = 0%nat.
Proof.
  destruct l as [|c l]; [done|]. cbn [parse_exponent].
  destruct (Ascii.eqb c "e" || Ascii.eqb c "E") eqn:Hc; [|done].
  destruct (parse_sign l) as [es r1] eqn:Hs.
  destruct (span_digits r1) as [ed r2] eqn:Hd.
  destruct ed as [|d ed]; [done|]. intros [= _ ->].
  rewrite weight_cons, (weight_parse_sign _ _ _ Hs).
  rewrite (weight_span_digits _ _ _ Hd).
  apply orb_prop in Hc as [->%Ascii.eqb_eq | ->%Ascii.eqb_eq]; done.
Qed.

Lemma weight_dg_strtod l x : dg_strtod l = Some (x, []) → (weight l ≤ 1)%nat.
Proof.
  unfold dg_strtod. destruct (parse_sign l) as [sgn l1] eqn:Hs.
  destruct (span_digits l1) as [ip l2] eqn:Hip.
  rewrite (weight_parse_sign _ _ _ Hs), (weight_span_digits _ _ _ Hip).
  set (frac := match l2 with [] => _ | _ => _ end).
  assert (Hfrac : (weight l2 ≤ 1 + weight frac.2)%nat).
  { subst frac. destruct l2 as [|c r]; [cbn; lia|].
    destruct (Ascii.eqb_spec c ".") as [->|_]; [|cbn [snd]; lia].
    destruct (span_digits r) as [fp l3] eqn:Hr.
    rewrite weight_cons, (weight_span_digits _ _ _ Hr).
    change (literal_weight ".") with 1%nat. cbn [snd]. lia. }
  destruct frac as [fp l3]. cbn [snd] in Hfrac.
  destruct (ip ++ fp); [done|]. destruct (_ || _); [done|].
  destruct (parse_exponent l3) as [ex l4] eqn:He. intros [= _ ->].
  rewrite (weight_parse_exponent _ _ He) in Hfrac. lia.
Qed.

Lemma weight_imatch w l r :
  weight w = 0%nat → imatch w l = Some r → weight l = weight r.
Proof.
  revert l. induction w as [|a w IH]; intros l Hw; cbn [imatch].
  - by intros [= <-].
  - destruct l as [|c l]; [done|].
    rewrite weight_cons in Hw.
    destruct (Ascii.eqb_spec (PyStr.lower c) a) as [<-|_]; [|done].
    rewrite weight_lower in Hw. intros H%IH; [|lia].
    rewrite weight_cons. lia.
Qed.

Lemma weight_parse_inf_or_nan l x :
  parse_inf_or_nan l = Some (x, []) → weight l = 0%nat.
Proof.
  unfold parse_inf_or_nan. destruct (parse_sign l) as [neg l1] eqn:Hs.
  rewrite (weight_parse_sign _ _ _ Hs).
  destruct (imatch (PyStr.chars "inf") l1) as [r|] eqn:Hinf.
  - rewrite (weight_imatch (PyStr.chars "inf") _ _ eq_refl Hinf).
    destruct (imatch (PyStr.chars "inity") r) as [r'|] eqn:Hinity.
    + rewrite (weight_imatch (PyStr.chars "inity") _ _ eq_refl Hinity).
      by intros [= _ ->].
    + by intros [= _ ->].
  - destruct (imatch (PyStr.chars "nan") l1) as [r|] eqn:Hnan; [|done].
    rewrite (weight_imatch (PyStr.chars "nan") _ _ eq_refl Hnan).
    by intros [= _ ->].
Qed.

(** A text with two points, or with a character [float] does not know,
    is no float. *)
Lemma py_float_weight t :
  (2 ≤ weight (PyStr.chars t))%nat → py_float t = Raise ValueError.
Proof.
  intros Hw%weight_transform. unfold py_float, float_from_string_inner.
  destruct (strip_underscores _ _) as [l|] eqn:Hl; [|done].
  rewrite <- (weight_strip_underscores _ _ _ Hl), <- weight_strip in Hw.
  unfold ascii_strtod.
  destruct (dg_strtod (strip l)) as [[x [|c r]]|] eqn:Hd; [|done|].
  - apply weight_dg_strtod in Hd. lia.
  - destruct (parse_inf_or_nan (strip l)) as [[x [|c r]]|] eqn:Hn; try done.
    apply weight_parse_inf_or_nan in Hn. lia.
Qed.

Lemma length_split c s : length (PyStr.split c s) = S (str_count c s).
Proof.
  unfold str_count. induction s as [|a s IH]; [done|]. cbn [PyStr.split].
  change (PyStr.chars (String a s)) with (a :: PyStr.chars s).
  cbn [sum_list_with]. destruct (Ascii.eqb a c).
  - cbn [length]. by rewrite IH.
  - destruct (PyStr.split c s); [done|]. cbn [length] in *. lia.
Qed.

Lemma weight_replace s :
  (str_count "," s ≤ weight (PyStr.chars (PyStr.replace "," "." s)))%nat.
Proof.
  unfold str_count. induction s as [|a s IH]; [done|]. cbn [PyStr.replace].
  change (PyStr.chars (String ?b ?u)) with (b :: PyStr.chars u).
  rewrite weight_cons. cbn [sum_list_with].
  destruct (Ascii.eqb a ","); [cbn; lia|lia].
Qed.

(** X10. A text with two commas or more never parses: [parse_float]
    turns every comma into a point, and no float literal has two. A
    score written with thousands separators is dropped like any other
    unreadable one. *)
Theorem parse_float_two_commas s :
  (3 ≤ length (PyStr.split "," s))%nat → parse_float (Some s) = Ret None.
Proof.
  rewrite length_split. intros Hc.
  pose proof (weight_replace s) as Hw.
  assert (Hin : PyStr.contains "," s = true).
  { destruct (PyStr.contains "," s) eqn:E; [done|].
    apply split_no_sep in E. apply (f_equal length) in E.
    rewrite length_split in E. cbn in E. lia. }
  destruct (after_comma_is_Some s Hin) as [p Hp].
  destruct (Nat.le_gt_cases 2 (String.length p)) as [Hlen|Hlen].
  - rewrite (parse_float_rule1 _ _ Hp Hlen Hin), py_float_weight; [done|lia].
  - rewrite (parse_float_rule2 _ _ Hp Hlen Hin), py_float_weight; [done|].
    rewrite chars_app, weight_app. lia.
Qed.

Lemma parse_float_two_commas_witness :
  parse_float (Some "1,234,56"%string) = Ret None.
Proof. apply parse_float_two_commas. vm_compute. lia. Defined.

End commas.

(** ** What the program writes, read by its own parser *)

Section written_numbers.

Implicit Types (s : bool) (ds l r : list ascii) (D k n : Z) (x z : float).

Lemma to_digits_aux_all_digits fuel n acc :
  forallb PyStr.is_digit acc = true →
  forallb PyStr.is_digit (PyStr.to_digits_aux fuel n acc) = true.
Proof.
  revert n acc. induction fuel as [|fuel IH]; intros n acc Hacc; [done|].
  cbn [PyStr.to_digits_aux].
  pose proof (Z.mod_pos_bound n 10 ltac:(lia)) as Hr.
  destruct (digit_char_spec (n mod 10) Hr) as [_ Hd].
  assert (forallb PyStr.is_digit (PyStr.digit_char (n mod 10) :: acc) = true)
    as Hacc' by (cbn [forallb]; by rewrite Hd, Hacc).
  destruct (n <? 10); [done|]. by apply IH.
Qed.

Lemma to_digits_all_digits n :
  forallb PyStr.is_digit (PyStr.to_digits n) = true.
Proof. by apply to_digits_aux_all_digits. Qed.

Lemma no_comma_app l r :
  existsb (fun a => Ascii.eqb a ",") (l ++ r)
  = existsb (fun a => Ascii.eqb a ",") l
    || existsb (fun a => Ascii.eqb a ",") r.
Proof. apply existsb_app. Qed.

Lemma no_comma_take i ds :
  forallb PyStr.is_digit ds = true →
  existsb (fun a => Ascii.eqb a ",") (take i ds) = false.
Proof. intros H. by apply digits_no_comma, forallb_take. Qed.

Lemma no_comma_drop i ds :
  forallb PyStr.is_digit ds = true →
  existsb (fun a => Ascii.eqb a ",") (drop i ds) = false.
Proof. intros H. by apply digits_no_comma, forallb_drop. Qed.

Lemma no_comma_zeros j :
  existsb (fun a => Ascii.eqb a ",") (PyStr.zeros j) = false.
Proof. apply digits_no_comma, zeros_digits. Qed.

Lemma no_comma_repr_layout s ds decpt :
  forallb PyStr.is_digit ds = true →
  existsb (fun a => Ascii.eqb a ",") (repr_layout s ds decpt) = false.
Proof.
  intros Hds. unfold repr_layout. rewrite no_comma_app.
  assert (existsb (fun a => Ascii.eqb a ",") (sign_chars s) = false) as ->
    by (by destruct s).
  cbn [orb]. destruct (_ || _).
  - rewrite !no_comma_app, (no_comma_take _ _ Hds). cbn [orb existsb].
    assert (existsb (fun a => Ascii.eqb a ",")
              match drop 1 ds with [] => [] | a :: r => "."%char :: a :: r end
            = false) as ->.
    { pose proof (no_comma_drop 1 _ Hds) as Hd.
      destruct (drop 1 ds); [done|]. exact Hd. }
    change (Ascii.eqb "e" ",") with false.
    destruct (_ <? 0); cbn [orb];
      by rewrite no_comma_app, no_comma_zeros,
           (digits_no_comma _ (to_digits_all_digits _)).
  - destruct (decpt <=? 0).
    + cbn [existsb]. change (Ascii.eqb "0" ",") with false.
      change (Ascii.eqb "." ",") with false. cbn [orb].
      by rewrite no_comma_app, no_comma_zeros, (digits_no_comma _ Hds).
    + destruct (decpt <? _).
      * rewrite no_comma_app, (no_comma_take _ _ Hds). cbn [existsb orb].
        change (Ascii.eqb "." ",") with false. cbn [orb].
        by apply no_comma_drop.
      * by rewrite !no_comma_app, (digits_no_comma _ Hds), no_comma_zeros.
Qed.

Lemma no_comma_repr_candidate s D k :
  PyStr.contains "," (repr_candidate s D k) = false.
Proof.
  unfold repr_candidate.
  destruct (rstrip_zeros_rev (rev (PyStr.to_digits D)) k) as [r k'] eqn:Hr.
  apply rstrip_zeros_rev_spec in Hr as (j & Hr & _ & _).
  2:{ intros H0. apply (f_equal (@rev _)) in H0.
      rewrite rev_involutive in H0. by apply (to_digits_nonempty D). }
  rewrite contains_chars, chars_of_chars. apply no_comma_repr_layout.
  pose proof (to_digits_all_digits D) as Hd.
  rewrite <- (rev_involutive (PyStr.to_digits D)), Hr, rev_app_distr in Hd.
  rewrite forallb_app in Hd. by apply andb_prop in Hd as [Hd _].
Qed.

Lemma no_comma_shortest fuel s x n d k kmin :
  PyStr.contains "," (shortest fuel s x n d k kmin) = false.
Proof.
  revert k. induction fuel as [|fuel IH]; intros k.
  all: cbn [shortest].
  all: destruct (scaled n d k) as [num den].
  all: destruct (reads_back _ _), (reads_back _ _).
  all: try (destruct (Z.compare _ _); [destruct (Z.even _)| |]).
  all: try apply no_comma_repr_candidate.
  - destruct (scaled n d kmin). apply no_comma_repr_candidate.
  - apply IH.
Qed.

Lemma no_comma_repr x : PyStr.contains "," (repr x) = false.
Proof.
  destruct x as [[]|[]| |s m e]; try done.
  unfold repr. destruct (exact_ratio m e). apply no_comma_shortest.
Qed.

(** X11. [parse_float] reads every score as the program writes it:
    [str] of a float has no comma, so the text goes to [float] as it
    is, which gives the float back. *)
Theorem parse_float_repr x :
  valid x = true → parse_float (Some (repr x)) = Ret (Some x).
Proof.
  intros Hv. rewrite (parse_float_rule3 _ (no_comma_repr x)).
  by rewrite (py_float_repr x Hv).
Qed.

Lemma parse_float_repr_witness :
  parse_float (Some (repr (of_decimal true 75 (-1))))
  = Ret (Some (of_decimal true 75 (-1))).
Proof. apply parse_float_repr. vm_compute. reflexivity. Defined.

(** The shape of a number with six decimals. *)
Lemma fixed_layout_shape n :
  ∃ ip fp,
    fixed_layout 6 n = ip ++ "."%char :: fp
    ∧ ip ≠ [] ∧ forallb PyStr.is_digit ip = true
    ∧ forallb PyStr.is_digit fp = true ∧ length fp = 6%nat.
Proof.
  unfold fixed_layout.
  set (ds := PyStr.zeros (7 - length (PyStr.to_digits n)) ++ PyStr.to_digits n).
  assert (Hlen : (7 ≤ length ds)%nat).
  { subst ds. rewrite length_app, length_zeros. lia. }
  assert (Hds : forallb PyStr.is_digit ds = true).
  { subst ds. by rewrite forallb_app, zeros_digits, to_digits_all_digits. }
  exists (take (length ds - 6) ds), (drop (length ds - 6) ds).
  split; [done|]. split; [|split; [|split]].
  - intros H0. apply (f_equal length) in H0. rewrite length_take in H0.
    cbn [length] in H0. lia.
  - by apply forallb_take.
  - by apply forallb_drop.
  - rewrite length_drop. lia.
Qed.

Lemma leb_threshold_negative z :
  leb z z_score_threshold_lower = true →
  z = S754_infinity true ∨ ∃ m e, z = S754_finite true m e.
Proof.
  destruct z as [[]|[]| |[] m e]; try done; intros _; [by left|right].
  by exists m, e.
Qed.

(** X12. Every z-score written to the filtered file and to the report
    is a negative number with one digit or more before the point and
    exactly six after it, or the text [-inf]. *)
Theorem selected_z_score_text (data : list (option string * float)) t x zs :
  (t, x, zs) ∈ selected_data data (z_scores (snd <$> data)) →
  zs = "-inf"%string
  ∨ ∃ ip fp,
      zs = PyStr.of_chars ("-"%char :: ip ++ "."%char :: fp)
      ∧ ip ≠ [] ∧ forallb PyStr.is_digit ip = true
      ∧ forallb PyStr.is_digit fp = true ∧ length fp = 6%nat.
Proof.
  rewrite selected_data_eq.
  intros ([t' x'] & [= -> -> ->] & Hin)%list_elem_of_fmap.
  apply list_elem_of_filter in Hin as [Hle _]. cbn [snd] in *.
  apply leb_threshold_negative in Hle as [->|(m & e & ->)]; [by left|right].
  unfold format_f. destruct (exact_ratio m e) as [n d].
  destruct (fixed_layout_shape (round_half_even (n * 10 ^ Z.of_nat 6) d))
    as (ip & fp & -> & H).
  by exists ip, fp.
Qed.

Lemma selected_z_score_text_witness :
  "-2.448886"%string = "-inf"%string
  ∨ ∃ ip fp,
      "-2.448886"%string
      = PyStr.of_chars ("-"%char :: ip ++ "."%char :: fp)
      ∧ ip ≠ [] ∧ forallb PyStr.is_digit ip = true
      ∧ forallb PyStr.is_digit fp = true ∧ length fp = 6%nat.
Proof.
  apply (selected_z_score_text (drop_none example_loaded) (Some "h")
           (of_Z (-200)) "-2.448886").
  vm_compute. apply list_elem_of_here.
Defined.

End written_numbers.

(** ** Decimal commas *)

Section decimal_comma.

Implicit Types (s : bool) (ip fp l : list ascii) (n d c M E j : Z).

Lemma mul_compare c n d : 0 < c → Z.compare (c * n) (c * d) = Z.compare n d.
Proof.
  intros Hc. destruct (Z.compare_spec n d) as [->|H|H].
  - apply Z.compare_refl.
  - apply Z.compare_lt_iff. nia.
  - apply Z.compare_gt_iff. nia.
Qed.

Lemma round_half_even_scale c num den :
  0 < c → 0 < den →
  round_half_even (c * num) (c * den) = round_half_even num den.
Proof.
  intros Hc Hden. unfold round_half_even.
  rewrite Z.div_mul_cancel_l, Z.mul_mod_distr_l by lia.
  replace (2 * (c * (num mod den))) with (c * (2 * (num mod den))) by ring.
  by rewrite mul_compare.
Qed.

Lemma mag2_scale c n d : 0 < c → 0 < n → 0 < d → mag2 (c * n) (c * d) = mag2 n d.
Proof.
  intros Hc Hn Hd. destruct (mag2_spec n d Hn Hd) as [Hlo Hhi].
  assert (Heq : ratio_eq (c * n, c * d) (n, d)).
  { unfold ratio_eq. cbn [fst snd]. ring. }
  assert (Hcn : 0 < c * n) by (by apply Z.mul_pos_pos).
  assert (Hcd : 0 < c * d) by (by apply Z.mul_pos_pos).
  apply mag2_unique; [done|done| |].
  - by apply (pow2_le_ratio _ _ _ _ _ Hcd Hd Heq).
  - intros H. apply Hhi. by apply (pow2_le_ratio _ _ _ _ _ Hcd Hd Heq).
Qed.

(** The rounding sees the value of a ratio only. *)
Lemma round_ratio_scale s c n d :
  0 < c → 0 < n → 0 < d → round_ratio s (c * n) (c * d) = round_ratio s n d.
Proof.
  intros Hc Hn Hd. rewrite !round_ratio_eq, (mag2_scale c n d Hc Hn Hd).
  cbv zeta. set (e := Z.max (mag2 n d - 53) (-1074)).
  rewrite <- !Z.mul_assoc, round_half_even_scale; [done|done|].
  apply Z.mul_pos_pos; [done|]. apply Z.pow_pos_nonneg; lia.
Qed.

(** Zeros appended behind the point do not change what a decimal
    stands for. *)
Lemma of_decimal_scale s M E j :
  0 ≤ M → 0 ≤ j → of_decimal s (M * 10 ^ j) (E - j) = of_decimal s M E.
Proof.
  intros HM Hj. unfold of_decimal.
  assert (H10 : ∀ k, 0 ≤ k → 0 < 10 ^ k) by (intros; by apply Z.pow_pos_nonneg).
  pose proof (H10 j Hj) as Hpj.
  destruct (Z.eqb_spec M 0) as [->|HM0].
  { by rewrite Z.mul_0_l. }
  destruct (Z.eqb_spec (M * 10 ^ j) 0) as [H0|_]; [nia|].
  destruct (Z.leb_spec 0 (E - j)) as [H1|H1].
  - destruct (Z.leb_spec 0 E) as [_|]; [|lia]. f_equal.
    rewrite <- Z.mul_assoc, <- Z.pow_add_r by lia. do 2 f_equal. lia.
  - destruct (Z.leb_spec 0 E) as [H2|H2].
    + rewrite <- (round_ratio_scale s (10 ^ (- (E - j))) (M * 10 ^ E) 1);
        [|apply H10; lia|pose proof (H10 E H2); nia|lia].
      f_equal; [|ring].
      replace j with (- (E - j) + E) at 1 by lia.
      rewrite Z.pow_add_r by lia. ring.
    + rewrite <- (round_ratio_scale s (10 ^ j) M (10 ^ (- E)));
        [|done|lia|apply H10; lia].
      f_equal; [ring|]. rewrite <- Z.pow_add_r by lia. f_equal. lia.
Qed.

Lemma chars_replace a b t :
  PyStr.chars (PyStr.replace a b t)
  = (fun x : ascii => if Ascii.eqb x a then b else x) <$> PyStr.chars t.
Proof.
  induction t as [|x t IH]; [done|]. cbn [PyStr.replace].
  change (PyStr.chars (String ?y ?u)) with (y :: PyStr.chars u).
  by rewrite fmap_cons, IH.
Qed.

Lemma replace_no_comma l :
  existsb (fun a => Ascii.eqb a ",") l = false →
  (fun x : ascii => if Ascii.eqb x "," then "."%char else x) <$> l = l.
Proof.
  induction l as [|x l IH]; [done|]. cbn [existsb].
  intros [Hc Hl]%orb_false_elim. by rewrite fmap_cons, Hc, IH.
Qed.

Lemma sign_chars_no_comma s :
  existsb (fun a => Ascii.eqb a ",") (sign_chars s) = false.
Proof. by destruct s. Qed.

Lemma decimal_point_text s ip fp :
  ip ≠ [] → forallb PyStr.is_digit ip = true →
  forallb PyStr.is_digit fp = true →
  Z.of_nat (length (ip ++ fp)) ≤ MAX_DIGITS →
  py_float (PyStr.of_chars (sign_chars s ++ ip ++ "."%char :: fp))
  = Ret (of_decimal s (PyStr.digits_val (ip ++ fp))
           (- Z.of_nat (length fp))).
Proof.
  intros Hne Hip Hfp Hlen. apply py_float_literal.
  - rewrite !forallb_app, sign_chars_plain. cbn [forallb].
    change (plain ".") with true.
    by rewrite (forallb_plain_digits _ Hip), (forallb_plain_digits _ Hfp).
  - pose proof (dg_strtod_dot s ip fp [] 0 Hne Hip Hfp eq_refl I Hlen) as H.
    rewrite app_nil_r in H. rewrite H. do 3 f_equal.
Qed.

(** X13. A number written with a decimal comma is read as the same
    number written with a point, whatever the count of decimals: with
    two or more the comma is replaced, with one or none the two zeros
    appended behind do not change the value. *)
Theorem parse_float_decimal_comma s ip fp :
  ip ≠ [] → forallb PyStr.is_digit ip = true →
  forallb PyStr.is_digit fp = true →
  Z.of_nat (length (ip ++ fp)) + 2 ≤ MAX_DIGITS →
  parse_float (Some (PyStr.of_chars (sign_chars s ++ ip ++ ","%char :: fp)))
  = Ret (Some (of_decimal s (PyStr.digits_val (ip ++ fp))
                 (- Z.of_nat (length fp))))
  ∧ py_float (PyStr.of_chars (sign_chars s ++ ip ++ "."%char :: fp))
    = Ret (of_decimal s (PyStr.digits_val (ip ++ fp))
             (- Z.of_nat (length fp))).
Proof.
  intros Hne Hip Hfp Hlen.
  assert (Hpoint := decimal_point_text s ip fp Hne Hip Hfp ltac:(lia)).
  split; [|exact Hpoint].
  set (t := PyStr.of_chars (sign_chars s ++ ip ++ ","%char :: fp)).
  assert (Hpre : existsb (fun a => Ascii.eqb a ",") (sign_chars s ++ ip)
                 = false).
  { by rewrite existsb_app, sign_chars_no_comma, (digits_no_comma _ Hip). }
  assert (Hsplit : after_comma t = Some (PyStr.of_chars fp)).
  { unfold after_comma.
    rewrite (split_first_chars "," t (sign_chars s ++ ip) fp).
    - rewrite split_no_sep; [done|].
      rewrite contains_chars, chars_of_chars. by apply digits_no_comma.
    - subst t. by rewrite chars_of_chars, <- app_assoc.
    - exact Hpre. }
  assert (Hrep : PyStr.replace "," "." t
                 = PyStr.of_chars (sign_chars s ++ ip ++ "."%char :: fp)).
  { rewrite <- (of_chars_chars (PyStr.replace "," "." t)). f_equal.
    subst t. rewrite chars_replace, chars_of_chars, app_assoc, fmap_app.
    rewrite (replace_no_comma _ Hpre), fmap_cons.
    rewrite (replace_no_comma _ (digits_no_comma _ Hfp)).
    by rewrite <- app_assoc. }
  pose proof (after_comma_Some _ _ Hsplit) as Hc.
  destruct (Nat.le_gt_cases 2 (String.length (PyStr.of_chars fp)))
    as [H2|H2].
  - by rewrite (parse_float_rule1 _ _ Hsplit H2 Hc), Hrep, Hpoint.
  - rewrite (parse_float_rule2 _ _ Hsplit H2 Hc), Hrep.
    replace (PyStr.of_chars (sign_chars s ++ ip ++ "."%char :: fp) +:+ "00")
      with (PyStr.of_chars
              (sign_chars s ++ ip ++ "."%char :: (fp ++ PyStr.zeros 2))).
    2:{ rewrite <- (of_chars_chars (_ +:+ "00")). f_equal.
        rewrite chars_app, chars_of_chars, <- !app_assoc.
        by rewrite <- app_comm_cons. }
    rewrite decimal_point_text; [|done|done| |].
    + cbn [except_ValueError]. do 2 f_equal.
      rewrite app_assoc, digits_val_app, digits_val_zeros, Z.add_0_r.
      rewrite !length_app, length_zeros.
      replace (- Z.of_nat (length fp + 2)) with (- Z.of_nat (length fp) - 2)
        by lia.
      apply of_decimal_scale; [|done].
      apply digits_val_nonneg. by rewrite forallb_app, Hip, Hfp.
    + by rewrite forallb_app, Hfp, zeros_digits.
    + rewrite !length_app, length_zeros in *. lia.
Qed.

Lemma parse_float_decimal_comma_witness :
  parse_float (Some "-7,5"%string) = Ret (Some (of_decimal true 75 (-1)))
  ∧ py_float "-7.5" = Ret (of_decimal true 75 (-1)).
Proof.
  apply (parse_float_decimal_comma true ["7"%char] ["5"%char]);
    [done|reflexivity|reflexivity|vm_compute; discriminate].
Defined.

End decimal_comma.

(** ** Columns by name *)

Section columns_by_name.

Implicit Types (header row : list string) (k v : string) (i j : nat).

Lemma filter_zip_not_in header row k :
  k ∉ header → filter (fun kv => kv.1 = k) (zip header row) = [].
Proof.
  intros Hk. apply elem_of_nil_inv. intros [k' v'] [Heq Hin]%list_elem_of_filter.
  cbn [fst] in Heq. subst k'. apply Hk.
  apply (list_elem_of_fmap_2 fst) in Hin. rewrite fst_zip_take in Hin.
  cbn [fst] in Hin. by apply (subseteq_take (length row) header).
Qed.

Lemma filter_zip_lookup header row i k v :
  NoDup header → header !! i = Some k → row !! i = Some v →
  filter (fun kv => kv.1 = k) (zip header row) = [(k, v)].
Proof.
  revert row i. induction header as [|h header IH]; intros row i Hnd Hk Hv;
    [done|].
  destruct row as [|r row]; [done|]. apply NoDup_cons in Hnd as [Hh Hnd].
  cbn [zip_with]. destruct i as [|i].
  - injection Hk as ->. injection Hv as ->.
    rewrite filter_cons_True by done. by rewrite filter_zip_not_in.
  - cbn in Hk, Hv. rewrite filter_cons_False; [by apply (IH row i)|].
    cbn [fst]. intros ->. apply Hh. by eapply list_elem_of_lookup_2.
Qed.

(** [DictReader] puts each cell under the name of its column, and
    [None] where the row has no cell. *)
Lemma make_dict_lookup header row i k :
  NoDup header → header !! i = Some k →
  Csv.make_dict header row !! k = Some (row !! i).
Proof.
  intros Hnd Hk. destruct (row !! i) as [v|] eqn:Hv.
  - unfold Csv.make_dict. rewrite foldl_insert_restval.
    rewrite decide_False.
    + by rewrite foldl_insert_cells, (filter_zip_lookup _ _ i k v).
    + intros [j Hj]%list_elem_of_lookup_1. rewrite lookup_drop in Hj.
      pose proof (NoDup_lookup _ _ _ _ Hnd Hk Hj) as Hij.
      apply lookup_lt_Some in Hv. lia.
  - apply make_dict_restval. apply lookup_ge_None in Hv.
    apply list_elem_of_lookup. exists (i - length row)%nat.
    rewrite lookup_drop. by replace (length row + (i - length row))%nat
      with i by lia.
Qed.

(** X14. The program finds its two columns by name, wherever they
    stand in the header: each row gives the cell under the title column
    and what [parse_float] makes of the cell under the score column, a
    missing cell being [None]. *)
Theorem load_rows_by_name header (rows : list (list string)) i j :
  NoDup header →
  header !! i = Some molecule_name_column →
  header !! j = Some docking_score_column →
  load_rows (Csv.make_dict header <$> rows)
  = comprehension
      (fun row : list string =>
         v ← parse_float (row !! j); mret (row !! i, v))
      rows.
Proof.
  intros Hnd Hi Hj. induction rows as [|row rows IH]; [done|].
  rewrite fmap_cons, load_rows_cons. cbn [comprehension].
  unfold Csv.getitem.
  rewrite (make_dict_lookup header row i _ Hnd Hi).
  rewrite (make_dict_lookup header row j _ Hnd Hj).
  cbn [mbind outcome_bind obind].
  destruct (parse_float (row !! j)); [|done].
  cbn [mbind outcome_bind obind]. by rewrite IH.
Qed.

Lemma load_rows_by_name_witness :
  load_rows (Csv.make_dict ["docking score"; "Note"; "Title"]
               <$> [["1,5"; "x"; "a"]; ["oops"; "y"; "b"]])
  = comprehension
      (fun row : list string =>
         v ← parse_float (row !! 0%nat); mret (row !! 2%nat, v))
      [["1,5"; "x"; "a"]; ["oops"; "y"; "b"]].
Proof.
  apply (load_rows_by_name ["docking score"; "Note"; "Title"] _ 2 0).
  - apply (bool_decide_unpack _). vm_compute. exact I.
  - reflexivity.
  - reflexivity.
Defined.

End columns_by_name.
